(** * Chatti: the room coordinator (server.js), its message store (database.js)
      and the client's socket handlers (App.tsx)

    A shallow embedding of the two server-side files and of the state the
    client keeps.  The store is a pair of tables held as lists of rows in
    rowid order; the coordinator is a state (store, presence map, live
    sockets, transport rooms) and one function per socket handler, each
    returning the new state and the events it emitted together with the
    connections that receive them; the client is the state its socket
    handlers write and one function from an event to the next state.  A
    client handles the events addressed to its connection in the order they
    were emitted, none lost.

    What lies outside the two files is taken as input: the clock readings
    ([CURRENT_TIMESTAMP] in the store, [new Date()] in the handlers), the
    random suffix of a display name, what SQL leaves to the engine (the
    order of rows whose ORDER BY keys are equal, the AUTOINCREMENT counter
    after an insert that was ignored) and how the JavaScript engine prints
    a Number beyond 2^53.

    Three things the libraries do are part of the embedding, because the
    handlers' results depend on them.  The transport keeps every socket in
    a room named by the socket's id, and [socket.to] excepts that room, not
    the socket.  The driver hands a rowid to JavaScript as a Number, so a
    rowid beyond 2^53 is rounded before it is printed.  An insert into a
    table that has held the largest rowid throws, and database.js answers
    the exception with [false] or [null].

    The payloads of the inbound events are the strings and booleans the
    client sends.  What the handlers do with a payload of another type
    (null, a number, an object) is not modelled.  Reads of the store are
    taken to answer and the exceptions of its writes are caught in
    database.js, so the handlers' own catch branches are not modelled
    either. *)

From Stdlib Require Import ZArith String Ascii DecimalString DecimalPos DecimalZ.
From stdpp Require Import base gmap strings list sorting.

(** ** JavaScript values *)

(** The decimal numeral of an integer. *)
Definition decimal (z : Z) : string := NilZero.string_of_int (Z.to_int z).

(** The Number a 64-bit integer becomes when the driver hands it to
    JavaScript: the integer itself below 2^53, and beyond that the nearest
    value with 53 significant bits, ties going to the even one. *)
Definition to_Number (z : Z) : Z :=
  let a := Z.abs z in
  if (a <? 2 ^ 53)%Z then z
  else
    let e := (Z.log2 a - 52)%Z in
    let q := Z.shiftr a e in
    let r := (a - Z.shiftl q e)%Z in
    let half := Z.shiftl 1 (e - 1) in
    let q' := if (half <? r)%Z || ((r =? half)%Z && Z.odd q)
              then (q + 1)%Z else q in
    (Z.sgn z * Z.shiftl q' e)%Z.

(** The largest rowid of a table: 2^63 - 1. *)
Definition max_rowid : Z := 9223372036854775807.

(** Truthiness of a value that is [null] or a string: [null] and the empty
    string are falsy. *)
Definition truthy (v : option string) : bool :=
  match v with
  | None => false
  | Some s => negb (String.eqb s EmptyString)
  end.

Definition is_digit (a : ascii) : bool :=
  (48 <=? nat_of_ascii a)%nat && (nat_of_ascii a <=? 57)%nat.

Fixpoint all_digits (s : string) : bool :=
  match s with
  | EmptyString => true
  | String a s' => is_digit a && all_digits s'
  end.

(** A decimal string: one digit or more, nothing else. *)
Definition is_decimal (s : string) : bool :=
  negb (String.eqb s EmptyString) && all_digits s.

(** ** Clock readings and their two renderings *)

(** One reading of the clock, as UTC calendar fields (years of four
    digits). *)
Record instant := {
  year : nat; month : nat; day : nat;
  hour : nat; minute : nat; second : nat; millis : nat
}.

Definition digit (n : nat) : ascii := ascii_of_nat (48 + n mod 10).

Definition pad2 (n : nat) : string :=
  String (digit (n / 10)) (String (digit n) EmptyString).
Definition pad3 (n : nat) : string := String (digit (n / 100)) (pad2 n).
Definition pad4 (n : nat) : string := String (digit (n / 1000)) (pad3 n).

(** SQLite's [CURRENT_TIMESTAMP]: the text "YYYY-MM-DD HH:MM:SS". *)
Definition CURRENT_TIMESTAMP (t : instant) : string :=
  pad4 (year t) +:+ "-" +:+ pad2 (month t) +:+ "-" +:+ pad2 (day t) +:+ " "
  +:+ pad2 (hour t) +:+ ":" +:+ pad2 (minute t) +:+ ":" +:+ pad2 (second t).

(** [Date.prototype.toISOString()]: the text "YYYY-MM-DDTHH:MM:SS.sssZ". *)
Definition toISOString (t : instant) : string :=
  pad4 (year t) +:+ "-" +:+ pad2 (month t) +:+ "-" +:+ pad2 (day t) +:+ "T"
  +:+ pad2 (hour t) +:+ ":" +:+ pad2 (minute t) +:+ ":" +:+ pad2 (second t)
  +:+ "." +:+ pad3 (millis t) +:+ "Z".

Arguments CURRENT_TIMESTAMP : simpl never.
Arguments toISOString : simpl never.

(** ** What the code leaves to the SQL engine and to the JavaScript engine

    The statements order rows by a text column and name no second key.  SQL
    fixes the result only up to the order of rows with equal keys, so ORDER
    BY is an interface: any function returning a sorted rearrangement of its
    input.  Text is compared bytewise ([String.le]).

    An INSERT OR IGNORE that inserts nothing may still have drawn a rowid
    from the table's AUTOINCREMENT counter; where the counter stands
    afterwards is the engine's choice too: where it stood, or one further.

    [Number.prototype.toString] prints an integer-valued Number below 10^21
    in decimal digits; which digits is fixed for the integers below 2^53
    (their numeral) and left to the implementation beyond (the shortest
    digits that read back as the same Number are recommended, not
    required). *)

Definition key_asc {A} (key : A → string) : relation A :=
  λ x y, String.le (key x) (key y).
Definition key_desc {A} (key : A → string) : relation A :=
  λ x y, String.le (key y) (key x).

(** Strictly earlier key. *)
Definition key_lt {A} (key : A → string) : relation A :=
  λ x y, String.ltb (key x) (key y).

Class SqlEngine := {
  order_by : ∀ {A : Type}, (A → string) → list A → list A;
  order_by_desc : ∀ {A : Type}, (A → string) → list A → list A;
  order_by_perm : ∀ A (key : A → string) l, order_by key l ≡ₚ l;
  order_by_sorted : ∀ A (key : A → string) l,
    StronglySorted (key_asc key) (order_by key l);
  order_by_desc_perm : ∀ A (key : A → string) l, order_by_desc key l ≡ₚ l;
  order_by_desc_sorted : ∀ A (key : A → string) l,
    StronglySorted (key_desc key) (order_by_desc key l);
  ignored_insert_seq : Z → Z;
  ignored_insert_seq_le : ∀ seq, (seq ≤ ignored_insert_seq seq)%Z;
  ignored_insert_seq_step : ∀ seq, (ignored_insert_seq seq ≤ seq + 1)%Z;
  number_toString : Z → string;
  number_toString_safe : ∀ z, (0 ≤ z < 2 ^ 53)%Z →
    number_toString z = decimal z;
  number_toString_decimal : ∀ z, (0 ≤ z < 10 ^ 21)%Z →
    is_decimal (number_toString z) = true
}.

(** [.toString()] on a rowid or on any other integer the code holds as a
    Number. *)
Definition toString `{SqlEngine} (z : Z) : string :=
  number_toString (to_Number z).

(** A sort that keeps rows with equal keys in the order it met them, for
    the engine of the worked instances. *)
Fixpoint insert_by {A} (le : A → A → bool) (x : A) (l : list A) : list A :=
  match l with
  | [] => [x]
  | y :: l' => if le x y then x :: l else y :: insert_by le x l'
  end.

Definition sort_by {A} (le : A → A → bool) (l : list A) : list A :=
  foldr (insert_by le) [] l.

Definition leb_asc {A} (key : A → string) (x y : A) : bool :=
  String.leb (key x) (key y).
Definition leb_desc {A} (key : A → string) (x y : A) : bool :=
  String.leb (key y) (key x).

(** ** database.js: schema *)

(** rooms(id INTEGER PRIMARY KEY AUTOINCREMENT, name TEXT UNIQUE NOT NULL,
    created_at DATETIME DEFAULT CURRENT_TIMESTAMP) *)
Record room_row := {
  r_id : Z;
  r_name : string;
  r_created_at : string
}.

(** messages(id INTEGER PRIMARY KEY AUTOINCREMENT, room_id INTEGER NOT NULL,
    username TEXT NOT NULL, text TEXT NOT NULL,
    timestamp DATETIME DEFAULT CURRENT_TIMESTAMP) *)
Record message_row := {
  m_id : Z;
  m_room_id : Z;
  m_username : string;
  m_text : string;
  m_timestamp : string
}.

(** The two tables, rows in rowid order, each with its AUTOINCREMENT counter
    (the largest rowid the table ever held). *)
Record db := {
  rooms : list room_row;
  rooms_seq : Z;
  messages : list message_row;
  messages_seq : Z
}.

Definition empty_db : db :=
  {| rooms := []; rooms_seq := 0; messages := []; messages_seq := 0 |}.

(** What saveMessage returns: { id, room_id, username, text, timestamp }. *)
Record SavedMessage := {
  sv_id : string;
  sv_room_id : Z;
  sv_username : string;
  sv_text : string;
  sv_timestamp : string
}.

(** What getMessagesByRoom returns per row, and what new_message carries:
    { id, text, username, room, timestamp }. *)
Record Message := {
  msg_id : string;
  msg_text : string;
  msg_username : string;
  msg_room : string;
  msg_timestamp : string
}.

(** The constraints the schema states: primary keys and room names are
    unique, message ids are positive, and no rowid exceeds its table's
    counter. *)
Record db_wf (d : db) : Prop := {
  wf_room_ids : NoDup (r_id <$> rooms d);
  wf_room_names : NoDup (r_name <$> rooms d);
  wf_room_seq : Forall (λ r, (r_id r ≤ rooms_seq d)%Z) (rooms d);
  wf_msg_ids : NoDup (m_id <$> messages d);
  wf_msg_seq : Forall (λ m, (0 < m_id m ≤ messages_seq d)%Z) (messages d);
  wf_msg_seq_nonneg : (0 ≤ messages_seq d)%Z
}.

(** The rows of one room, in rowid order: FROM messages WHERE room_id = ? *)
Definition room_messages (room_id : Z) (d : db) : list message_row :=
  filter (λ m, m_room_id m = room_id) (messages d).

(** ** database.js: prepared statements *)

Module statements.
Section with_engine.
Context `{SqlEngine}.

(** INSERT OR IGNORE INTO rooms (name) VALUES (?): returns [changes], or
    nothing when the statement throws.  A table that has held the largest
    rowid takes no further insert: the statement fails with SQLITE_FULL
    when it draws the rowid, before the name is looked at. *)
Definition createRoom (name : string) (now : instant) (d : db)
    : option (nat * db) :=
  if decide (max_rowid ≤ rooms_seq d)%Z then None
  else if decide (name ∈ r_name <$> rooms d) then
    Some (0, {| rooms := rooms d;
                rooms_seq := ignored_insert_seq (rooms_seq d);
                messages := messages d;
                messages_seq := messages_seq d |})
  else
    let id := (rooms_seq d + 1)%Z in
    Some (1, {| rooms := rooms d ++
                         [{| r_id := id; r_name := name;
                             r_created_at := CURRENT_TIMESTAMP now |}];
                rooms_seq := id;
                messages := messages d;
                messages_seq := messages_seq d |}).

(** SELECT * FROM rooms WHERE name = ?, read with [.get]: the first row. *)
Definition getRoomByName (name : string) (d : db) : option room_row :=
  head (filter (λ r, r_name r = name) (rooms d)).

(** SELECT * FROM rooms ORDER BY created_at *)
Definition getAllRooms (d : db) : list room_row :=
  order_by r_created_at (rooms d).

(** INSERT INTO messages (room_id, username, text) VALUES (?, ?, ?):
    returns [lastInsertRowid], or nothing when the statement throws
    (SQLITE_FULL, once the table has held the largest rowid). *)
Definition saveMessage (room_id : Z) (username text : string)
    (now : instant) (d : db) : option (Z * db) :=
  if decide (max_rowid ≤ messages_seq d)%Z then None
  else
    let id := (messages_seq d + 1)%Z in
    Some (id, {| rooms := rooms d;
                 rooms_seq := rooms_seq d;
                 messages := messages d ++
                             [{| m_id := id; m_room_id := room_id;
                                 m_username := username; m_text := text;
                                 m_timestamp := CURRENT_TIMESTAMP now |}];
                 messages_seq := id |}).

(** FROM messages m JOIN rooms r ON m.room_id = r.id WHERE r.name = ? *)
Definition messages_join_rooms (name : string) (d : db)
    : list (message_row * room_row) :=
  filter (λ p, r_name p.2 = name)
    (m ← messages d;
     r ← filter (λ r, m_room_id m = r_id r) (rooms d);
     [(m, r)]).

(** SELECT m.*, r.name as room_name ... ORDER BY m.timestamp LIMIT 100 *)
Definition getMessagesByRoom (name : string) (d : db)
    : list (message_row * room_row) :=
  take 100 (order_by (λ p, m_timestamp p.1) (messages_join_rooms name d)).

(** SELECT COUNT( * ) as count ... *)
Definition getMessageCount (name : string) (d : db) : nat :=
  length (messages_join_rooms name d).

(** SELECT id FROM messages WHERE room_id = ? ORDER BY timestamp DESC
    LIMIT 100 *)
Definition newest_ids (room_id : Z) (d : db) : list Z :=
  m_id <$> take 100
    (order_by_desc m_timestamp (room_messages room_id d)).

(** DELETE FROM messages WHERE room_id = ? AND id NOT IN (...) *)
Definition deleteOldMessages (room_id room_id' : Z) (d : db) : db :=
  let keep := newest_ids room_id' d in
  {| rooms := rooms d;
     rooms_seq := rooms_seq d;
     messages :=
       filter (λ m, ¬ (m_room_id m = room_id ∧ m_id m ∉ keep)) (messages d);
     messages_seq := messages_seq d |}.
End with_engine.
End statements.

(** ** database.js: operations *)

Module database.
Section with_engine.
Context `{SqlEngine}.

(** try { return result.changes > 0 } catch { return false } *)
Definition createRoom (name : string) (now : instant) (d : db) : bool * db :=
  match statements.createRoom name now d with
  | Some (changes, d') => (bool_decide (0 < changes), d')
  | None => (false, d)
  end.

Definition getRoomByName (name : string) (d : db) : option room_row :=
  statements.getRoomByName name d.

Definition getAllRooms (d : db) : list room_row :=
  statements.getAllRooms d.

Definition roomExists (name : string) (d : db) : bool :=
  bool_decide (is_Some (statements.getRoomByName name d)).

(** [now] is the store's clock at the insert, [now'] the handler's clock
    when the result object is built.  An insert that throws is caught and
    answered with null. *)
Definition saveMessage (roomName username text : string)
    (now now' : instant) (d : db) : option (SavedMessage * db) :=
  match statements.getRoomByName roomName d with
  | None => None
  | Some room =>
      match statements.saveMessage (r_id room) username text now d with
      | None => None
      | Some (lastInsertRowid, d1) =>
          let d2 := statements.deleteOldMessages (r_id room) (r_id room) d1 in
          Some ({| sv_id := toString lastInsertRowid;
                   sv_room_id := r_id room;
                   sv_username := username;
                   sv_text := text;
                   sv_timestamp := toISOString now' |}, d2)
      end
  end.

Definition row_to_message (row : message_row * room_row) : Message :=
  {| msg_id := toString (m_id row.1);
     msg_text := m_text row.1;
     msg_username := m_username row.1;
     msg_room := r_name row.2;
     msg_timestamp := m_timestamp row.1 |}.

Definition getMessagesByRoom (roomName : string) (d : db) : list Message :=
  row_to_message <$> statements.getMessagesByRoom roomName d.

Definition getMessageCount (roomName : string) (d : db) : nat :=
  statements.getMessageCount roomName d.

(** defaultRooms.forEach(roomName => this.createRoom(roomName)); the i-th
    insert reads the clock as [tick i]. *)
Definition initDefaultRooms (defaultRooms : list string)
    (tick : nat → instant) (d : db) : db :=
  foldl (λ d' p, (createRoom p.2 (tick p.1) d').2) d
    (imap pair defaultRooms).
End with_engine.
End database.

(** ** Sequences of appends *)

(** One call of saveMessage on a fixed room: author, text and the two clock
    readings. *)
Record append := {
  a_username : string;
  a_text : string;
  a_now : instant;
  a_now' : instant
}.

Section appends.
Context `{SqlEngine}.

(** The appends of a list, one after the other; one that fails leaves the
    store as it was. *)
Definition append_all (roomName : string) (l : list append) (d : db) : db :=
  foldl (λ d' a,
           match database.saveMessage roomName (a_username a) (a_text a)
                   (a_now a) (a_now' a) d' with
           | Some (_, d'') => d''
           | None => d'
           end) d l.
End appends.

(** The store after the INSERT of an append, when it does not throw. *)
Definition after_insert (room_id : Z) (username text : string)
    (now : instant) (d : db) : db :=
  {| rooms := rooms d;
     rooms_seq := rooms_seq d;
     messages := messages d ++
                 [{| m_id := (messages_seq d + 1)%Z; m_room_id := room_id;
                     m_username := username; m_text := text;
                     m_timestamp := CURRENT_TIMESTAMP now |}];
     messages_seq := (messages_seq d + 1)%Z |}.

(** The row an append inserts when the table's counter stands at [seq], and
    the rows a list of appends inserts. *)
Definition appended_row (room_id seq : Z) (a : append) : message_row :=
  {| m_id := (seq + 1)%Z; m_room_id := room_id;
     m_username := a_username a; m_text := a_text a;
     m_timestamp := CURRENT_TIMESTAMP (a_now a) |}.

Fixpoint appended_rows (room_id seq : Z) (l : list append) : list message_row :=
  match l with
  | [] => []
  | a :: l' =>
      appended_row room_id seq a :: appended_rows room_id (seq + 1)%Z l'
  end.

(** ** server.js: state *)

(** [socket.data]: { username, currentRoom }. *)
Record Session := {
  username : string;
  currentRoom : option string
}.

(** - [store]: the database;
    - [roomUsers]: the presence map, room name to [Set] of socket ids;
    - [sockets]: the live connections, socket id to [socket.data];
    - [io_rooms]: the transport's rooms, filled by [socket.join] and
      emptied by [socket.leave] and by the transport when a socket closes.
      The transport puts every socket, as it connects, into a room named by
      the socket's own id; that room is one of these, and a room of the
      catalog with the same name is the same transport room. *)
Record server := {
  store : db;
  roomUsers : gmap string (gset string);
  sockets : gmap string Session;
  io_rooms : gmap string (gset string)
}.

(** ** server.js: outbound events *)

Record RoomInfo := {
  ri_name : string;
  ri_userCount : nat;
  ri_messageCount : nat
}.

Inductive payload :=
  | rooms_list (rooms : list RoomInfo)
  | message_history (history : list Message)
  | joined_room (room username : string)
  | user_joined (username message timestamp : string)
  | user_left (username message timestamp : string)
  | user_typing (username : string) (isTyping : bool)
  | new_message (messageData : Message)
  | room_created (room : RoomInfo)
  | room_updated (room : RoomInfo)
  | room_created_success (roomName : string)
  | error (message : string).

(** The four ways the handlers address an event. *)
Inductive audience :=
  | to_socket (id : string)                 (* socket.emit *)
  | to_room_except (room id : string)       (* socket.to(room).emit *)
  | to_room (room : string)                 (* io.to(room).emit *)
  | to_all.                                 (* io.emit *)

(** One emitted event: how it was addressed, who received it, what it was. *)
Record emission := {
  target : audience;
  recipients : gset string;
  event : payload
}.

(** [roomUsers.get(room)?.size || 0] and the set behind it. *)
Definition presence (s : server) (room : string) : gset string :=
  default ∅ (roomUsers s !! room).
Definition userCount (s : server) (room : string) : nat :=
  size (presence s room).

(** The sockets currently in a transport room. *)
Definition members (s : server) (room : string) : gset string :=
  default ∅ (io_rooms s !! room).

Definition socket_emit (id : string) (e : payload) : emission :=
  {| target := to_socket id; recipients := {[id]}; event := e |}.
(** [socket.to(room)] addresses the room and excepts the room named by the
    sender's id. *)
Definition socket_to (s : server) (room id : string) (e : payload) : emission :=
  {| target := to_room_except room id;
     recipients := members s room ∖ members s id;
     event := e |}.
Definition io_to (s : server) (room : string) (e : payload) : emission :=
  {| target := to_room room; recipients := members s room; event := e |}.
Definition io_emit (s : server) (e : payload) : emission :=
  {| target := to_all; recipients := dom (sockets s); event := e |}.

(** State updates the handlers perform. *)
Definition set_store (d : db) (s : server) : server :=
  {| store := d; roomUsers := roomUsers s;
     sockets := sockets s; io_rooms := io_rooms s |}.
Definition set_roomUsers (u : gmap string (gset string)) (s : server) : server :=
  {| store := store s; roomUsers := u;
     sockets := sockets s; io_rooms := io_rooms s |}.
Definition set_sockets (k : gmap string Session) (s : server) : server :=
  {| store := store s; roomUsers := roomUsers s;
     sockets := k; io_rooms := io_rooms s |}.
Definition set_io_rooms (r : gmap string (gset string)) (s : server) : server :=
  {| store := store s; roomUsers := roomUsers s;
     sockets := sockets s; io_rooms := r |}.

(** socket.join(room) / socket.leave(room) *)
Definition socket_join (id room : string) (s : server) : server :=
  set_io_rooms (<[room := {[id]} ∪ members s room]> (io_rooms s)) s.
Definition socket_leave (id room : string) (s : server) : server :=
  set_io_rooms (alter (λ ids, ids ∖ {[id]}) room (io_rooms s)) s.

(** The transport closing a socket: it leaves every room and is no longer
    among the connected sockets when the disconnect handler runs. *)
Definition socket_close (id : string) (s : server) : server :=
  set_sockets (delete id (sockets s))
    (set_io_rooms ((λ ids, ids ∖ {[id]}) <$> io_rooms s) s).

(** roomUsers.get(room)?.delete(id) *)
Definition roomUsers_delete (id room : string) (s : server) : server :=
  set_roomUsers (alter (λ ids, ids ∖ {[id]}) room (roomUsers s)) s.

(** roomUsers.set(room, new Set()) *)
Definition roomUsers_reset (room : string) (s : server) : server :=
  set_roomUsers (<[room := ∅]> (roomUsers s)) s.

(** if (!roomUsers.has(room)) roomUsers.set(room, new Set());
    roomUsers.get(room).add(id) *)
Definition roomUsers_add (id room : string) (s : server) : server :=
  set_roomUsers
    (match roomUsers s !! room with
     | None => <[room := {[id]}]> (roomUsers s)
     | Some ids => <[room := {[id]} ∪ ids]> (roomUsers s)
     end) s.

Definition set_currentRoom (id : string) (room : option string) (s : server)
    : server :=
  set_sockets
    (alter (λ data, {| username := username data; currentRoom := room |})
       id (sockets s)) s.

Arguments presence : simpl never.
Arguments members : simpl never.
Arguments userCount : simpl never.
Arguments socket_join : simpl never.
Arguments socket_leave : simpl never.
Arguments socket_close : simpl never.
Arguments roomUsers_delete : simpl never.
Arguments roomUsers_reset : simpl never.
Arguments roomUsers_add : simpl never.
Arguments set_currentRoom : simpl never.
Arguments set_store : simpl never.

Definition defaultRooms : list string :=
  ["General"; "Technology"; "Random"; "Support"].

(** ** server.js: handlers *)

Section handlers.
Context `{SqlEngine}.

(** { name, userCount, messageCount } of a room, as every catalog event
    builds it. *)
Definition room_info (s : server) (name : string) : RoomInfo :=
  {| ri_name := name;
     ri_userCount := userCount s name;
     ri_messageCount := database.getMessageCount name (store s) |}.

(** Process start: the presence map is empty, nobody is connected, and the
    default rooms are created in whatever database file was found. *)
Definition boot (d : db) (tick : nat → instant) : server :=
  {| store := database.initDefaultRooms defaultRooms tick d;
     roomUsers := ∅; sockets := ∅; io_rooms := ∅ |}.

(** io.on('connection'): [rnd] is Math.floor(Math.random() * 10000). *)
Definition connection (id : string) (rnd : nat) (s : server)
    : server * list emission :=
  let data := {| username := "Anonymous-" +:+ toString (Z.of_nat rnd);
                 currentRoom := None |} in
  let s1 := set_sockets (<[id := data]> (sockets s)) s in
  (s1, [socket_emit id
          (rooms_list
             (room_info s1 ∘ r_name <$> database.getAllRooms (store s1)))]).

(** The first block of the join_room handler: "Leave previous room if any". *)
Definition leave_previous (id roomName : string) (now : instant)
    (data : Session) (s : server) : server * list emission :=
  let previousRoom := currentRoom data in
  match previousRoom with
  | Some previous =>
      if truthy previousRoom && negb (String.eqb previous roomName) then
        let s' := roomUsers_delete id previous (socket_leave id previous s) in
        (s', [socket_to s' previous id
                (user_left (username data)
                   (username data +:+ " left the room")
                   (toISOString now));
              io_emit s' (room_updated (room_info s' previous))])
      else (s, [])
  | None => (s, [])
  end.

(** socket.on('join_room'): [now] and [now'] are the two clock readings,
    for the user_left and the user_joined notice. *)
Definition join_room (id roomName : string) (now now' : instant)
    (data : Session) (s : server) : server * list emission :=
  let '(s1, out1) := leave_previous id roomName now data s in
  match database.getRoomByName roomName (store s1) with
  | None => (s1, out1 ++ [socket_emit id (error "Room does not exist")])
  | Some _ =>
      let s2 := roomUsers_add id roomName
                  (set_currentRoom id (Some roomName)
                     (socket_join id roomName s1)) in
      (s2, out1 ++
           [socket_emit id
              (message_history
                 (database.getMessagesByRoom roomName (store s2)));
            socket_emit id (joined_room roomName (username data));
            socket_to s2 roomName id
              (user_joined (username data)
                 (username data +:+ " joined the room")
                 (toISOString now'));
            io_emit s2 (room_updated (room_info s2 roomName))])
  end.

(** socket.on('send_message'): [now] is the store's clock at the insert,
    [now'] the clock when saveMessage builds its result. *)
Definition send_message (id text : string) (now now' : instant)
    (data : Session) (s : server) : server * list emission :=
  match currentRoom data with
  | Some room =>
      if truthy (currentRoom data) then
        match database.saveMessage room (username data) text now now'
                (store s) with
        | None => (s, [socket_emit id (error "Failed to save message")])
        | Some (savedMessage, d) =>
            let s1 := set_store d s in
            let messageData :=
              {| msg_id := sv_id savedMessage;
                 msg_text := text;
                 msg_username := username data;
                 msg_room := room;
                 msg_timestamp := sv_timestamp savedMessage |} in
            (s1, [io_to s1 room (new_message messageData);
                  io_emit s1 (room_updated (room_info s1 room))])
        end
      else (s, [socket_emit id (error "You must join a room first")])
  | None => (s, [socket_emit id (error "You must join a room first")])
  end.

(** socket.on('typing') *)
Definition typing (id : string) (isTyping : bool) (data : Session)
    (s : server) : server * list emission :=
  match currentRoom data with
  | Some room =>
      if truthy (currentRoom data) then
        (s, [socket_to s room id (user_typing (username data) isTyping)])
      else (s, [])
  | None => (s, [])
  end.

(** socket.on('create_room'): [now] is the store's clock at the insert. *)
Definition create_room (id roomName : string) (now : instant) (s : server)
    : server * list emission :=
  if database.roomExists roomName (store s) then
    (s, [socket_emit id (error "Room already exists")])
  else
    let '(created, d) := database.createRoom roomName now (store s) in
    let s1 := set_store d s in
    if negb created then
      (s1, [socket_emit id (error "Failed to create room")])
    else
      let s2 := roomUsers_reset roomName s1 in
      (s2, [io_emit s2
              (room_created {| ri_name := roomName;
                               ri_userCount := 0;
                               ri_messageCount := 0 |});
            socket_emit id (room_created_success roomName)]).

(** socket.on('disconnect'): runs once the transport has closed the
    socket; [data] is the closed socket's [socket.data]. *)
Definition disconnect (id : string) (now : instant) (data : Session)
    (s : server) : server * list emission :=
  match currentRoom data with
  | Some room =>
      if truthy (currentRoom data) then
        let s1 := roomUsers_delete id room s in
        (s1, [socket_to s1 room id
                (user_left (username data)
                   (username data +:+ " left the room")
                   (toISOString now));
              io_emit s1 (room_updated (room_info s1 room))])
      else (s, [])
  | None => (s, [])
  end.

(** ** server.js: the read-only routes *)

(** [status_500] is what the routes' catch branches send. *)
Inductive response :=
  | json_rooms (rooms : list RoomInfo)
  | json_messages (messages : list Message)
  | status_500 (error : string).

(** app.get('/api/rooms') *)
Definition api_rooms (s : server) : response :=
  json_rooms (room_info s ∘ r_name <$> database.getAllRooms (store s)).

(** app.get('/api/rooms/:roomName/messages') *)
Definition api_room_messages (roomName : string) (s : server) : response :=
  json_messages (database.getMessagesByRoom roomName (store s)).

(** ** The event loop *)

(** What reaches the server, each with the readings its handler takes from
    outside. *)
Inductive input :=
  | Connect (id : string) (rnd : nat)
  | JoinRoom (id roomName : string) (now now' : instant)
  | SendMessage (id text : string) (now now' : instant)
  | Typing (id : string) (isTyping : bool)
  | CreateRoom (id roomName : string) (now : instant)
  | Disconnect (id : string) (now : instant).

Definition actor (i : input) : string :=
  match i with
  | Connect id _ | JoinRoom id _ _ _ | SendMessage id _ _ _
  | Typing id _ | CreateRoom id _ _ | Disconnect id _ => id
  end.

(** One inbound event, handled to completion.  The transport gives every
    connection an id of its own, and only a live socket has handlers: a
    connect under a live id, or any other event under an id that is not
    live, does not occur and is modelled as a step that does nothing.  The
    transport has put a socket into the room named by its id when the
    connection handler runs, and has taken it out of every room when the
    disconnect handler runs. *)
Definition handle (i : input) (s : server) : server * list emission :=
  match i, sockets s !! actor i with
  | Connect id rnd, None => connection id rnd (socket_join id id s)
  | Connect _ _, Some _ => (s, [])
  | _, None => (s, [])
  | JoinRoom id roomName now now', Some data =>
      join_room id roomName now now' data s
  | SendMessage id text now now', Some data =>
      send_message id text now now' data s
  | Typing id isTyping, Some data => typing id isTyping data s
  | CreateRoom id roomName now, Some _ => create_room id roomName now s
  | Disconnect id now, Some data =>
      disconnect id now data (socket_close id s)
  end.

(** The state after a sequence of inbound events, and everything emitted
    on the way. *)
Definition run (inputs : list input) (s : server) : server * list emission :=
  foldl (λ acc i, let '(s', out) := handle i acc.1 in (s', acc.2 ++ out))
    (s, []) inputs.
End handlers.

(** ** App.tsx: the client's state and its socket handlers *)

(** The state the socket handlers write: [rooms], [currentRoom],
    [messages], [username], [typingUsers] (a [Set], kept in insertion
    order), [showCreateRoomDialog] and [newRoomName].  A [Room] is what the
    server sends as one: { name, userCount, messageCount }.  Toasts are not
    part of the state. *)
Record client := {
  c_rooms : list RoomInfo;
  c_currentRoom : option string;
  c_messages : list Message;
  c_username : string;
  c_typingUsers : list string;
  c_showCreateRoomDialog : bool;
  c_newRoomName : string
}.

(** "Default rooms to show when offline" *)
Definition DEFAULT_ROOMS : list RoomInfo :=
  [{| ri_name := "General"; ri_userCount := 0; ri_messageCount := 0 |};
   {| ri_name := "Technology"; ri_userCount := 0; ri_messageCount := 0 |};
   {| ri_name := "Random"; ri_userCount := 0; ri_messageCount := 0 |};
   {| ri_name := "Support"; ri_userCount := 0; ri_messageCount := 0 |}].

(** The [useState] initial values. *)
Definition initial_client : client :=
  {| c_rooms := DEFAULT_ROOMS; c_currentRoom := None; c_messages := [];
     c_username := EmptyString; c_typingUsers := [];
     c_showCreateRoomDialog := false; c_newRoomName := EmptyString |}.

Definition setRooms (f : list RoomInfo → list RoomInfo) (c : client) : client :=
  {| c_rooms := f (c_rooms c); c_currentRoom := c_currentRoom c;
     c_messages := c_messages c; c_username := c_username c;
     c_typingUsers := c_typingUsers c;
     c_showCreateRoomDialog := c_showCreateRoomDialog c;
     c_newRoomName := c_newRoomName c |}.

Definition setMessages (f : list Message → list Message) (c : client)
    : client :=
  {| c_rooms := c_rooms c; c_currentRoom := c_currentRoom c;
     c_messages := f (c_messages c); c_username := c_username c;
     c_typingUsers := c_typingUsers c;
     c_showCreateRoomDialog := c_showCreateRoomDialog c;
     c_newRoomName := c_newRoomName c |}.

Definition setTypingUsers (f : list string → list string) (c : client)
    : client :=
  {| c_rooms := c_rooms c; c_currentRoom := c_currentRoom c;
     c_messages := c_messages c; c_username := c_username c;
     c_typingUsers := f (c_typingUsers c);
     c_showCreateRoomDialog := c_showCreateRoomDialog c;
     c_newRoomName := c_newRoomName c |}.

(** [Set.prototype.add] and [Set.prototype.delete]. *)
Definition Set_add (x : string) (l : list string) : list string :=
  if decide (x ∈ l) then l else l ++ [x].
Definition Set_delete (x : string) (l : list string) : list string :=
  filter (λ y, y ≠ x) l.

(** The [newSocket.on] handlers that write state, by event. *)
Definition on_event (e : payload) (c : client) : client :=
  match e with
  | rooms_list roomsList =>
      if decide (0 < length roomsList) then setRooms (λ _, roomsList) c
      else c
  | message_history history => setMessages (λ _, history) c
  | new_message message => setMessages (λ prev, prev ++ [message]) c
  | joined_room room username =>
      {| c_rooms := c_rooms c; c_currentRoom := Some room;
         c_messages := c_messages c; c_username := username;
         c_typingUsers := c_typingUsers c;
         c_showCreateRoomDialog := c_showCreateRoomDialog c;
         c_newRoomName := c_newRoomName c |}
  | user_typing username isTyping =>
      setTypingUsers
        (if isTyping then Set_add username else Set_delete username) c
  | room_created room => setRooms (λ prev, prev ++ [room]) c
  | room_updated updatedRoom =>
      setRooms
        (λ prev,
           (λ r, if decide (ri_name r = ri_name updatedRoom)
                 then updatedRoom else r) <$> prev) c
  | room_created_success _ =>
      {| c_rooms := c_rooms c; c_currentRoom := c_currentRoom c;
         c_messages := c_messages c; c_username := c_username c;
         c_typingUsers := c_typingUsers c;
         c_showCreateRoomDialog := false;
         c_newRoomName := EmptyString |}
  | user_joined _ _ _ | user_left _ _ _ | error _ => c
  end.

(** The client behind connection [id] handles, in order, the events of
    [out] that reach it. *)
Definition deliver (id : string) (out : list emission) (c : client) : client :=
  foldl (λ c e, if decide (id ∈ recipients e) then on_event (event e) c
                else c) c out.

(** ** Vocabulary of the statements about the store *)

(** The retention bound, of every room id at once. *)
Definition capped (d : db) : Prop :=
  ∀ room_id, length (room_messages room_id d) ≤ 100.

(** The two writes the server performs on the store. *)
Inductive write :=
  | write_room (name : string) (now : instant)
  | write_message (roomName username text : string) (now now' : instant).

Section writes.
Context `{SqlEngine}.

Definition apply_write (d : db) (w : write) : db :=
  match w with
  | write_room name now => (database.createRoom name now d).2
  | write_message roomName username text now now' =>
      match database.saveMessage roomName username text now now' d with
      | Some (_, d') => d'
      | None => d
      end
  end.
End writes.

(** Every message's room reference resolves to a row of the catalog. *)
Definition db_refs (d : db) : Prop :=
  ∀ m, m ∈ messages d → ∃ r, r ∈ rooms d ∧ r_id r = m_room_id m.

(** A store as the writes leave it: the schema's constraints and resolved
    references. *)
Definition store_ok (d : db) : Prop := db_wf d ∧ db_refs d.

(** ** Vocabulary of the statements about the coordinator *)

(** Sessions and presence sets mirror each other: a session's current room
    holds its connection, and a connection in a room's presence set has a
    session whose current room is that room. *)
Definition presence_consistent (s : server) : Prop :=
  (∀ id data room, sockets s !! id = Some data →
                   currentRoom data = Some room → id ∈ presence s room)
  ∧ (∀ id room, id ∈ presence s room →
                ∃ data, sockets s !! id = Some data
                        ∧ currentRoom data = Some room).

(** The transport's rooms stay near the presence map: a socket in a
    transport room is connected, and it is the socket the room is named
    after or it is in that room's presence set, the room being in the
    catalog. *)
Definition transport_inv (s : server) : Prop :=
  ∀ room id, id ∈ members s room →
    id ∈ dom (sockets s)
    ∧ (id = room
       ∨ (id ∈ presence s room
          ∧ database.roomExists room (store s) = true)).

(** What the handlers keep true as long as every join names a room of the
    catalog other than the empty string: sessions and presence sets mirror
    each other, no session's room is the empty string, and only catalog
    rooms have occupants. *)
Definition join_invariant (s : server) : Prop :=
  presence_consistent s
  ∧ (∀ id data, sockets s !! id = Some data → currentRoom data ≠ Some EmptyString)
  ∧ (∀ room id, id ∈ presence s room →
                database.roomExists room (store s) = true).

(** A join that names a room of the catalog other than the empty string;
    any other input. *)
Definition join_exists (i : input) (s : server) : Prop :=
  match i with
  | JoinRoom _ roomName _ _ =>
      roomName ≠ EmptyString ∧ database.roomExists roomName (store s) = true
  | _ => True
  end.

(** Who may receive what, for one event emitted while input [i] took the
    server from [s] to [s']: a notice of joining or leaving reaches only
    connected sockets that are in the room's presence set or that the room
    is named after, and a notice of leaving never the one who left. *)
Definition audience_rule (i : input) (s s' : server) (e : emission) : Prop :=
  match event e with
  | user_joined _ _ _ =>
      ∃ room now now',
        i = JoinRoom (actor i) room now now'
        ∧ target e = to_room_except room (actor i)
        ∧ recipients e ⊆ presence s' room ∪ {[room]}
        ∧ recipients e ⊆ dom (sockets s')
  | user_left _ _ _ =>
      ∃ data room,
        sockets s !! actor i = Some data
        ∧ currentRoom data = Some room
        ∧ target e = to_room_except room (actor i)
        ∧ recipients e ⊆ (presence s' room ∪ {[room]}) ∖ {[actor i]}
        ∧ recipients e ⊆ dom (sockets s')
  | room_updated _ | room_created _ =>
      target e = to_all ∧ recipients e = dom (sockets s')
  | _ => True
  end.

(** Who may receive the other events, for one emitted while input [i] was
    handled in state [s]: answers go to the caller alone; a message or a
    typing notice goes to the caller's room and reaches only connected
    sockets that are in the room's presence set or that the room is named
    after. *)
Definition delivery_rule (i : input) (s : server) (e : emission) : Prop :=
  match event e with
  | rooms_list _ | message_history _ | joined_room _ _
  | room_created_success _ | error _ =>
      target e = to_socket (actor i) ∧ recipients e = {[actor i]}
  | new_message m =>
      ∃ data room,
        sockets s !! actor i = Some data
        ∧ currentRoom data = Some room
        ∧ msg_room m = room ∧ msg_username m = username data
        ∧ target e = to_room room
        ∧ recipients e ⊆ presence s room ∪ {[room]}
        ∧ recipients e ⊆ dom (sockets s)
  | user_typing u _ =>
      ∃ data room,
        sockets s !! actor i = Some data
        ∧ currentRoom data = Some room
        ∧ u = username data
        ∧ target e = to_room_except room (actor i)
        ∧ recipients e ⊆ presence s room ∪ {[room]}
        ∧ recipients e ⊆ dom (sockets s)
  | _ => True
  end.

(** Every session's room is in the catalog. *)
Definition sessions_known (s : server) : Prop :=
  ∀ id data room, sockets s !! id = Some data →
                  currentRoom data = Some room →
                  database.roomExists room (store s) = true.

(** Transport rooms follow the presence map: a room's presence set is in
    its transport room; whoever else is in the transport room is the
    connected socket the room is named after; and a connected socket is in
    the room named after it unless the catalog has a room of that name. *)
Definition rooms_follow (s : server) : Prop :=
  (∀ room, presence s room ⊆ members s room)
  ∧ (∀ room id, id ∈ members s room →
                id ∈ presence s room ∨ (id = room ∧ id ∈ dom (sockets s)))
  ∧ (∀ id, id ∈ dom (sockets s) →
           id ∈ members s id ∨ database.roomExists id (store s) = true).

(** The state the handlers keep as long as every join names a room of the
    catalog other than the empty string: on top of [join_invariant], the
    transport rooms follow the presence map, and the store keeps its
    constraints. *)
Definition steady (s : server) : Prop :=
  join_invariant s ∧ rooms_follow s ∧ store_ok (store s).

(** No room of the catalog is named after a connected socket. *)
Definition no_id_rooms (s : server) : Prop :=
  map_Forall (λ id _, database.roomExists id (store s) = false) (sockets s).

(** The client's list of rooms shows each room of the catalog once, with
    the counts the server holds for it. *)
Definition sidebar_in_sync (s : server) (view : list RoomInfo) : Prop :=
  ∃ names, view = room_info s <$> names
           ∧ names ≡ₚ r_name <$> rooms (store s).

(** Events that do not write the client's list of rooms. *)
Definition quiet (e : payload) : Prop :=
  match e with
  | rooms_list _ | room_created _ | room_updated _ => False
  | _ => True
  end.

(** One event, as the client behind connection [id] sees it: a list of
    rooms in sync with state [a] is in sync with state [b] after it. *)
Definition tracks (id : string) (a b : server) (e : emission) : Prop :=
  ∀ c, sidebar_in_sync a (c_rooms c) →
       sidebar_in_sync b (c_rooms (deliver id [e] c)).

(** The client shows the room and, once in a room, the name its session
    holds on the server. *)
Definition follows (data : Session) (c : client) : Prop :=
  c_currentRoom c = currentRoom data
  ∧ (is_Some (currentRoom data) → c_username c = username data).

Section admissible.
Context `{SqlEngine}.

(** Inputs whose joins each name a room that is in the catalog, and not the
    empty string, when they arrive. *)
Fixpoint admissible (inputs : list input) (s : server) : Prop :=
  match inputs with
  | [] => True
  | i :: inputs' => join_exists i s ∧ admissible inputs' (handle i s).1
  end.
End admissible.

(** * An engine, and sample data *)

(** ** An engine the interface allows *)

Section sort_by.
Context {A : Type} (R : relation A) (le : A → A → bool).
Hypothesis le_sound : ∀ x y, le x y = true → R x y.
Hypothesis le_total : ∀ x y, le x y = false → R y x.
Hypothesis R_trans : Transitive R.

Lemma insert_by_perm x l : insert_by le x l ≡ₚ x :: l.
Proof.
  induction l as [|y l IH]; simpl; [done|].
  destruct (le x y); [done|].
  rewrite IH. apply Permutation_swap.
Qed.

Lemma sort_by_perm l : sort_by le l ≡ₚ l.
Proof.
  induction l as [|x l IH]; simpl; [done|].
  rewrite insert_by_perm. by f_equiv.
Qed.

Lemma insert_by_sorted x l :
  StronglySorted R l → StronglySorted R (insert_by le x l).
Proof.
  induction 1 as [|y l Hsorted IH Hall]; simpl.
  - repeat constructor.
  - destruct (le x y) eqn:Hxy.
    + constructor; [by constructor|].
      constructor; [by apply le_sound|].
      eapply Forall_impl; [exact Hall|].
      intros z Hyz. etrans; [apply le_sound, Hxy|done].
    + constructor; [done|].
      rewrite insert_by_perm. constructor; [by apply le_total|done].
Qed.

Lemma sort_by_sorted l : StronglySorted R (sort_by le l).
Proof.
  induction l as [|x l IH]; simpl; [constructor|].
  by apply insert_by_sorted.
Qed.
End sort_by.

Lemma key_asc_trans {A} (key : A → string) : Transitive (key_asc key).
Proof. intros x y z Hxy Hyz. unfold key_asc in *. by etrans. Qed.

Lemma key_desc_trans {A} (key : A → string) : Transitive (key_desc key).
Proof. intros x y z Hxy Hyz. unfold key_desc in *. by etrans. Qed.

Lemma leb_asc_sound {A} (key : A → string) x y :
  leb_asc key x y = true → key_asc key x y.
Proof. unfold leb_asc, key_asc, String.le. by intros ->. Qed.

Lemma leb_asc_total {A} (key : A → string) x y :
  leb_asc key x y = false → key_asc key y x.
Proof.
  unfold leb_asc, key_asc, String.le. intros Hxy.
  destruct (String.leb_total (key x) (key y)) as [Hle|Hle];
    [congruence|by rewrite Hle].
Qed.

Lemma leb_desc_sound {A} (key : A → string) x y :
  leb_desc key x y = true → key_desc key x y.
Proof. apply (leb_asc_sound key y x). Qed.

Lemma leb_desc_total {A} (key : A → string) x y :
  leb_desc key x y = false → key_desc key y x.
Proof. apply (leb_asc_total key y x). Qed.

Lemma string_of_uint_digits d :
  all_digits (NilEmpty.string_of_uint d) = true.
Proof. induction d; simpl; auto. Qed.

Lemma decimal_is_decimal z : (0 ≤ z)%Z → is_decimal (decimal z) = true.
Proof.
  intros Hz. unfold decimal, is_decimal. destruct z as [|p|p]; [done| |lia].
  simpl. unfold NilZero.string_of_uint.
  pose proof (Unsigned.to_uint_nonnil p) as Hnil.
  pose proof (string_of_uint_digits (Pos.to_uint p)) as Hdigits.
  destruct (Pos.to_uint p); try done; simpl in *; by rewrite Hdigits.
Qed.

(** Rows with equal keys stay in scan order; an ignored insert draws a
    rowid; a Number prints as the numeral of its value. *)
Program Definition scan_order_engine : SqlEngine := {|
  order_by A key l := sort_by (leb_asc key) l;
  order_by_desc A key l := sort_by (leb_desc key) l;
  ignored_insert_seq seq := (seq + 1)%Z;
  number_toString := decimal
|}.
Next Obligation. intros. apply sort_by_perm. Qed.
Next Obligation.
  intros. apply sort_by_sorted;
    auto using leb_asc_sound, leb_asc_total, key_asc_trans.
Qed.
Next Obligation. intros. apply sort_by_perm. Qed.
Next Obligation.
  intros. apply sort_by_sorted;
    auto using leb_desc_sound, leb_desc_total, key_desc_trans.
Qed.
Next Obligation. intros. simpl. lia. Qed.
Next Obligation. intros. simpl. lia. Qed.
Next Obligation. done. Qed.
Next Obligation. intros z [Hz _]. by apply decimal_is_decimal. Qed.

(** ** Sample data for the worked instances *)

Definition morning : instant :=
  {| year := 2026; month := 3; day := 14;
     hour := 9; minute := 26; second := 53; millis := 589 |}.

Definition later (n : nat) : instant :=
  {| year := 2026; month := 3; day := 14;
     hour := 10; minute := n / 60; second := n mod 60; millis := 7 |}.

(** The store of a fresh process: the four default rooms, no messages. *)
Definition fresh_db : db :=
  @database.initDefaultRooms scan_order_engine defaultRooms (λ _, morning)
    empty_db.

(** [n] numbered appends by one author, the i-th at clock reading [now i]. *)
Definition numbered (now : nat → instant) (n : nat) : list append :=
  (λ i, {| a_username := "Anonymous-7"; a_text := decimal (Z.of_nat i);
           a_now := now i; a_now' := now i |}) <$> seq 1 n.

Definition general_row : room_row :=
  {| r_id := 1; r_name := "General";
     r_created_at := CURRENT_TIMESTAMP morning |}.

#[global] Instance key_lt_dec {A} (key : A → string) : RelDecision (key_lt key).
Proof. intros x y. unfold key_lt. apply _. Defined.

Ltac by_evaluation := apply (bool_decide_unpack _); vm_compute; exact I.

(** A fresh process; then one client connected and in "General". *)
Definition fresh_server : server :=
  @boot scan_order_engine empty_db (λ _, morning).

Definition in_general : server :=
  (@run scan_order_engine
     [Connect "a" 7; JoinRoom "a" "General" morning morning] fresh_server).1.

(** Two clients connected and in "General". *)
Definition two_in_general : server :=
  (@run scan_order_engine
     [Connect "a" 7; JoinRoom "a" "General" morning morning;
      Connect "b" 8; JoinRoom "b" "General" morning morning]
     fresh_server).1.

(** A room of the catalog named after a connected socket: the client
    behind socket "b" has created a room named "b" and is in no room; the
    client behind socket "a" is in "General". *)
Definition named_after_b : server :=
  (@run scan_order_engine
     [Connect "a" 7; Connect "b" 8; CreateRoom "b" "b" morning;
      JoinRoom "a" "General" morning morning]
     fresh_server).1.

Lemma fresh_db_wf : db_wf fresh_db.
Proof. split; by_evaluation. Qed.

(** * Properties *)

(** ** Lists of rows *)

Lemma filter_nil_iff {A} (P : A → Prop) `{∀ x, Decision (P x)} (l : list A) :
  filter P l = [] ↔ ∀ x, x ∈ l → ¬ P x.
Proof.
  induction l as [|y l IH]; simpl.
  - split; [intros _ x Hx; by apply elem_of_nil in Hx|done].
  - rewrite filter_cons. destruct (decide (P y)) as [Hy|Hy].
    + split; [done|]. intros Hall. destruct (Hall y); [left|done].
    + rewrite IH. split.
      * intros Hall x [->|Hx]%elem_of_cons; auto.
      * intros Hall x Hx. apply Hall. by right.
Qed.

Lemma bind_singleton_fmap {A B} (g : A → B) (l : list A) :
  l ≫= (λ x, [g x]) = g <$> l.
Proof. induction l as [|x l IH]; [done|]. by rewrite bind_cons, IH. Qed.

Lemma filter_fmap {A B} (P : B → Prop) `{∀ y, Decision (P y)} (g : A → B)
    (l : list A) :
  filter P (g <$> l) = g <$> filter (λ x, P (g x)) l.
Proof.
  induction l as [|x l IH]; [done|].
  rewrite fmap_cons, !filter_cons, IH. by case_decide.
Qed.

(** A unique key selects one row. *)
Lemma filter_unique_key {A K} `{EqDecision K} (f : A → K) (l : list A) x :
  NoDup (f <$> l) → x ∈ l → filter (λ y, f y = f x) l = [x].
Proof.
  induction l as [|y l IH]; intros Hnd Hx.
  - by apply elem_of_nil in Hx.
  - rewrite fmap_cons in Hnd. apply NoDup_cons in Hnd as [Hy Hnd].
    rewrite filter_cons. apply elem_of_cons in Hx as [->|Hx].
    + rewrite decide_True by done. f_equal.
      apply filter_nil_iff. intros z Hz Heq. apply Hy.
      rewrite <- Heq. by apply list_elem_of_fmap_2.
    + rewrite decide_False; [by apply IH|].
      intros Heq. apply Hy. rewrite Heq. by apply list_elem_of_fmap_2.
Qed.

(** Rows picked by key from a table with unique keys are no more than the
    keys asked for. *)
Lemma filter_keys_length {A K} `{EqDecision K} (f : A → K) (l : list A)
    (ks : list K) :
  NoDup (f <$> l) → length (filter (λ x, f x ∈ ks) l) ≤ length ks.
Proof.
  intros Hnd.
  rewrite <- (length_fmap f (filter _ l)).
  apply submseteq_length, NoDup_submseteq.
  - induction l as [|y l IH]; [constructor|].
    rewrite fmap_cons in Hnd. apply NoDup_cons in Hnd as [Hy Hnd].
    rewrite filter_cons. destruct (decide (f y ∈ ks)); [|by apply IH].
    rewrite fmap_cons. apply NoDup_cons. split; [|by apply IH].
    intros (z & Hz & Hin)%list_elem_of_fmap.
    apply list_elem_of_filter in Hin as [_ Hin].
    apply Hy. rewrite Hz. by apply list_elem_of_fmap_2.
  - intros k (z & -> & Hin)%list_elem_of_fmap.
    by apply list_elem_of_filter in Hin as [? _].
Qed.

(** ** The store *)

Section store.
Context `{SqlEngine}.

Lemma getRoomByName_Some name d r :
  statements.getRoomByName name d = Some r → r ∈ rooms d ∧ r_name r = name.
Proof.
  unfold statements.getRoomByName. intros Hhd.
  assert (r ∈ filter (λ r, r_name r = name) (rooms d)) as Hin.
  { destruct (filter _ (rooms d)); simplify_eq/=. by left. }
  apply list_elem_of_filter in Hin. tauto.
Qed.

Lemma getRoomByName_None name d :
  statements.getRoomByName name d = None ↔ name ∉ r_name <$> rooms d.
Proof.
  unfold statements.getRoomByName. rewrite head_None, filter_nil_iff. split.
  - intros Hall (r & -> & Hr)%list_elem_of_fmap. by apply (Hall r).
  - intros Hnot r Hr <-. apply Hnot. by apply list_elem_of_fmap_2.
Qed.

Lemma getRoomByName_unique name d r :
  db_wf d → r ∈ rooms d → r_name r = name →
  filter (λ r', r_name r' = name) (rooms d) = [r].
Proof.
  intros Hwf Hr <-. apply (filter_unique_key r_name); [apply Hwf|done].
Qed.

(** The join with a name fixed: the named room paired with each of its
    messages, and nothing when no room has the name. *)
Lemma messages_join_rooms_None name d :
  statements.getRoomByName name d = None →
  statements.messages_join_rooms name d = [].
Proof.
  intros Hnone%getRoomByName_None. unfold statements.messages_join_rooms.
  apply filter_nil_iff. intros [m r] Hin Hname. simpl in Hname.
  apply list_elem_of_bind in Hin as (m' & Hin & _).
  apply list_elem_of_bind in Hin as (r' & Hin & Hr').
  apply list_elem_of_singleton in Hin. simplify_eq.
  apply list_elem_of_filter in Hr' as [_ Hr'].
  apply Hnone. by apply list_elem_of_fmap_2.
Qed.

Lemma messages_join_rooms_Some name d r :
  db_wf d → statements.getRoomByName name d = Some r →
  statements.messages_join_rooms name d
  = (λ m, (m, r)) <$> room_messages (r_id r) d.
Proof.
  intros Hwf [Hr Hname]%getRoomByName_Some.
  unfold statements.messages_join_rooms, room_messages.
  induction (messages d) as [|m ms IH]; [done|].
  rewrite bind_cons, filter_app, IH, filter_cons. clear IH.
  rewrite bind_singleton_fmap, filter_fmap.
  rewrite list_filter_filter.
  rewrite (list_filter_iff _ (λ r', m_room_id m = r_id r' ∧ r_name r' = name))
    by (intros r'; simpl; tauto).
  rewrite <- (list_filter_filter (λ r', m_room_id m = r_id r')
                (λ r', r_name r' = name)).
  rewrite (getRoomByName_unique name d r) by done.
  rewrite filter_cons, filter_nil.
  by case_decide.
Qed.

Lemma getMessageCount_room name d r :
  db_wf d → statements.getRoomByName name d = Some r →
  database.getMessageCount name d = length (room_messages (r_id r) d).
Proof.
  intros Hwf Hr. unfold database.getMessageCount, statements.getMessageCount.
  by rewrite (messages_join_rooms_Some name d r), length_fmap.
Qed.
End store.

(** ** The schema's constraints are kept by every write *)

Section store_wf.
Context `{SqlEngine}.

Lemma empty_db_wf : db_wf empty_db.
Proof. by split; simpl; try constructor. Qed.

Lemma createRoom_wf name now d changes d' :
  db_wf d → statements.createRoom name now d = Some (changes, d') → db_wf d'.
Proof.
  intros [Hids Hnames Hseq Hmids Hmseq Hnn]. unfold statements.createRoom.
  case_decide as Hfull; [done|].
  case_decide as Hin; intros [= <- <-].
  { split; simpl; try done. eapply Forall_impl; [done|]. simpl.
    intros r. pose proof (ignored_insert_seq_le (rooms_seq d)). lia. }
  split; simpl; try done.
  - rewrite fmap_app. apply NoDup_app.
    split_and!; [done| |apply NoDup_singleton].
    intros id (r & -> & Hr)%list_elem_of_fmap [=]%list_elem_of_singleton.
    rewrite Forall_forall in Hseq. specialize (Hseq r Hr). lia.
  - rewrite fmap_app. apply NoDup_app.
    split_and!; [done| |apply NoDup_singleton].
    by intros n Hn ->%list_elem_of_singleton.
  - apply Forall_app. split.
    + eapply Forall_impl; [done|]. simpl. lia.
    + by repeat constructor.
Qed.

Lemma stmt_saveMessage_Some room_id username text now d :
  (messages_seq d < max_rowid)%Z →
  statements.saveMessage room_id username text now d
  = Some ((messages_seq d + 1)%Z, after_insert room_id username text now d).
Proof.
  intros Hseq. unfold statements.saveMessage. by rewrite decide_False by lia.
Qed.

Lemma stmt_saveMessage_inv room_id username text now d id d1 :
  statements.saveMessage room_id username text now d = Some (id, d1) →
  (messages_seq d < max_rowid)%Z
  ∧ id = (messages_seq d + 1)%Z
  ∧ d1 = after_insert room_id username text now d.
Proof.
  unfold statements.saveMessage. case_decide; [done|].
  intros [= <- <-]. split_and!; [lia|done..].
Qed.

Lemma stmt_saveMessage_wf room_id username text now d :
  db_wf d → db_wf (after_insert room_id username text now d).
Proof.
  intros [Hids Hnames Hseq Hmids Hmseq Hnn]. split; simpl; try done.
  - rewrite fmap_app. apply NoDup_app.
    split_and!; [done| |apply NoDup_singleton].
    intros id (m & -> & Hm)%list_elem_of_fmap [=]%list_elem_of_singleton.
    rewrite Forall_forall in Hmseq. specialize (Hmseq m Hm). lia.
  - apply Forall_app. split.
    + eapply Forall_impl; [done|]. simpl. lia.
    + constructor; [simpl; lia|constructor].
  - lia.
Qed.

Lemma deleteOldMessages_wf room_id room_id' d :
  db_wf d → db_wf (statements.deleteOldMessages room_id room_id' d).
Proof.
  intros [Hids Hnames Hseq Hmids Hmseq Hnn]. split; simpl; try done.
  - eapply sublist_NoDup; [done|]. apply fmap_sublist, sublist_filter.
  - rewrite !Forall_forall in *. intros m [_ Hm]%list_elem_of_filter. auto.
Qed.

(** A successful append: the room was found, the counter was not
    exhausted, and the store is the one after the INSERT and the DELETE. *)
Lemma saveMessage_inv roomName username text now now' d saved d' :
  database.saveMessage roomName username text now now' d = Some (saved, d') →
  ∃ room,
    statements.getRoomByName roomName d = Some room
    ∧ (messages_seq d < max_rowid)%Z
    ∧ saved = {| sv_id := toString (messages_seq d + 1);
                 sv_room_id := r_id room;
                 sv_username := username;
                 sv_text := text;
                 sv_timestamp := toISOString now' |}
    ∧ d' = statements.deleteOldMessages (r_id room) (r_id room)
             (after_insert (r_id room) username text now d).
Proof.
  unfold database.saveMessage.
  destruct (statements.getRoomByName roomName d) as [room|]; [|done].
  destruct (statements.saveMessage (r_id room) username text now d)
    as [[id d1]|] eqn:Hinsert; [|done].
  apply stmt_saveMessage_inv in Hinsert as (Hseq & -> & ->).
  intros [= <- <-]. by exists room.
Qed.

Lemma saveMessage_Some roomName username text now now' d room :
  statements.getRoomByName roomName d = Some room →
  (messages_seq d < max_rowid)%Z →
  database.saveMessage roomName username text now now' d
  = Some ({| sv_id := toString (messages_seq d + 1);
             sv_room_id := r_id room;
             sv_username := username;
             sv_text := text;
             sv_timestamp := toISOString now' |},
          statements.deleteOldMessages (r_id room) (r_id room)
            (after_insert (r_id room) username text now d)).
Proof.
  intros Hroom Hseq. unfold database.saveMessage.
  by rewrite Hroom, stmt_saveMessage_Some.
Qed.

Lemma saveMessage_wf roomName username text now now' d saved d' :
  db_wf d →
  database.saveMessage roomName username text now now' d = Some (saved, d') →
  db_wf d'.
Proof.
  intros Hwf (room & Hroom & Hseq & _ & ->)%saveMessage_inv.
  by apply deleteOldMessages_wf, stmt_saveMessage_wf.
Qed.

Lemma database_createRoom_wf name now d :
  db_wf d → db_wf (database.createRoom name now d).2.
Proof.
  intros Hwf. unfold database.createRoom.
  pose proof (createRoom_wf name now d) as Hwf'.
  destruct (statements.createRoom name now d) as [[changes d']|]; [|done].
  by eapply Hwf'.
Qed.

(** What eviction leaves of the room it is run for, and of the others. *)
Lemma room_messages_deleteOldMessages room_id d :
  room_messages room_id (statements.deleteOldMessages room_id room_id d)
  = filter (λ m, m_id m ∈ statements.newest_ids room_id d)
      (room_messages room_id d).
Proof.
  unfold room_messages, statements.deleteOldMessages. simpl.
  rewrite !list_filter_filter. apply list_filter_iff. intros m. split.
  - intros [Hroom Hkeep]. split; [|done].
    destruct (decide (m_id m ∈ statements.newest_ids room_id d)); [done|].
    by destruct Hkeep.
  - intros [Hin Hroom]. split; [done|]. by intros [_ ?].
Qed.

Lemma room_messages_deleteOldMessages_ne room_id room_id' d :
  room_id' ≠ room_id →
  room_messages room_id' (statements.deleteOldMessages room_id room_id d)
  = room_messages room_id' d.
Proof.
  intros Hne. unfold room_messages, statements.deleteOldMessages. simpl.
  rewrite list_filter_filter. apply list_filter_iff. intros m. split.
  - by intros [? _].
  - intros Hroom. split; [done|]. intros [? _]. congruence.
Qed.

Lemma newest_ids_length room_id d :
  length (statements.newest_ids room_id d) ≤ 100.
Proof.
  unfold statements.newest_ids. rewrite length_fmap, length_take. lia.
Qed.

Lemma room_messages_NoDup room_id d :
  db_wf d → NoDup (m_id <$> room_messages room_id d).
Proof.
  intros Hwf. eapply sublist_NoDup; [exact (wf_msg_ids d Hwf)|].
  apply fmap_sublist, sublist_filter.
Qed.

Lemma deleteOldMessages_bound room_id d :
  db_wf d →
  length (room_messages room_id
            (statements.deleteOldMessages room_id room_id d)) ≤ 100.
Proof.
  intros Hwf. rewrite room_messages_deleteOldMessages.
  etrans; [|apply (newest_ids_length room_id d)].
  by apply (filter_keys_length m_id), room_messages_NoDup.
Qed.

Lemma saveMessage_rooms roomName username text now now' d saved d' :
  database.saveMessage roomName username text now now' d = Some (saved, d') →
  rooms d' = rooms d ∧ rooms_seq d' = rooms_seq d.
Proof.
  by intros (room & _ & _ & _ & ->)%saveMessage_inv.
Qed.

Lemma getRoomByName_rooms name d d' :
  rooms d' = rooms d →
  statements.getRoomByName name d' = statements.getRoomByName name d.
Proof. unfold statements.getRoomByName. by intros ->. Qed.
End store_wf.

(** ** Retention cap *)

Section retention.
Context `{SqlEngine}.

(** C3. After every append that succeeds, the room appended to holds at most
    100 persisted messages: [count(room)] is at most 100. *)
Theorem saveMessage_count_bound roomName username text now now' d saved d' :
  db_wf d →
  database.saveMessage roomName username text now now' d = Some (saved, d') →
  database.getMessageCount roomName d' ≤ 100.
Proof.
  intros Hwf Hsave.
  pose proof (saveMessage_wf _ _ _ _ _ _ _ _ Hwf Hsave) as Hwf'.
  pose proof (saveMessage_rooms _ _ _ _ _ _ _ _ Hsave) as [Hrooms _].
  apply saveMessage_inv in Hsave as (room & Hroom & _ & _ & ->).
  rewrite (getMessageCount_room roomName _ room); [|done|].
  - by apply deleteOldMessages_bound, stmt_saveMessage_wf.
  - by rewrite <- Hroom.
Qed.

Lemma saveMessage_capped roomName username text now now' d saved d' :
  db_wf d → capped d →
  database.saveMessage roomName username text now now' d = Some (saved, d') →
  capped d'.
Proof.
  intros Hwf Hcap (room & _ & _ & _ & ->)%saveMessage_inv room_id.
  destruct (decide (room_id = r_id room)) as [->|Hne].
  - by apply deleteOldMessages_bound, stmt_saveMessage_wf.
  - rewrite room_messages_deleteOldMessages_ne by done.
    unfold room_messages. simpl. rewrite filter_app, filter_cons. simpl.
    rewrite decide_False by done. rewrite filter_nil, app_nil_r. apply Hcap.
Qed.

Lemma createRoom_messages name now d :
  messages (database.createRoom name now d).2 = messages d.
Proof.
  unfold database.createRoom, statements.createRoom. by repeat case_decide.
Qed.

Lemma getMessageCount_capped name d :
  db_wf d → capped d → database.getMessageCount name d ≤ 100.
Proof.
  intros Hwf Hcap.
  destruct (statements.getRoomByName name d) as [room|] eqn:Hroom.
  - rewrite (getMessageCount_room name d room) by done. apply Hcap.
  - unfold database.getMessageCount, statements.getMessageCount.
    rewrite messages_join_rooms_None by done. simpl. lia.
Qed.

Lemma apply_write_kept d w :
  db_wf d ∧ capped d → db_wf (apply_write d w) ∧ capped (apply_write d w).
Proof.
  intros [Hwf Hcap]. destruct w as [name now|roomName author text now now'];
    simpl.
  - split; [by apply database_createRoom_wf|].
    intros room_id. unfold room_messages. rewrite createRoom_messages.
    apply Hcap.
  - destruct (database.saveMessage _ _ _ _ _ _) as [[saved d']|] eqn:Hsave;
      [|done].
    split; [by eapply saveMessage_wf|by eapply saveMessage_capped].
Qed.

(** X25. Starting from an empty store, whatever rooms are created and
    messages appended, in whatever order, no room's count exceeds 100. *)
Lemma count_never_exceeds_cap writes name :
  database.getMessageCount name (foldl apply_write empty_db writes) ≤ 100.
Proof.
  cut (db_wf (foldl apply_write empty_db writes)
       ∧ capped (foldl apply_write empty_db writes)).
  { intros [? ?]. by apply getMessageCount_capped. }
  induction writes as [|w writes IH] using rev_ind.
  - split; [apply empty_db_wf|]. intros room_id. simpl. lia.
  - rewrite foldl_app. simpl. by apply apply_write_kept.
Qed.
End retention.

(** ** Room catalog *)

Section catalog.
Context `{SqlEngine}.

(** C6. Creating a room whose name is not yet in the catalog, in a table
    whose rowid counter is not exhausted, returns true; a second call with
    the same name returns false and leaves both tables as they were; the
    catalog has gained one row, the only one with that name. *)
Theorem createRoom_twice name now now' d :
  database.roomExists name d = false →
  (rooms_seq d < max_rowid)%Z →
  ∃ row d1 d2,
    database.createRoom name now d = (true, d1)
    ∧ database.createRoom name now' d1 = (false, d2)
    ∧ rooms d1 = rooms d ++ [row]
    ∧ rooms d2 = rooms d1 ∧ messages d2 = messages d1
    ∧ filter (λ r, r_name r = name) (rooms d2) = [row].
Proof.
  intros Hex Hseq. apply bool_decide_eq_false in Hex.
  assert (statements.getRoomByName name d = None) as Hnone.
  { destruct (statements.getRoomByName name d); [|done]. by destruct Hex. }
  pose proof Hnone as Hnotin%getRoomByName_None.
  set (row := {| r_id := (rooms_seq d + 1)%Z; r_name := name;
                 r_created_at := CURRENT_TIMESTAMP now |}).
  set (d1 := {| rooms := rooms d ++ [row]; rooms_seq := r_id row;
                messages := messages d; messages_seq := messages_seq d |}).
  assert (database.createRoom name now d = (true, d1)) as Hfirst.
  { unfold database.createRoom, statements.createRoom.
    rewrite decide_False by lia. by rewrite decide_False. }
  assert (filter (λ r, r_name r = name) (rooms d1) = [row]) as Hone.
  { simpl. rewrite filter_app, filter_cons, decide_True by done.
    replace (filter _ (rooms d)) with (@nil room_row); [done|].
    symmetry. apply filter_nil_iff. intros r Hr Hname. apply Hnotin.
    rewrite <- Hname. by apply list_elem_of_fmap_2. }
  assert (name ∈ r_name <$> rooms d1) as Hin.
  { simpl. rewrite fmap_app. set_solver. }
  exists row, d1. unfold database.createRoom at 2, statements.createRoom.
  destruct (decide (max_rowid ≤ rooms_seq d1)%Z).
  - exists d1. by split_and!.
  - rewrite decide_True by done. eexists. by split_and!.
Qed.

(** A name already in the catalog: the call returns false and no row is
    written. *)
Lemma createRoom_existing name now d :
  database.roomExists name d = true →
  ∃ d', database.createRoom name now d = (false, d')
        ∧ rooms d' = rooms d ∧ messages d' = messages d.
Proof.
  intros [r Hr]%bool_decide_eq_true.
  unfold database.createRoom, statements.createRoom.
  case_decide; [by eexists|].
  rewrite decide_True; [by eexists|].
  apply getRoomByName_Some in Hr as [Hr <-]. by apply list_elem_of_fmap_2.
Qed.
End catalog.

Lemma createRoom_twice_witness :
  database.roomExists "Launch" fresh_db = false
  ∧ (rooms_seq fresh_db < max_rowid)%Z
  ∧ ∃ row d1 d2,
      @database.createRoom scan_order_engine "Launch" morning fresh_db
      = (true, d1)
      ∧ @database.createRoom scan_order_engine "Launch" (later 1) d1
        = (false, d2)
      ∧ rooms d1 = rooms fresh_db ++ [row]
      ∧ rooms d2 = rooms d1 ∧ messages d2 = messages d1
      ∧ filter (λ r, r_name r = "Launch") (rooms d2) = [row].
Proof.
  split; [reflexivity|]. split; [reflexivity|].
  apply (@createRoom_twice scan_order_engine "Launch" morning (later 1)
           fresh_db).
  - reflexivity.
  - reflexivity.
Defined.

(** ** History reads *)

Section history.
Context `{SqlEngine}.

Lemma order_by_nil {A} (key : A → string) : order_by key [] = [].
Proof. apply Permutation_nil_r, order_by_perm. Qed.

Lemma order_by_desc_nil {A} (key : A → string) : order_by_desc key [] = [].
Proof. apply Permutation_nil_r, order_by_desc_perm. Qed.

Lemma getMessagesByRoom_no_rows name d :
  database.getMessageCount name d = 0 → database.getMessagesByRoom name d = [].
Proof.
  unfold database.getMessageCount, statements.getMessageCount.
  intros Hnil%nil_length_inv.
  unfold database.getMessagesByRoom, statements.getMessagesByRoom.
  by rewrite Hnil, order_by_nil.
Qed.

(** C8. The history of a name that is not in the catalog is the empty list,
    from the store operation and from the read-only route alike; a room that
    exists and has no messages reads the same. *)
Theorem getMessagesByRoom_absent name d :
  database.roomExists name d = false →
  database.getMessagesByRoom name d = []
  ∧ (∀ s, store s = d → api_room_messages name s = json_messages [])
  ∧ (∀ name', database.roomExists name' d = true →
              database.getMessageCount name' d = 0 →
              database.getMessagesByRoom name' d
              = database.getMessagesByRoom name d).
Proof.
  intros Hex. apply bool_decide_eq_false in Hex.
  assert (statements.getRoomByName name d = None) as Hnone.
  { destruct (statements.getRoomByName name d); [|done]. by destruct Hex. }
  assert (database.getMessagesByRoom name d = []) as Hnil.
  { apply getMessagesByRoom_no_rows.
    unfold database.getMessageCount, statements.getMessageCount.
    by rewrite messages_join_rooms_None. }
  split_and!; [done| |].
  - intros s <-. unfold api_room_messages. by rewrite Hnil.
  - intros name' _ Hcount. by rewrite Hnil, getMessagesByRoom_no_rows.
Qed.
End history.

Lemma getMessagesByRoom_absent_witness :
  database.roomExists "Nowhere" fresh_db = false
  ∧ @database.getMessagesByRoom scan_order_engine "Nowhere" fresh_db = []
  ∧ @database.getMessagesByRoom scan_order_engine "General" fresh_db = [].
Proof.
  split; [reflexivity|].
  destruct (@getMessagesByRoom_absent scan_order_engine "Nowhere" fresh_db)
    as (Hnil & _ & Hsame); [reflexivity|].
  split; [exact Hnil|].
  rewrite <- Hnil. apply Hsame; reflexivity.
Defined.

(** ** Rows with distinct keys have one sorted order *)

Lemma key_lt_not_ge {A} (key : A → string) x y :
  key_lt key x y → ¬ key_asc key y x.
Proof.
  unfold key_lt, key_asc, String.le, String.ltb, String.leb.
  rewrite (String.compare_antisym (key x) (key y)).
  destruct (String.compare (key y) (key x)); simpl; tauto.
Qed.

Lemma key_lt_le {A} (key : A → string) x y :
  key_lt key x y → key_asc key x y.
Proof.
  unfold key_lt, key_asc, String.le, String.ltb, String.leb.
  destruct (String.compare (key x) (key y)); simpl; tauto.
Qed.

Lemma sorted_asc_unique {A} (key : A → string) (l l' : list A) :
  StronglySorted (key_lt key) l → l' ≡ₚ l →
  StronglySorted (key_asc key) l' → l' = l.
Proof.
  revert l'. induction l as [|x l IH]; intros l' Hl Hperm Hl'.
  - by apply Permutation_nil_r.
  - destruct l' as [|y l'].
    { by apply Permutation_nil_cons in Hperm. }
    apply StronglySorted_inv in Hl as [Hl Hx].
    apply StronglySorted_inv in Hl' as [Hl' Hy].
    assert (y = x) as ->.
    { assert (y ∈ x :: l) as [->|Hyl]%elem_of_cons
        by (rewrite <- Hperm; left); [done|].
      assert (x ∈ y :: l') as [->|Hxl']%elem_of_cons
        by (rewrite Hperm; left); [done|].
      rewrite Forall_forall in Hx, Hy.
      destruct (key_lt_not_ge key x y); auto. }
    f_equal. apply IH; [done| |done]. by eapply Permutation_cons_inv.
Qed.

Lemma StronglySorted_reverse {A} (R : relation A) (l : list A) :
  StronglySorted R l → StronglySorted (flip R) (reverse l).
Proof.
  induction 1 as [|x l Hl IH Hx]; [constructor|].
  rewrite reverse_cons. apply StronglySorted_app_2; [|done|repeat constructor].
  intros y z Hy ->%list_elem_of_singleton. rewrite elem_of_reverse in Hy.
  rewrite Forall_forall in Hx. unfold flip. by apply Hx.
Qed.

Lemma sorted_desc_unique {A} (key : A → string) (l l' : list A) :
  StronglySorted (key_lt key) l → l' ≡ₚ l →
  StronglySorted (key_desc key) l' → l' = reverse l.
Proof.
  intros Hl Hperm Hl'. rewrite <- (reverse_involutive l'). f_equal.
  apply (sorted_asc_unique key); [done|by rewrite reverse_Permutation|].
  by apply (StronglySorted_reverse (key_desc key)).
Qed.

Lemma StronglySorted_drop {A} (R : relation A) (l : list A) n :
  StronglySorted R l → StronglySorted R (drop n l).
Proof.
  intros Hl. rewrite <- (take_drop n l) in Hl.
  by apply StronglySorted_app_1_r in Hl.
Qed.

Lemma filter_all {A} (P : A → Prop) `{∀ x, Decision (P x)} (l : list A) :
  (∀ x, x ∈ l → P x) → filter P l = l.
Proof.
  induction l as [|x l IH]; intros Hall; [done|].
  rewrite filter_cons, decide_True by (apply Hall; left).
  f_equal. apply IH. intros y Hy. apply Hall. by right.
Qed.

(** Picking rows by the keys of a suffix of the table picks that suffix. *)
Lemma filter_keys_suffix {A K} `{EqDecision K} (f : A → K) (l : list A) n
    (ks : list K) :
  NoDup (f <$> l) → ks ≡ₚ f <$> drop n l →
  filter (λ x, f x ∈ ks) l = drop n l.
Proof.
  intros Hnd Hks. rewrite <- (take_drop n l) at 1.
  rewrite <- (take_drop n l), fmap_app in Hnd.
  apply NoDup_app in Hnd as (_ & Hdisj & _).
  rewrite filter_app.
  rewrite (proj2 (filter_nil_iff _ (take n l))).
  - apply filter_all. intros x Hx. rewrite Hks. by apply list_elem_of_fmap_2.
  - intros x Hx. rewrite Hks. by apply Hdisj, list_elem_of_fmap_2.
Qed.

(** ** Retention when timestamps are distinct *)

Section retention_order.
Context `{SqlEngine}.

Lemma appended_rows_length room_id seq l :
  length (appended_rows room_id seq l) = length l.
Proof. revert seq. induction l as [|a l IH]; intros seq; simpl; auto. Qed.

Lemma appended_rows_timestamp room_id seq l m :
  m ∈ appended_rows room_id seq l →
  ∃ a, a ∈ l ∧ m_timestamp m = CURRENT_TIMESTAMP (a_now a).
Proof.
  revert seq. induction l as [|a l IH]; intros seq; simpl.
  - by intros ?%elem_of_nil.
  - intros [->|Hm]%elem_of_cons.
    + exists a. split; [left|done].
    + destruct (IH _ Hm) as (a' & Ha' & Hts). exists a'. split; [by right|done].
Qed.

Lemma appended_rows_sorted room_id seq l :
  StronglySorted (key_lt (CURRENT_TIMESTAMP ∘ a_now)) l →
  StronglySorted (key_lt m_timestamp) (appended_rows room_id seq l).
Proof.
  intros Hl. revert seq.
  induction Hl as [|a l Hl IH Ha]; intros seq; simpl; constructor; [done|].
  apply Forall_forall. intros m (a' & Ha' & Hts)%appended_rows_timestamp.
  rewrite Forall_forall in Ha. specialize (Ha a' Ha').
  unfold key_lt. rewrite Hts. exact Ha.
Qed.

Lemma room_messages_insert room_id username text now d :
  room_messages room_id (after_insert room_id username text now d)
  = room_messages room_id d
    ++ [{| m_id := (messages_seq d + 1)%Z; m_room_id := room_id;
           m_username := username; m_text := text;
           m_timestamp := CURRENT_TIMESTAMP now |}].
Proof.
  unfold room_messages. simpl.
  by rewrite filter_app, filter_cons, decide_True.
Qed.

(** One append whose timestamp is later than all the room holds: the room
    keeps its last 100 rows, the new one included. *)
Lemma saveMessage_newest roomName room a d :
  db_wf d → statements.getRoomByName roomName d = Some room →
  (messages_seq d < max_rowid)%Z →
  StronglySorted (key_lt m_timestamp)
    (room_messages (r_id room) d
     ++ [appended_row (r_id room) (messages_seq d) a]) →
  ∃ saved d',
    database.saveMessage roomName (a_username a) (a_text a)
      (a_now a) (a_now' a) d = Some (saved, d')
    ∧ room_messages (r_id room) d'
      = drop (length (room_messages (r_id room) d) + 1 - 100)
          (room_messages (r_id room) d
           ++ [appended_row (r_id room) (messages_seq d) a])
    ∧ messages_seq d' = (messages_seq d + 1)%Z.
Proof.
  intros Hwf Hroom Hseq Hsorted.
  rewrite (saveMessage_Some _ _ _ _ _ _ room Hroom Hseq).
  eexists _, _. split; [reflexivity|]. split; [|reflexivity].
  set (d1 := after_insert (r_id room) (a_username a) (a_text a) (a_now a) d).
  assert (room_messages (r_id room) d1
          = room_messages (r_id room) d
            ++ [appended_row (r_id room) (messages_seq d) a]) as Hrows
    by apply room_messages_insert.
  rewrite room_messages_deleteOldMessages, Hrows.
  set (rows := _ ++ [_]) in *.
  replace (length (room_messages (r_id room) d) + 1) with (length rows)
    by (unfold rows; by rewrite length_app).
  apply (filter_keys_suffix m_id).
  - rewrite <- Hrows. by apply room_messages_NoDup, stmt_saveMessage_wf.
  - unfold statements.newest_ids. rewrite Hrows.
    rewrite (sorted_desc_unique m_timestamp rows (order_by_desc _ rows));
      [|done|apply order_by_desc_perm|apply order_by_desc_sorted].
    by rewrite take_reverse, fmap_reverse, reverse_Permutation.
Qed.

(** A run of appends with increasing timestamps, onto a room whose rows are
    already in increasing order: the room ends with the last 100 of the old
    rows followed by the new. *)
Lemma append_all_newest roomName room l d :
  db_wf d → statements.getRoomByName roomName d = Some room →
  (messages_seq d + Z.of_nat (length l) ≤ max_rowid)%Z →
  length (room_messages (r_id room) d) ≤ 100 →
  StronglySorted (key_lt m_timestamp)
    (room_messages (r_id room) d
     ++ appended_rows (r_id room) (messages_seq d) l) →
  db_wf (append_all roomName l d)
  ∧ rooms (append_all roomName l d) = rooms d
  ∧ room_messages (r_id room) (append_all roomName l d)
    = drop (length (room_messages (r_id room) d) + length l - 100)
        (room_messages (r_id room) d
         ++ appended_rows (r_id room) (messages_seq d) l).
Proof.
  revert d. induction l as [|a l IH]; intros d Hwf Hroom Hmax Hcap Hsorted.
  - simpl. rewrite app_nil_r. split_and!; [done..|].
    replace (_ + 0 - 100) with 0 by lia. done.
  - simpl in Hsorted. rewrite cons_middle, app_assoc in Hsorted.
    rewrite length_cons in Hmax.
    destruct (saveMessage_newest roomName room a d)
      as (saved & d1 & Hsave & Hrows & Hseq);
      [done|done|lia|by apply StronglySorted_app_1_l in Hsorted|].
    pose proof (saveMessage_wf _ _ _ _ _ _ _ _ Hwf Hsave) as Hwf1.
    pose proof (saveMessage_rooms _ _ _ _ _ _ _ _ Hsave) as [Hrooms1 _].
    unfold append_all in *. simpl. rewrite Hsave.
    set (old := room_messages (r_id room) d) in *.
    set (row := appended_row (r_id room) (messages_seq d) a) in *.
    assert (old ++ row :: appended_rows (r_id room) (messages_seq d + 1) l
            = (old ++ [row]) ++ appended_rows (r_id room) (messages_seq d + 1) l)
      as Hassoc by (by rewrite <- app_assoc).
    assert (room_messages (r_id room) d1
            ++ appended_rows (r_id room) (messages_seq d1) l
            = drop (length old + 1 - 100)
                ((old ++ [row])
                 ++ appended_rows (r_id room) (messages_seq d + 1) l)) as Hall.
    { rewrite Hrows, Hseq, (drop_app_le (old ++ [row])); [done|].
      rewrite length_app. simpl. lia. }
    destruct (IH d1) as (Hwf' & Hrooms' & Hrows').
    + done.
    + by rewrite (getRoomByName_rooms roomName d d1).
    + lia.
    + rewrite Hrows, length_drop, length_app. simpl. lia.
    + rewrite Hall. by apply StronglySorted_drop.
    + split_and!; [done|congruence|].
      rewrite Hrows', Hall, drop_drop, Hassoc. f_equal.
      rewrite Hrows, length_drop, length_app. simpl. lia.
Qed.

(** A room whose rows are in increasing timestamp order, and no more than
    100: its history is those rows, in that order. *)
Lemma getMessagesByRoom_sorted roomName room d :
  db_wf d → statements.getRoomByName roomName d = Some room →
  StronglySorted (key_lt m_timestamp) (room_messages (r_id room) d) →
  length (room_messages (r_id room) d) ≤ 100 →
  database.getMessagesByRoom roomName d
  = (λ m, database.row_to_message (m, room)) <$> room_messages (r_id room) d.
Proof.
  intros Hwf Hroom Hsorted Hcap.
  unfold database.getMessagesByRoom, statements.getMessagesByRoom.
  rewrite (messages_join_rooms_Some roomName d room) by done.
  set (rows := (λ m, (m, room)) <$> room_messages (r_id room) d).
  rewrite (sorted_asc_unique (λ p, m_timestamp p.1) rows (order_by _ rows));
    [|by apply (StronglySorted_fmap _ (key_lt m_timestamp))
     |apply order_by_perm|apply order_by_sorted].
  rewrite take_ge by (unfold rows; by rewrite length_fmap).
  unfold rows. by rewrite <- list_fmap_compose.
Qed.
End retention_order.

Section retention_scenario.
Context `{SqlEngine}.

(** X27. Appends to a room that starts without messages, whose store
    timestamps strictly increase and for which the rowid counter suffices:
    after them the room holds exactly the last 100 rows appended, its count
    is the smaller of the number of appends and 100, and its history is
    those rows oldest first.  After 101 such appends the count is 100 and
    the first element of the history is the second message appended. *)
Theorem retention_increasing_timestamps roomName room l d :
  db_wf d → statements.getRoomByName roomName d = Some room →
  room_messages (r_id room) d = [] →
  (messages_seq d + Z.of_nat (length l) ≤ max_rowid)%Z →
  StronglySorted (key_lt (CURRENT_TIMESTAMP ∘ a_now)) l →
  let d' := append_all roomName l d in
  let kept :=
    drop (length l - 100) (appended_rows (r_id room) (messages_seq d) l) in
  room_messages (r_id room) d' = kept
  ∧ database.getMessageCount roomName d' = length l `min` 100
  ∧ database.getMessagesByRoom roomName d'
    = (λ m, database.row_to_message (m, room)) <$> kept
  ∧ (length l = 101 → ∀ a, l !! 1 = Some a →
     database.getMessageCount roomName d' = 100
     ∧ head (database.getMessagesByRoom roomName d')
       = Some (database.row_to_message
                 (appended_row (r_id room) (messages_seq d + 1) a, room))).
Proof.
  intros Hwf Hroom Hempty Hmax Hl d' kept.
  destruct (append_all_newest roomName room l d) as (Hwf' & Hrooms & Hrows);
    [done|done|done|rewrite Hempty; simpl; lia| |].
  { rewrite Hempty. simpl. by apply appended_rows_sorted. }
  rewrite Hempty in Hrows. simpl in Hrows. fold d' kept in Hwf', Hrooms, Hrows.
  assert (statements.getRoomByName roomName d' = Some room) as Hroom'
    by (by rewrite (getRoomByName_rooms roomName d d')).
  assert (length kept = length l `min` 100) as Hlen.
  { unfold kept. rewrite length_drop, appended_rows_length. lia. }
  assert (database.getMessageCount roomName d' = length l `min` 100) as Hcount.
  { by rewrite (getMessageCount_room roomName d' room), Hrows. }
  assert (database.getMessagesByRoom roomName d'
          = (λ m, database.row_to_message (m, room)) <$> kept) as Hhist.
  { rewrite (getMessagesByRoom_sorted roomName room d'), Hrows; try done.
    - rewrite Hrows. unfold kept.
      by apply StronglySorted_drop, appended_rows_sorted.
    - rewrite Hrows, Hlen. lia. }
  split_and!; [done..|].
  intros H101 a Ha. split; [rewrite Hcount; lia|].
  rewrite Hhist. unfold kept. rewrite H101.
  destruct l as [|a0 [|a1 l]]; simplify_eq/=. done.
Qed.
End retention_scenario.

Lemma retention_increasing_timestamps_witness :
  database.getMessageCount "General"
    (@append_all scan_order_engine "General" (numbered later 101) fresh_db)
  = 100
  ∧ head (@database.getMessagesByRoom scan_order_engine "General"
            (@append_all scan_order_engine "General" (numbered later 101)
               fresh_db))
    = Some {| msg_id := "2"; msg_text := "2"; msg_username := "Anonymous-7";
              msg_room := "General";
              msg_timestamp := "2026-03-14 10:00:02" |}.
Proof.
  destruct (@retention_increasing_timestamps scan_order_engine "General"
              general_row (numbered later 101) fresh_db)
    as (_ & _ & _ & Hscenario).
  - exact fresh_db_wf.
  - reflexivity.
  - reflexivity.
  - vm_compute. discriminate.
  - by_evaluation.
  - exact (Hscenario eq_refl _ eq_refl).
Defined.

(** C4, at the input where the code departs from it.  101 appends to one
    room within one second of the store's clock, the engine keeping tied
    rows in scan order: the count is 100, but the message evicted is the
    one just appended, not the first; the first message is still at the
    head of the history, and the 101st call returns an id for a message
    the table does not hold, leaving the table as it was. *)
Theorem retention_ties_evict_newest :
  let d100 :=
    @append_all scan_order_engine "General" (numbered (λ _, morning) 100)
      fresh_db in
  let d101 :=
    @append_all scan_order_engine "General" (numbered (λ _, morning) 101)
      fresh_db in
  database.getMessageCount "General" d101 = 100
  ∧ msg_text <$> head (@database.getMessagesByRoom scan_order_engine
                         "General" d101) = Some "1"
  ∧ ("101" ∉ msg_text <$> @database.getMessagesByRoom scan_order_engine
                            "General" d101)
  ∧ ∃ saved,
      @database.saveMessage scan_order_engine "General" "Anonymous-7" "101"
        morning morning d100 = Some (saved, d101)
      ∧ sv_id saved = "101"
      ∧ messages d101 = messages d100.
Proof.
  split_and!; try (vm_compute; reflexivity); [by_evaluation|].
  eexists. split_and!; vm_compute; reflexivity.
Qed.

Lemma saveMessage_count_bound_witness :
  ∃ saved d',
    @database.saveMessage scan_order_engine "General" "Anonymous-7" "hello"
      morning morning fresh_db = Some (saved, d')
    ∧ database.getMessageCount "General" d' ≤ 100.
Proof.
  eexists _, _. split; [reflexivity|].
  eapply (@saveMessage_count_bound scan_order_engine "General" "Anonymous-7"
            "hello" morning morning fresh_db);
    [exact fresh_db_wf|reflexivity].
Defined.

(** ** Message ids and timestamps at the interface *)




(** The Number a rowid becomes: itself below 2^53, and never beyond the
    range that prints in digits. *)
Lemma to_Number_safe z : (Z.abs z < 2 ^ 53)%Z → to_Number z = z.
Proof.
  intros Hz. unfold to_Number.
  by destruct (Z.ltb_spec (Z.abs z) (2 ^ 53)); [|lia].
Qed.

Lemma to_Number_range z :
  (0 ≤ z ≤ max_rowid)%Z → (0 ≤ to_Number z < 10 ^ 21)%Z.
Proof.
  intros Hz. unfold to_Number, max_rowid in *.
  assert (2 ^ 53 = 9007199254740992)%Z as H53 by reflexivity.
  assert (10 ^ 21 = 1000000000000000000000)%Z as H21 by reflexivity.
  rewrite Z.abs_eq by lia.
  destruct (Z.ltb_spec z (2 ^ 53)) as [Hsmall|Hbig]; [lia|].
  assert (53 ≤ Z.log2 z)%Z as Hlog.
  { rewrite <- (Z.log2_pow2 53) by lia. apply Z.log2_le_mono. lia. }
  destruct (Z.log2_spec z) as [Hlow Hhigh]; [lia|].
  set (e := (Z.log2 z - 52)%Z) in *.
  assert (2 ^ e ≤ z)%Z as He.
  { etrans; [|exact Hlow]. apply Z.pow_le_mono_r; lia. }
  assert (0 < 2 ^ e)%Z as Hpos by (apply Z.pow_pos_nonneg; lia).
  rewrite Z.sgn_pos, Z.mul_1_l by lia.
  rewrite Z.shiftl_mul_pow2, Z.shiftr_div_pow2 by lia.
  pose proof (Z.mul_div_le z (2 ^ e) Hpos) as Hq.
  assert (0 ≤ z / 2 ^ e)%Z as Hq0 by (apply Z.div_pos; lia).
  destruct (_ || _); nia.
Qed.

Section interface.
Context `{SqlEngine}.

Lemma toString_safe z : (0 ≤ z < 2 ^ 53)%Z → toString z = decimal z.
Proof.
  intros Hz. unfold toString. rewrite to_Number_safe by lia.
  by apply number_toString_safe.
Qed.

Lemma toString_decimal z :
  (0 ≤ z ≤ max_rowid)%Z → is_decimal (toString z) = true.
Proof.
  intros Hz. unfold toString.
  by apply number_toString_decimal, to_Number_range.
Qed.

(** Rowids beyond 2^53 that round to the same Number print alike. *)
Lemma toString_collapses :
  toString (2 ^ 53 + 1) = toString (2 ^ 53).
Proof. unfold toString. f_equal. Qed.

(** The rows a history read is built from are rows of the table. *)
Lemma getMessagesByRoom_rows name d row :
  row ∈ statements.getMessagesByRoom name d →
  row.1 ∈ messages d ∧ row.2 ∈ rooms d ∧ r_name row.2 = name.
Proof.
  unfold statements.getMessagesByRoom. intros Hrow.
  apply subseteq_take in Hrow. rewrite order_by_perm in Hrow.
  unfold statements.messages_join_rooms in Hrow.
  apply list_elem_of_filter in Hrow as [Hname Hrow].
  apply list_elem_of_bind in Hrow as (m & Hrow & Hm).
  apply list_elem_of_bind in Hrow as (r & Hrow & Hr).
  apply list_elem_of_singleton in Hrow as ->.
  by apply list_elem_of_filter in Hr as [_ Hr].
Qed.

(** After an append, the only row carrying the new id is the row inserted. *)
Lemma saveMessage_new_row roomName username text now now' d saved d' m :
  db_wf d →
  database.saveMessage roomName username text now now' d = Some (saved, d') →
  m ∈ messages d' → m_id m = (messages_seq d + 1)%Z →
  m_username m = username ∧ m_text m = text
  ∧ m_timestamp m = CURRENT_TIMESTAMP now.
Proof.
  intros Hwf (room & _ & _ & _ & ->)%saveMessage_inv Hm Hid. simpl in Hm.
  apply list_elem_of_filter in Hm as [_ Hm].
  apply elem_of_app in Hm as [Hm|Hm];
    [|by apply list_elem_of_singleton in Hm as ->].
  pose proof (wf_msg_seq d Hwf) as Hseq. rewrite Forall_forall in Hseq.
  specialize (Hseq m Hm). lia.
Qed.

End interface.

(** ** The coordinator: how each state update is seen *)

(** What an update does not touch reads as before. *)
Section frames.
Context (s : server) (id room r : string).

Lemma store_socket_join :
  store (socket_join id room s) = store s.
Proof. reflexivity. Qed.

Lemma presence_socket_join :
  presence (socket_join id room s) r = presence s r.
Proof. reflexivity. Qed.

Lemma sockets_socket_join :
  sockets (socket_join id room s) = sockets s.
Proof. reflexivity. Qed.

Lemma store_socket_leave :
  store (socket_leave id room s) = store s.
Proof. reflexivity. Qed.

Lemma presence_socket_leave :
  presence (socket_leave id room s) r = presence s r.
Proof. reflexivity. Qed.

Lemma sockets_socket_leave :
  sockets (socket_leave id room s) = sockets s.
Proof. reflexivity. Qed.

Lemma store_socket_close :
  store (socket_close id s) = store s.
Proof. reflexivity. Qed.

Lemma presence_socket_close :
  presence (socket_close id s) r = presence s r.
Proof. reflexivity. Qed.

Lemma store_roomUsers_delete :
  store (roomUsers_delete id room s) = store s.
Proof. reflexivity. Qed.

Lemma sockets_roomUsers_delete :
  sockets (roomUsers_delete id room s) = sockets s.
Proof. reflexivity. Qed.

Lemma members_roomUsers_delete :
  members (roomUsers_delete id room s) r = members s r.
Proof. reflexivity. Qed.

Lemma store_roomUsers_add :
  store (roomUsers_add id room s) = store s.
Proof. reflexivity. Qed.

Lemma sockets_roomUsers_add :
  sockets (roomUsers_add id room s) = sockets s.
Proof. reflexivity. Qed.

Lemma members_roomUsers_add :
  members (roomUsers_add id room s) r = members s r.
Proof. reflexivity. Qed.

Lemma store_roomUsers_reset :
  store (roomUsers_reset room s) = store s.
Proof. reflexivity. Qed.

Lemma sockets_roomUsers_reset :
  sockets (roomUsers_reset room s) = sockets s.
Proof. reflexivity. Qed.

Lemma members_roomUsers_reset :
  members (roomUsers_reset room s) r = members s r.
Proof. reflexivity. Qed.

Lemma store_set_currentRoom current :
  store (set_currentRoom id current s) = store s.
Proof. reflexivity. Qed.

Lemma presence_set_currentRoom current :
  presence (set_currentRoom id current s) r = presence s r.
Proof. reflexivity. Qed.

Lemma members_set_currentRoom current :
  members (set_currentRoom id current s) r = members s r.
Proof. reflexivity. Qed.

Lemma presence_set_store d :
  presence (set_store d s) r = presence s r.
Proof. reflexivity. Qed.

Lemma sockets_set_store d :
  sockets (set_store d s) = sockets s.
Proof. reflexivity. Qed.

Lemma members_set_store d :
  members (set_store d s) r = members s r.
Proof. reflexivity. Qed.

End frames.


Create Rewrite HintDb server.

#[local] Hint Rewrite
  store_socket_join presence_socket_join sockets_socket_join
  store_socket_leave presence_socket_leave sockets_socket_leave
  store_socket_close presence_socket_close store_roomUsers_delete
  sockets_roomUsers_delete members_roomUsers_delete store_roomUsers_add
  sockets_roomUsers_add members_roomUsers_add store_roomUsers_reset
  sockets_roomUsers_reset members_roomUsers_reset store_set_currentRoom
  presence_set_currentRoom members_set_currentRoom presence_set_store
  sockets_set_store members_set_store
  : server.

(** What an update does touch. *)
Lemma members_socket_join id room s r :
  members (socket_join id room s) r
  = if decide (r = room) then {[id]} ∪ members s room else members s r.
Proof.
  unfold members, socket_join. simpl. case_decide as Hr.
  - subst. by rewrite lookup_insert_eq.
  - by rewrite lookup_insert_ne.
Qed.

Lemma members_socket_leave id room s r :
  members (socket_leave id room s) r
  = if decide (r = room) then members s room ∖ {[id]} else members s r.
Proof.
  unfold members, socket_leave. simpl. case_decide as Hr.
  - subst. rewrite lookup_alter_eq.
    destruct (io_rooms s !! room); simpl; [done|].
    by rewrite difference_disjoint_L.
  - by rewrite lookup_alter_ne.
Qed.

Lemma members_socket_close id s r :
  members (socket_close id s) r = members s r ∖ {[id]}.
Proof.
  unfold members, socket_close. simpl. rewrite lookup_fmap.
  destruct (io_rooms s !! r); simpl; [done|]. by rewrite difference_disjoint_L.
Qed.

Lemma sockets_socket_close id s :
  sockets (socket_close id s) = delete id (sockets s).
Proof. reflexivity. Qed.

Lemma presence_roomUsers_delete id room s r :
  presence (roomUsers_delete id room s) r
  = if decide (r = room) then presence s room ∖ {[id]} else presence s r.
Proof.
  unfold presence, roomUsers_delete. simpl. case_decide as Hr.
  - subst. rewrite lookup_alter_eq.
    destruct (roomUsers s !! room); simpl; [done|].
    by rewrite difference_disjoint_L.
  - by rewrite lookup_alter_ne.
Qed.

Lemma presence_roomUsers_add id room s r :
  presence (roomUsers_add id room s) r
  = if decide (r = room) then {[id]} ∪ presence s room else presence s r.
Proof.
  unfold presence, roomUsers_add. simpl.
  destruct (roomUsers s !! room) eqn:Hroom; case_decide as Hr; subst;
    rewrite ?lookup_insert_eq, ?lookup_insert_ne, ?Hroom by done; simpl;
    try done.
  by rewrite union_empty_r_L.
Qed.

Lemma presence_roomUsers_reset room s r :
  presence (roomUsers_reset room s) r
  = if decide (r = room) then ∅ else presence s r.
Proof.
  unfold presence, roomUsers_reset. simpl. case_decide as Hr.
  - subst. by rewrite lookup_insert_eq.
  - by rewrite lookup_insert_ne.
Qed.

Lemma dom_sockets_set_currentRoom id current s :
  dom (sockets (set_currentRoom id current s)) = dom (sockets s).
Proof. unfold set_currentRoom. simpl. apply dom_alter_L. Qed.

Lemma store_set_store d s : store (set_store d s) = d.
Proof. reflexivity. Qed.

#[local] Hint Rewrite
  members_socket_join members_socket_leave members_socket_close
  sockets_socket_close presence_roomUsers_delete presence_roomUsers_add
  presence_roomUsers_reset dom_sockets_set_currentRoom store_set_store
  : server.

(** Read an emission's fields without unfolding the state it was cut from. *)
Ltac observe :=
  cbn [fst snd event recipients target socket_to io_emit io_to socket_emit].

(** One goal per emitted event; those the rule does not constrain are
    closed. *)
Ltac each_emission :=
  repeat (apply Forall_cons; split; [unfold audience_rule; observe|]);
  try apply Forall_nil; try exact I.

(** ** The coordinator: transport rooms stay within the presence map *)

Section coordinator.
Context `{SqlEngine}.

Lemma roomExists_createRoom name name' now d :
  database.roomExists name d = true →
  database.roomExists name (database.createRoom name' now d).2 = true.
Proof.
  intros [r Hr]%bool_decide_eq_true. apply bool_decide_eq_true.
  unfold database.createRoom, statements.createRoom.
  case_decide; simpl; [by exists r|].
  case_decide; simpl; [by exists r|].
  apply getRoomByName_Some in Hr as [Hr Hname].
  match goal with |- is_Some ?o => destruct o eqn:Hnew end; [done|].
  apply getRoomByName_None in Hnew. destruct Hnew. simpl.
  rewrite fmap_app, elem_of_app. left. rewrite <- Hname.
  by apply list_elem_of_fmap_2.
Qed.

Lemma roomExists_saveMessage name roomName author text now now' d saved d' :
  database.saveMessage roomName author text now now' d = Some (saved, d') →
  database.roomExists name d' = database.roomExists name d.
Proof.
  intros [Hrooms _]%saveMessage_rooms. unfold database.roomExists.
  by rewrite (getRoomByName_rooms name d d').
Qed.

Lemma boot_transport_inv d tick : transport_inv (boot d tick).
Proof. intros room id. unfold members. simpl. by intros ?%elem_of_empty. Qed.

Lemma connection_transport_inv id rnd s :
  transport_inv s →
  transport_inv (connection id rnd (socket_join id id s)).1.
Proof.
  intros Hinv room id'. unfold connection. cbn [fst].
  replace (dom (sockets (set_sockets _ _))) with ({[id]} ∪ dom (sockets s))
    by (simpl; by rewrite dom_insert_L).
  replace (members (set_sockets _ (socket_join id id s)) room)
    with (members (socket_join id id s) room) by done.
  replace (presence (set_sockets _ (socket_join id id s)) room)
    with (presence s room) by done.
  replace (store (set_sockets _ (socket_join id id s))) with (store s)
    by done.
  autorewrite with server. intros Hin.
  assert (id' = id ∧ room = id ∨ id' ∈ members s room) as [[-> ->]|Hin'].
  { case_decide; subst; [|by right].
    apply elem_of_union in Hin as [->%elem_of_singleton|Hin]; auto. }
  - split; [|by left]. apply elem_of_union_l. by apply elem_of_singleton.
  - destruct (Hinv room id' Hin') as [? ?]. split; [|done].
    by apply elem_of_union_r.
Qed.

Lemma leave_previous_transport_inv id roomName now data s :
  transport_inv s → transport_inv (leave_previous id roomName now data s).1.
Proof.
  intros Hinv. unfold leave_previous.
  destruct (currentRoom data) as [previous|]; [|done].
  destruct (truthy _ && negb _); [|done]. simpl.
  intros room id'. autorewrite with server.
  intros Hin. case_decide; subst; [|by apply Hinv].
  apply elem_of_difference in Hin as [Hin Hne].
  destruct (Hinv previous id' Hin) as (? & [?|[? ?]]);
    (split; [done|]); [by left|right].
  split; [by apply elem_of_difference|done].
Qed.

Lemma leave_previous_sockets id roomName now data s :
  sockets (leave_previous id roomName now data s).1 = sockets s.
Proof.
  unfold leave_previous. destruct (currentRoom data); [|done].
  by destruct (truthy _ && negb _).
Qed.

Lemma leave_previous_store id roomName now data s :
  store (leave_previous id roomName now data s).1 = store s.
Proof.
  unfold leave_previous. destruct (currentRoom data); [|done].
  by destruct (truthy _ && negb _).
Qed.

Lemma join_room_transport_inv id roomName now now' data s :
  sockets s !! id = Some data →
  transport_inv s → transport_inv (join_room id roomName now now' data s).1.
Proof.
  intros Hid Hinv. unfold join_room.
  pose proof (leave_previous_transport_inv id roomName now data s Hinv) as Hinv1.
  pose proof (leave_previous_sockets id roomName now data s) as Hsockets.
  destruct (leave_previous id roomName now data s) as [s1 out1].
  simpl in Hinv1, Hsockets.
  destruct (database.getRoomByName roomName (store s1)) as [r|] eqn:Hroom;
    [|done].
  simpl. intros room id'. autorewrite with server.
  intros Hin. case_decide; subst; [|by apply Hinv1].
  assert (database.roomExists roomName (store s1) = true) as Hexists.
  { apply bool_decide_eq_true. unfold database.getRoomByName in Hroom.
    by rewrite Hroom. }
  apply elem_of_union in Hin as [->%elem_of_singleton|Hin].
  - split; [rewrite Hsockets; by apply elem_of_dom|]. right.
    split; [|done]. apply elem_of_union_l. by apply elem_of_singleton.
  - destruct (Hinv1 roomName id' Hin) as (? & [?|[? ?]]);
      (split; [done|]); [by left|right].
    split; [by apply elem_of_union_r|done].
Qed.

Lemma send_message_transport_inv id text now now' data s :
  transport_inv s → transport_inv (send_message id text now now' data s).1.
Proof.
  intros Hinv. unfold send_message.
  destruct (currentRoom data) as [room|]; [|done].
  destruct (truthy _); [|done].
  destruct (database.saveMessage _ _ _ _ _ _) as [[saved d]|] eqn:Hsave;
    [|done].
  simpl. intros room' id' Hin. autorewrite with server in *.
  destruct (Hinv room' id' Hin) as (? & [?|[? ?]]);
    (split; [done|]); [by left|right].
  split; [done|].
  by rewrite (roomExists_saveMessage _ _ _ _ _ _ _ _ _ Hsave).
Qed.

Lemma typing_state id isTyping data s : (typing id isTyping data s).1 = s.
Proof.
  unfold typing. destruct (currentRoom data); [|done]. by destruct (truthy _).
Qed.

Lemma create_room_transport_inv id roomName now s :
  transport_inv s → transport_inv (create_room id roomName now s).1.
Proof.
  intros Hinv. unfold create_room.
  destruct (database.roomExists roomName (store s)) eqn:Hexists; [done|].
  pose proof (roomExists_createRoom) as Hkeep.
  destruct (database.createRoom roomName now (store s)) as [created d] eqn:Hd.
  assert (∀ room, database.roomExists room (store s) = true →
                  database.roomExists room d = true) as Hrooms.
  { intros room Hroom. specialize (Hkeep room roomName now (store s) Hroom).
    by rewrite Hd in Hkeep. }
  destruct created; simpl.
  - intros room id' Hin. autorewrite with server in *.
    destruct (Hinv room id' Hin) as (? & [?|[? Hroom]]);
      (split; [done|]); [by left|right].
    split; [|by apply Hrooms].
    case_decide; [|done]. subst. congruence.
  - intros room id' Hin. autorewrite with server in *.
    destruct (Hinv room id' Hin) as (? & [?|[? ?]]);
      (split; [done|]); [by left|right]. auto.
Qed.

Lemma disconnect_transport_inv id now data s :
  transport_inv s →
  transport_inv (disconnect id now data (socket_close id s)).1.
Proof.
  intros Hinv.
  assert (∀ room' id', id' ∈ members (socket_close id s) room' →
            id' ≠ id ∧ id' ∈ dom (sockets (socket_close id s))
            ∧ (id' = room'
               ∨ (id' ∈ presence s room'
                  ∧ database.roomExists room' (store s) = true)))
    as Hclosed.
  { intros room' id'. autorewrite with server. rewrite dom_delete_L.
    intros [Hin Hne]%elem_of_difference.
    destruct (Hinv room' id' Hin) as (? & ?).
    split_and!; [by intros ->; apply Hne, elem_of_singleton| |done].
    by apply elem_of_difference. }
  unfold disconnect.
  destruct (currentRoom data) as [room|].
  2:{ intros room' id' Hin. by destruct (Hclosed room' id' Hin) as (_ & ? & ?). }
  destruct (truthy _).
  2:{ intros room' id' Hin. by destruct (Hclosed room' id' Hin) as (_ & ? & ?). }
  simpl. intros room' id' Hin.
  destruct (Hclosed room' id' Hin) as (Hne & Hdom & [?|[? ?]]);
    (split; [done|]); [by left|right].
  split; [|done]. autorewrite with server. case_decide; subst; [|done].
  apply elem_of_difference. split; [done|]. by intros ?%elem_of_singleton.
Qed.

Lemma handle_transport_inv i s :
  transport_inv s → transport_inv (handle i s).1.
Proof.
  intros Hinv. unfold handle.
  destruct i; simpl; destruct (sockets s !! _) as [data|] eqn:Hdata;
    try done.
  - by apply connection_transport_inv.
  - by apply join_room_transport_inv.
  - by apply send_message_transport_inv.
  - by rewrite typing_state.
  - by apply create_room_transport_inv.
  - by apply disconnect_transport_inv.
Qed.

Lemma run_snoc inputs i s :
  run (inputs ++ [i]) s
  = ((handle i (run inputs s).1).1,
     (run inputs s).2 ++ (handle i (run inputs s).1).2).
Proof.
  unfold run. rewrite foldl_app. simpl.
  by destruct (handle i _).
Qed.

Lemma run_transport_inv inputs s :
  transport_inv s → transport_inv (run inputs s).1.
Proof.
  intros Hinv. induction inputs as [|i inputs IH] using rev_ind; [done|].
  rewrite run_snoc. simpl. by apply handle_transport_inv.
Qed.

(** ** The coordinator: who receives what *)

Lemma leave_previous_audience id roomName now now' data s s' :
  sockets s !! id = Some data → transport_inv s →
  dom (sockets s') = dom (sockets s) →
  (∀ previous, currentRoom data = Some previous → previous ≠ roomName →
     presence s' previous
     = presence (leave_previous id roomName now data s).1 previous) →
  Forall (audience_rule (JoinRoom id roomName now now') s s')
    (leave_previous id roomName now data s).2.
Proof.
  intros Hid Hinv Hdom Hpresence. unfold leave_previous in *.
  destruct (currentRoom data) as [previous|] eqn:Hprevious; [|by each_emission].
  destruct (truthy _ && negb _) eqn:Hcond; [|by each_emission].
  apply andb_prop in Hcond as [_ Hne%negb_true_iff%String.eqb_neq].
  specialize (Hpresence previous eq_refl Hne). simpl in Hpresence.
  autorewrite with server in Hpresence. rewrite decide_True in Hpresence by done.
  each_emission.
  - exists data, previous. split_and!; [done..| |].
    + autorewrite with server. rewrite decide_True, Hpresence by done.
      intros id' [[Hin Hid']%elem_of_difference _]%elem_of_difference.
      destruct (Hinv previous id' Hin) as (? & [->|[? ?]]);
        cbn [actor]; rewrite !elem_of_difference, elem_of_union,
          elem_of_difference, ?elem_of_singleton in *; naive_solver.
    + autorewrite with server. rewrite decide_True, Hdom by done.
      intros id' [[Hin Hid']%elem_of_difference _]%elem_of_difference.
      by destruct (Hinv previous id' Hin) as (? & ?).
  - by autorewrite with server.
Qed.

Lemma join_room_audience id roomName now now' data s :
  sockets s !! id = Some data → transport_inv s →
  Forall (audience_rule (JoinRoom id roomName now now') s
            (join_room id roomName now now' data s).1)
    (join_room id roomName now now' data s).2.
Proof.
  intros Hid Hinv. unfold join_room.
  pose proof (leave_previous_transport_inv id roomName now data s Hinv) as Hinv1.
  pose proof (leave_previous_sockets id roomName now data s) as Hsockets.
  pose proof (leave_previous_audience id roomName now now' data s) as Hleft.
  destruct (leave_previous id roomName now data s) as [s1 out1].
  simpl in Hinv1, Hsockets, Hleft.
  destruct (database.getRoomByName roomName (store s1)) as [r|] eqn:Hroom;
    simpl.
  - apply Forall_app. split.
    + apply Hleft; [done|done| |].
      * autorewrite with server. by rewrite Hsockets.
      * intros previous _ Hne. autorewrite with server.
        by rewrite decide_False.
    + each_emission.
      * exists roomName, now, now'. split_and!; [done..| |].
        -- autorewrite with server. rewrite !decide_True by done.
           intros id' [Hin _]%elem_of_difference.
           rewrite ?decide_True by done.
           rewrite !elem_of_union, !elem_of_singleton.
           apply elem_of_union in Hin as [->%elem_of_singleton|Hin];
             [by left; left|].
           destruct (Hinv1 roomName id' Hin) as (? & [->|[? ?]]); auto.
        -- autorewrite with server. rewrite !decide_True, Hsockets by done.
           intros id' [Hin _]%elem_of_difference.
           apply elem_of_union in Hin as [->%elem_of_singleton|Hin];
             [by apply elem_of_dom|].
           destruct (Hinv1 roomName id' Hin) as (Hdom & _).
           by rewrite Hsockets in Hdom.
      * by autorewrite with server.
  - apply Forall_app. split; [|by each_emission].
    apply Hleft; [done|done|by rewrite Hsockets|done].
Qed.

Lemma handle_audience i s :
  transport_inv s →
  Forall (audience_rule i s (handle i s).1) (handle i s).2.
Proof.
  intros Hinv. unfold handle.
  destruct i as [id rnd|id roomName now now'|id text now now'
                |id isTyping|id roomName now|id now]; simpl;
    destruct (sockets s !! id) as [data|] eqn:Hdata; try by each_emission.
  - by apply join_room_audience.
  - unfold send_message. destruct (currentRoom data) as [room|];
      [|by each_emission].
    destruct (truthy _); [|by each_emission].
    destruct (database.saveMessage _ _ _ _ _ _) as [[saved d]|];
      by each_emission.
  - unfold typing. destruct (currentRoom data) as [room|]; [|by each_emission].
    destruct (truthy _); by each_emission.
  - unfold create_room. destruct (database.roomExists _ _);
      [by each_emission|].
    destruct (database.createRoom _ _ _) as [[] d]; by each_emission.
  - unfold disconnect. destruct (currentRoom data) as [room|] eqn:Hroom;
      [|by each_emission].
    destruct (truthy _); [|by each_emission].
    each_emission.
    + exists data, room. split_and!; [done..| |].
      * autorewrite with server. rewrite decide_True by done.
        intros id' [[Hin Hne]%elem_of_difference _]%elem_of_difference.
        destruct (Hinv room id' Hin) as (? & [->|[? ?]]);
          cbn [actor]; rewrite !elem_of_difference, elem_of_union,
          elem_of_difference, ?elem_of_singleton in *; naive_solver.
      * autorewrite with server. rewrite dom_delete_L.
        intros id' [[Hin Hne]%elem_of_difference _]%elem_of_difference.
        destruct (Hinv room id' Hin) as (? & ?).
        by apply elem_of_difference.
    + by autorewrite with server.
Qed.

(** X28. In every reachable state and for every inbound event, each
    user_joined and user_left notice is addressed to the affected room
    without the acting connection and reaches only connected sockets that
    are in that room's presence set or that the room is named after, a
    user_left notice never the one who left; each room_updated and
    room_created event is addressed to all and reaches exactly the
    connected clients. *)
Theorem notices_stay_near_room d tick inputs i :
  Forall (audience_rule i (run inputs (boot d tick)).1
            (handle i (run inputs (boot d tick)).1).1)
    (handle i (run inputs (boot d tick)).1).2.
Proof. apply handle_audience, run_transport_inv, boot_transport_inv. Qed.

(** C7. A connection whose session has no current room sends a message: the
    state is unchanged (nothing persisted, no presence or session change) and
    the one event emitted is an error to that connection alone. *)
Theorem send_message_no_room id text now now' data s :
  sockets s !! id = Some data → currentRoom data = None →
  handle (SendMessage id text now now') s
  = (s, [socket_emit id (error "You must join a room first")]).
Proof.
  intros Hdata Hroom. unfold handle. simpl. rewrite Hdata.
  unfold send_message. by rewrite Hroom.
Qed.

(** X23. Joining a room that is not in the catalog from outside any room (or
    from the room named by the empty string): one error to the caller, state
    unchanged. *)
Lemma join_room_absent_no_room id roomName now now' data s :
  sockets s !! id = Some data → truthy (currentRoom data) = false →
  database.roomExists roomName (store s) = false →
  handle (JoinRoom id roomName now now') s
  = (s, [socket_emit id (error "Room does not exist")]).
Proof.
  intros Hdata Hroom Hexists. unfold handle. simpl. rewrite Hdata.
  unfold join_room, leave_previous. rewrite Hroom. simpl.
  apply bool_decide_eq_false in Hexists.
  destruct (currentRoom data);
    (destruct (database.getRoomByName roomName (store s)) eqn:Hget;
     [destruct Hexists; unfold database.getRoomByName in Hget; by rewrite Hget
     |done]).
Qed.

(** X24. The same request from inside another room: the caller is first
    taken out of that room, with the notices that go with it, and then told
    the room does not exist; its session is not touched. *)
Lemma join_room_absent_in_room id roomName now now' data previous s :
  sockets s !! id = Some data → currentRoom data = Some previous →
  previous ≠ EmptyString → previous ≠ roomName →
  database.roomExists roomName (store s) = false →
  let s' := roomUsers_delete id previous (socket_leave id previous s) in
  handle (JoinRoom id roomName now now') s
  = (s', [socket_to s' previous id
            (user_left (username data) (username data +:+ " left the room")
               (toISOString now));
          io_emit s' (room_updated (room_info s' previous));
          socket_emit id (error "Room does not exist")])
  ∧ sockets s' = sockets s
  ∧ presence s' previous = presence s previous ∖ {[id]}.
Proof.
  intros Hdata Hprevious Hne Hother Hexists s'. unfold handle. simpl.
  rewrite Hdata. unfold join_room, leave_previous. rewrite Hprevious. simpl.
  destruct (String.eqb_spec previous EmptyString) as [|_]; [done|].
  destruct (String.eqb_spec previous roomName) as [|_]; [done|]. simpl.
  apply bool_decide_eq_false in Hexists. fold s'.
  replace (store s') with (store s) by done.
  destruct (database.getRoomByName roomName (store s)) eqn:Hget.
  { destruct Hexists. unfold database.getRoomByName in Hget. by rewrite Hget. }
  split_and!; [done..|]. unfold s'. autorewrite with server.
  by rewrite decide_True.
Qed.
End coordinator.

(** ** The coordinator: sessions and presence sets *)

Lemma sockets_set_currentRoom id current s :
  sockets (set_currentRoom id current s)
  = alter (λ data, {| username := username data; currentRoom := current |})
      id (sockets s).
Proof. reflexivity. Qed.

Section sessions.
Context `{SqlEngine}.

Lemma presence_boot d tick room : presence (boot d tick) room = ∅.
Proof. unfold presence. simpl. by rewrite lookup_empty. Qed.

Lemma join_invariant_boot d tick : join_invariant (boot d tick).
Proof.
  split_and!; [split|..].
  - intros id data room Hdata. simpl in Hdata. by rewrite lookup_empty in Hdata.
  - intros id room. rewrite presence_boot. by intros ?%elem_of_empty.
  - intros id data Hdata. simpl in Hdata. by rewrite lookup_empty in Hdata.
  - intros room id. rewrite presence_boot. by intros ?%elem_of_empty.
Qed.

Lemma join_invariant_connection id rnd s :
  sockets s !! id = None →
  join_invariant s → join_invariant (connection id rnd s).1.
Proof.
  intros Hfresh ([Hfwd Hconv] & Hnonempty & Hrooms). simpl.
  split_and!; [split|..].
  - intros id' data room. simpl.
    destruct (decide (id' = id)) as [->|Hne].
    + rewrite lookup_insert_eq. by intros [= <-].
    + rewrite lookup_insert_ne by done. apply Hfwd.
  - intros id' room Hin. destruct (Hconv id' room Hin) as (data & Hdata & Hroom).
    exists data. split; [|done]. simpl. rewrite lookup_insert_ne; [done|].
    intros <-. congruence.
  - intros id' data. simpl. destruct (decide (id' = id)) as [->|Hne].
    + rewrite lookup_insert_eq. by intros [= <-].
    + rewrite lookup_insert_ne by done. apply Hnonempty.
  - done.
Qed.

(** The state a join ends in, when the room is in the catalog. *)
Lemma join_room_state id roomName now now' data s :
  database.roomExists roomName (store s) = true →
  (join_room id roomName now now' data s).1
  = roomUsers_add id roomName
      (set_currentRoom id (Some roomName)
         (socket_join id roomName
            (leave_previous id roomName now data s).1)).
Proof.
  intros [r Hr]%bool_decide_eq_true. unfold join_room.
  pose proof (leave_previous_store id roomName now data s) as Hstore.
  destruct (leave_previous id roomName now data s) as [s1 out1].
  simpl in Hstore. unfold database.getRoomByName. by rewrite Hstore, Hr.
Qed.

(** Presence after the leaving block: the caller is out of its previous
    room, unless that is the room asked for or the empty name. *)
Lemma presence_leave_previous id roomName now data s room :
  presence (leave_previous id roomName now data s).1 room
  = if decide (currentRoom data = Some room ∧ room ≠ EmptyString ∧ room ≠ roomName)
    then presence s room ∖ {[id]} else presence s room.
Proof.
  unfold leave_previous. destruct (currentRoom data) as [previous|] eqn:Hprev.
  - simpl. destruct (String.eqb_spec previous EmptyString) as [->|Hne]; simpl.
    { rewrite decide_False; [done|]. intros ([= <-] & ? & _). done. }
    destruct (String.eqb_spec previous roomName) as [->|Hne']; simpl.
    { rewrite decide_False; [done|]. intros ([= <-] & _ & ?). done. }
    autorewrite with server. destruct (decide (room = previous)) as [->|Hroom].
    + by rewrite decide_True.
    + rewrite decide_False; [done|]. intros ([= <-] & _). done.
  - case_decide as Hcase; [by destruct Hcase|done].
Qed.

Lemma join_invariant_join_room id roomName now now' data s :
  sockets s !! id = Some data → roomName ≠ EmptyString →
  database.roomExists roomName (store s) = true →
  join_invariant s → join_invariant (join_room id roomName now now' data s).1.
Proof.
  intros Hdata Hname Hexists ([Hfwd Hconv] & Hnonempty & Hrooms).
  rewrite join_room_state by done.
  assert (∀ room,
            presence (roomUsers_add id roomName
                        (set_currentRoom id (Some roomName)
                           (socket_join id roomName
                              (leave_previous id roomName now data s).1))) room
            = if decide (room = roomName) then {[id]} ∪ presence s roomName
              else if decide (currentRoom data = Some room)
                   then presence s room ∖ {[id]} else presence s room)
    as Hpresence.
  { intros room. autorewrite with server. rewrite !presence_leave_previous.
    destruct (decide (room = roomName)) as [->|Hne].
    - rewrite decide_False; [done|]. by intros (_ & _ & ?).
    - destruct (decide (currentRoom data = Some room)) as [Hroom|Hroom].
      + rewrite decide_True; [done|]. split_and!; [done| |done].
        intros ->. by apply (Hnonempty id data).
      + rewrite decide_False; [done|]. by intros [? _]. }
  split_and!; [split|..].
  - intros id' data' room. rewrite Hpresence.
    autorewrite with server. rewrite sockets_set_currentRoom.
    autorewrite with server. rewrite leave_previous_sockets.
    destruct (decide (id' = id)) as [->|Hne].
    + rewrite lookup_alter_eq, Hdata. simpl. intros [= <-] [= <-]. simpl.
      rewrite decide_True by done. apply elem_of_union_l.
      by apply elem_of_singleton.
    + rewrite lookup_alter_ne by done. intros Hdata' Hroom'.
      specialize (Hfwd id' data' room Hdata' Hroom').
      repeat case_decide; subst; rewrite ?elem_of_union, ?elem_of_difference,
        ?elem_of_singleton; auto.
  - intros id' room. rewrite Hpresence.
    autorewrite with server. rewrite sockets_set_currentRoom.
    autorewrite with server. rewrite leave_previous_sockets.
    intros Hin. destruct (decide (id' = id)) as [->|Hne].
    + rewrite lookup_alter_eq, Hdata. simpl. eexists. split; [done|]. simpl.
      repeat case_decide; subst; [done| |].
      * apply elem_of_difference in Hin as [_ Hin].
        by destruct Hin; apply elem_of_singleton.
      * destruct (Hconv id room Hin) as (data' & Hdata' & Hroom'). congruence.
    + rewrite lookup_alter_ne by done. apply Hconv.
      repeat case_decide; subst; [|by apply elem_of_difference in Hin as [? _]
                                  |done].
      apply elem_of_union in Hin as [Hin|Hin]; [|done].
      by apply elem_of_singleton in Hin.
  - intros id' data'. autorewrite with server. rewrite sockets_set_currentRoom.
    autorewrite with server. rewrite leave_previous_sockets.
    destruct (decide (id' = id)) as [->|Hne].
    + rewrite lookup_alter_eq, Hdata. simpl. intros [= <-]. simpl. congruence.
    + rewrite lookup_alter_ne by done. apply Hnonempty.
  - intros room id'. rewrite Hpresence. autorewrite with server.
    rewrite leave_previous_store. intros Hin.
    repeat case_decide; subst; [done| |by apply (Hrooms room id')].
    apply (Hrooms room id'). by apply elem_of_difference in Hin as [? _].
Qed.

Lemma join_invariant_store d s :
  (∀ room, database.roomExists room (store s) = true →
           database.roomExists room d = true) →
  join_invariant s → join_invariant (set_store d s).
Proof.
  intros Hkeep (Hconsistent & Hnonempty & Hrooms).
  split_and!; [done..|]. intros room id Hin. by apply Hkeep, (Hrooms room id).
Qed.

Lemma join_invariant_send_message id text now now' data s :
  join_invariant s → join_invariant (send_message id text now now' data s).1.
Proof.
  intros Hinv. unfold send_message.
  destruct (currentRoom data) as [room|]; [|done].
  destruct (truthy _); [|done].
  destruct (database.saveMessage _ _ _ _ _ _) as [[saved d]|] eqn:Hsave;
    [|done].
  apply join_invariant_store; [|done]. intros room' Hroom'.
  by rewrite (roomExists_saveMessage _ _ _ _ _ _ _ _ _ Hsave).
Qed.

Lemma join_invariant_create_room id roomName now s :
  join_invariant s → join_invariant (create_room id roomName now s).1.
Proof.
  intros Hinv. unfold create_room.
  destruct (database.roomExists roomName (store s)) eqn:Hexists; [done|].
  pose proof (roomExists_createRoom) as Hkeep.
  destruct (database.createRoom roomName now (store s)) as [created d] eqn:Hd.
  assert (join_invariant (set_store d s)) as ([Hfwd Hconv] & Hnonempty & Hrooms).
  { apply join_invariant_store; [|done]. intros room Hroom.
    specialize (Hkeep room roomName now (store s) Hroom).
    by rewrite Hd in Hkeep. }
  destruct Hinv as (_ & _ & Hrooms0).
  assert (presence s roomName = ∅) as Hempty.
  { apply set_eq. intros id'. split; [|by intros ?%elem_of_empty].
    intros Hin. specialize (Hrooms0 roomName id' Hin). congruence. }
  destruct created; [|by split_and!; [split|..]].
  assert (∀ room, presence (roomUsers_reset roomName (set_store d s)) room
                  = presence s room) as Hpresence.
  { intros room. autorewrite with server. case_decide; by subst. }
  split_and!; [split|..]; simpl.
  - intros id' data room. rewrite Hpresence. apply Hfwd.
  - intros id' room. rewrite Hpresence. apply Hconv.
  - done.
  - intros room id'. rewrite Hpresence. apply Hrooms.
Qed.

Lemma join_invariant_disconnect id now data s :
  sockets s !! id = Some data →
  join_invariant s →
  join_invariant (disconnect id now data (socket_close id s)).1.
Proof.
  intros Hdata ([Hfwd Hconv] & Hnonempty & Hrooms).
  assert (∀ room,
            presence (disconnect id now data (socket_close id s)).1 room
            = presence s room ∖ {[id]}) as Hpresence.
  { intros room. unfold disconnect.
    destruct (currentRoom data) as [current|] eqn:Hcurrent; simpl.
    - destruct (String.eqb_spec current EmptyString) as [->|Hne]; simpl.
      { by destruct (Hnonempty id data Hdata). }
      autorewrite with server. case_decide; subst; [done|].
      symmetry. apply difference_disjoint_L, disjoint_singleton_r.
      intros Hin. destruct (Hconv id room Hin) as (data' & ? & ?). congruence.
    - autorewrite with server.
      symmetry. apply difference_disjoint_L, disjoint_singleton_r.
      intros Hin. destruct (Hconv id room Hin) as (data' & ? & ?). congruence. }
  assert (sockets (disconnect id now data (socket_close id s)).1
          = delete id (sockets s)) as Hsockets.
  { unfold disconnect. destruct (currentRoom data); [|done].
    by destruct (truthy _). }
  assert (store (disconnect id now data (socket_close id s)).1 = store s)
    as Hstore.
  { unfold disconnect. destruct (currentRoom data); [|done].
    by destruct (truthy _). }
  split_and!; [split|..].
  - intros id' data' room. rewrite Hpresence, Hsockets.
    intros [Hne Hdata']%lookup_delete_Some Hroom.
    apply elem_of_difference. split; [by eapply Hfwd|].
    by intros ?%elem_of_singleton.
  - intros id' room. rewrite Hpresence, Hsockets.
    intros [Hin Hne]%elem_of_difference.
    destruct (Hconv id' room Hin) as (data' & Hdata' & Hroom).
    exists data'. split; [|done]. apply lookup_delete_Some. split; [|done].
    intros <-. by apply Hne, elem_of_singleton.
  - intros id' data'. rewrite Hsockets.
    intros [_ Hdata']%lookup_delete_Some. by eapply Hnonempty.
  - intros room id'. rewrite Hpresence, Hstore.
    intros [Hin _]%elem_of_difference. by eapply Hrooms.
Qed.

Lemma join_invariant_handle i s :
  join_exists i s → join_invariant s → join_invariant (handle i s).1.
Proof.
  intros Hjoin Hinv. unfold handle.
  destruct i; simpl; destruct (sockets s !! _) as [data|] eqn:Hdata;
    try done.
  - by apply join_invariant_connection.
  - destruct Hjoin. by apply join_invariant_join_room.
  - by apply join_invariant_send_message.
  - by rewrite typing_state.
  - by apply join_invariant_create_room.
  - by apply join_invariant_disconnect.
Qed.

(** As long as every join names a room of the catalog other than the empty
    string, sessions and presence sets mirror each other in every state
    reached. *)
Theorem presence_consistent_when_joins_exist d tick inputs :
  (∀ before i after, inputs = before ++ i :: after →
                     join_exists i (run before (boot d tick)).1) →
  presence_consistent (run inputs (boot d tick)).1.
Proof.
  intros Hjoins. cut (join_invariant (run inputs (boot d tick)).1).
  { by intros [? _]. }
  induction inputs as [|i inputs IH] using rev_ind.
  - apply join_invariant_boot.
  - rewrite run_snoc. simpl. apply join_invariant_handle.
    + by apply (Hjoins inputs i []).
    + apply IH. intros before i' after ->.
      apply (Hjoins before i' (after ++ [i])). by rewrite <- app_assoc.
Qed.
End sessions.

(** ** Worked runs of the coordinator *)

Lemma send_message_no_room_witness :
  @handle scan_order_engine (SendMessage "a" "hello" morning (later 1))
    (@run scan_order_engine [Connect "a" 7] fresh_server).1
  = ((@run scan_order_engine [Connect "a" 7] fresh_server).1,
     [socket_emit "a" (error "You must join a room first")]).
Proof.
  apply (@send_message_no_room scan_order_engine "a" "hello" morning (later 1)
           {| username := "Anonymous-7"; currentRoom := None |}).
  - vm_compute. reflexivity.
  - reflexivity.
Defined.

(** C1, at the input where the code departs from it.  A client in "General"
    asks to join "Nowhere", which is not in the catalog.  The handler has
    already taken the client out of "General" when it finds the room
    missing: the presence set of "General" goes from the client to empty,
    three events are emitted (a user_left notice, a room_updated broadcast
    and the error), and the session still names "General" as its room. *)
Theorem join_room_absent_from_room :
  let s := in_general in
  let result :=
    @handle scan_order_engine (JoinRoom "a" "Nowhere" (later 1) (later 2)) s in
  database.roomExists "Nowhere" (store s) = false
  ∧ elements (presence s "General") = ["a"]
  ∧ elements (presence result.1 "General") = []
  ∧ currentRoom <$> sockets result.1 !! "a" = Some (Some "General")
  ∧ event <$> result.2
    = [user_left "Anonymous-7" "Anonymous-7 left the room"
         "2026-03-14T10:00:01.007Z";
       room_updated {| ri_name := "General"; ri_userCount := 0;
                       ri_messageCount := 0 |};
       error "Room does not exist"].
Proof. vm_compute. by split_and!. Qed.

(** C2, at the input where the code departs from it.  After connect, join
    "General", join "Nowhere" the session's current room is "General" while
    the presence set of "General" no longer holds the connection. *)
Theorem presence_consistent_broken :
  ¬ presence_consistent
      (@handle scan_order_engine
         (JoinRoom "a" "Nowhere" (later 1) (later 2)) in_general).1.
Proof.
  intros [Hforward _].
  specialize (Hforward "a" {| username := "Anonymous-7";
                              currentRoom := Some "General" |} "General").
  assert ("a" ∉ presence
            (@handle scan_order_engine
               (JoinRoom "a" "Nowhere" (later 1) (later 2)) in_general).1
            "General") as Hnot by by_evaluation.
  apply Hnot, Hforward; [vm_compute|]; reflexivity.
Qed.

(** The other direction fails on a room named by the empty string, which
    the handlers' truthiness tests take for no room at all: after joining it
    and then "General", the connection is in both presence sets. *)
Lemma presence_consistent_broken_empty_name :
  ¬ presence_consistent
      (@run scan_order_engine
         [Connect "a" 7; CreateRoom "a" EmptyString morning;
          JoinRoom "a" EmptyString morning morning;
          JoinRoom "a" "General" (later 1) (later 2)] fresh_server).1.
Proof.
  intros [_ Hconverse].
  destruct (Hconverse "a" EmptyString) as (data & Hdata & Hroom); [by_evaluation|].
  vm_compute in Hdata. by simplify_eq.
Qed.

(** C5, at the input where the code departs from it.  The client behind
    socket "b" has created a room named "b" and is in no room; the client
    behind socket "a" moves from "General" into that room.  The user_joined
    notice is addressed to room "b" without "a", and the one socket it
    reaches is "b": the transport keeps every socket in the room named by
    its id, which here is the transport room of the catalog room.  Socket
    "b" is neither before nor after the join in the presence set of room
    "b", whose one occupant is "a", and its session names no room. *)
Theorem user_joined_reaches_outsider :
  let s := named_after_b in
  let result :=
    @handle scan_order_engine (JoinRoom "a" "b" (later 1) (later 2)) s in
  database.roomExists "b" (store s) = true
  ∧ currentRoom <$> sockets s !! "b" = Some None
  ∧ currentRoom <$> sockets result.1 !! "b" = Some None
  ∧ elements (presence s "b") = []
  ∧ elements (presence result.1 "b") = ["a"]
  ∧ (λ e, (event e, target e, elements (recipients e))) <$> result.2
    = [(user_left "Anonymous-7" "Anonymous-7 left the room"
          "2026-03-14T10:00:01.007Z",
        to_room_except "General" "a", []);
       (room_updated {| ri_name := "General"; ri_userCount := 0;
                        ri_messageCount := 0 |},
        to_all, ["a"; "b"]);
       (message_history [], to_socket "a", ["a"]);
       (joined_room "b" "Anonymous-7", to_socket "a", ["a"]);
       (user_joined "Anonymous-7" "Anonymous-7 joined the room"
          "2026-03-14T10:00:02.007Z",
        to_room_except "b" "a", ["b"]);
       (room_updated {| ri_name := "b"; ri_userCount := 1;
                        ri_messageCount := 0 |},
        to_all, ["a"; "b"])].
Proof. vm_compute. by split_and!. Qed.

(** A socket can also leave the room named by its id: after joining a
    catalog room of that name and moving on to "General", nothing is
    excepted any more from what the socket sends to a room, and the notice
    of joining comes back to the one who joined. *)
Lemma user_joined_reaches_actor :
  let s := (@run scan_order_engine
              [Connect "a" 7; CreateRoom "a" "a" morning;
               JoinRoom "a" "a" morning morning] fresh_server).1 in
  let result :=
    @handle scan_order_engine
      (JoinRoom "a" "General" (later 1) (later 2)) s in
  (λ e, (event e, target e, elements (recipients e))) <$> result.2 !! 4
  = Some (user_joined "Anonymous-7" "Anonymous-7 joined the room"
            "2026-03-14T10:00:02.007Z",
          to_room_except "General" "a", ["a"]).
Proof. vm_compute. reflexivity. Qed.

(** * Further properties of the store *)

Section store_reads.
Context `{SqlEngine}.

Lemma StronglySorted_take {A} (R : relation A) (l : list A) n :
  StronglySorted R l → StronglySorted R (take n l).
Proof.
  intros Hl. rewrite <- (take_drop n l) in Hl.
  by apply StronglySorted_app_1_l in Hl.
Qed.

(** X1. A history read returns as many messages as the room counts, up to
    100; each carries the room name asked for and is built from a stored
    row; they come in ascending order of their timestamp text. *)
Theorem history_shape name d :
  length (database.getMessagesByRoom name d)
  = 100 `min` database.getMessageCount name d
  ∧ Forall (λ h, msg_room h = name
                 ∧ ∃ m, m ∈ messages d
                        ∧ msg_id h = toString (m_id m)
                        ∧ msg_text h = m_text m
                        ∧ msg_username h = m_username m
                        ∧ msg_timestamp h = m_timestamp m)
      (database.getMessagesByRoom name d)
  ∧ StronglySorted (λ h h', String.le (msg_timestamp h) (msg_timestamp h'))
      (database.getMessagesByRoom name d).
Proof.
  unfold database.getMessagesByRoom, database.getMessageCount,
    statements.getMessageCount.
  split_and!.
  - unfold statements.getMessagesByRoom.
    by rewrite length_fmap, length_take, order_by_perm.
  - apply Forall_forall. intros h (row & -> & Hrow)%list_elem_of_fmap.
    apply getMessagesByRoom_rows in Hrow as (Hm & _ & Hname).
    split; [done|]. by exists row.1.
  - unfold statements.getMessagesByRoom.
    eapply (StronglySorted_fmap _ (key_asc (λ p, m_timestamp p.1)));
      [by intros x y|].
    apply StronglySorted_take, order_by_sorted.
Qed.
End store_reads.

(** ** Appends: what is kept, and what is left alone *)

Lemma NoDup_fmap_elem_inj {A K} (f : A → K) (l : list A) x y :
  NoDup (f <$> l) → x ∈ l → y ∈ l → f x = f y → x = y.
Proof.
  induction l as [|z l IH]; intros Hnd Hx Hy Heq.
  - by apply elem_of_nil in Hx.
  - rewrite fmap_cons in Hnd. apply NoDup_cons in Hnd as [Hz Hnd].
    apply elem_of_cons in Hx as [->|Hx]; apply elem_of_cons in Hy as [->|Hy].
    + done.
    + destruct Hz. rewrite Heq. by apply list_elem_of_fmap_2.
    + destruct Hz. rewrite <- Heq. by apply list_elem_of_fmap_2.
    + by apply IH.
Qed.

(** Picking rows by the keys of some of the table's rows picks those rows. *)
Lemma filter_keys_perm {A K} `{EqDecision K} (f : A → K) (l l' : list A) :
  NoDup (f <$> l) → l' ⊆+ l → filter (λ x, f x ∈ f <$> l') l ≡ₚ l'.
Proof.
  intros Hnd Hsub.
  assert (NoDup l) as Hl by by apply NoDup_fmap_1 in Hnd.
  apply NoDup_Permutation.
  - by apply NoDup_filter.
  - apply submseteq_Permutation in Hsub as [k Hk]. rewrite Hk in Hl.
    by apply NoDup_app in Hl as [? _].
  - intros x. rewrite list_elem_of_filter. split.
    + intros [(y & Heq & Hy)%list_elem_of_fmap Hx].
      assert (x = y) as -> ; [|done].
      apply (NoDup_fmap_elem_inj f l); [done|done| |done].
      by eapply elem_of_submseteq.
    + intros Hx. split; [by apply list_elem_of_fmap_2|].
      by eapply elem_of_submseteq.
Qed.

Section appends_kept.
Context `{SqlEngine}.

(** The rows of the room after an append: the first 100 of the room's rows,
    the new one included, in the engine's descending timestamp order. *)
Lemma saveMessage_room_rows roomName username text now now' d room :
  db_wf d → statements.getRoomByName roomName d = Some room →
  (messages_seq d < max_rowid)%Z →
  let row := {| m_id := (messages_seq d + 1)%Z; m_room_id := r_id room;
                m_username := username; m_text := text;
                m_timestamp := CURRENT_TIMESTAMP now |} in
  ∃ saved d',
    database.saveMessage roomName username text now now' d = Some (saved, d')
    ∧ sv_id saved = toString (messages_seq d + 1)
    ∧ db_wf d'
    ∧ statements.getRoomByName roomName d' = Some room
    ∧ room_messages (r_id room) d'
      ≡ₚ take 100 (order_by_desc m_timestamp
                     (room_messages (r_id room) d ++ [row])).
Proof.
  intros Hwf Hroom Hseq row.
  rewrite (saveMessage_Some _ _ _ _ _ _ room Hroom Hseq).
  eexists _, _. split; [reflexivity|]. split; [reflexivity|].
  set (d1 := after_insert (r_id room) username text now d).
  assert (db_wf d1) as Hwf1 by by apply stmt_saveMessage_wf.
  split; [by apply deleteOldMessages_wf|]. split; [done|].
  rewrite room_messages_deleteOldMessages. unfold statements.newest_ids.
  subst row. rewrite <- (room_messages_insert (r_id room) username text now d).
  fold d1. apply (filter_keys_perm m_id).
  - by apply room_messages_NoDup.
  - etrans; [apply sublist_submseteq, sublist_take|].
    by rewrite order_by_desc_perm.
Qed.

(** X2. While the message counter is below the largest rowid, an append to
    a room of the catalog succeeds and returns the next rowid, converted to
    a string, as the id; afterwards the room holds the first 100 of its
    former rows and the new one in descending timestamp order, so its count
    is the former count plus one, capped at 100. *)
Theorem saveMessage_keeps_newest roomName username text now now' d room :
  db_wf d → statements.getRoomByName roomName d = Some room →
  (messages_seq d < max_rowid)%Z →
  ∃ saved d',
    database.saveMessage roomName username text now now' d = Some (saved, d')
    ∧ sv_id saved = toString (messages_seq d + 1)
    ∧ room_messages (r_id room) d'
      ≡ₚ take 100
           (order_by_desc m_timestamp
              (room_messages (r_id room) d
               ++ [{| m_id := (messages_seq d + 1)%Z; m_room_id := r_id room;
                      m_username := username; m_text := text;
                      m_timestamp := CURRENT_TIMESTAMP now |}]))
    ∧ database.getMessageCount roomName d'
      = 100 `min` S (database.getMessageCount roomName d).
Proof.
  intros Hwf Hroom Hseq.
  destruct (saveMessage_room_rows roomName username text now now' d room)
    as (saved & d' & Hsave & Hid & Hwf' & Hroom' & Hrows); [done..|].
  exists saved, d'. split_and!; [done..|].
  rewrite (getMessageCount_room roomName d' room) by done.
  rewrite (getMessageCount_room roomName d room) by done.
  rewrite Hrows, length_take, order_by_desc_perm, length_app.
  change (length [_]) with 1.
  lia.
Qed.

(** X3. Below the cap, and while the message counter is below the largest
    rowid, an append is read back: the room's count grows by one, the
    history keeps every message it had and gains one with the returned id,
    the author, the text, the room name and the store's timestamp. *)
Theorem saveMessage_then_history roomName username text now now' d :
  db_wf d → database.roomExists roomName d = true →
  database.getMessageCount roomName d < 100 →
  (messages_seq d < max_rowid)%Z →
  ∃ saved d',
    database.saveMessage roomName username text now now' d = Some (saved, d')
    ∧ database.getMessageCount roomName d'
      = S (database.getMessageCount roomName d)
    ∧ database.getMessagesByRoom roomName d'
      ≡ₚ database.getMessagesByRoom roomName d
         ++ [{| msg_id := sv_id saved; msg_text := text;
                msg_username := username; msg_room := roomName;
                msg_timestamp := CURRENT_TIMESTAMP now |}].
Proof.
  intros Hwf [room Hroom]%bool_decide_eq_true Hcount Hseq.
  destruct (saveMessage_room_rows roomName username text now now' d room)
    as (saved & d' & Hsave & Hid & Hwf' & Hroom' & Hrows); [done..|].
  exists saved, d'. split; [done|].
  rewrite (getMessageCount_room roomName d room) in * by done.
  rewrite take_ge, order_by_desc_perm in Hrows
    by (rewrite order_by_desc_perm, length_app; simpl; lia).
  split.
  - rewrite (getMessageCount_room roomName d' room) by done.
    rewrite Hrows, length_app. simpl. lia.
  - unfold database.getMessagesByRoom, statements.getMessagesByRoom.
    rewrite (messages_join_rooms_Some roomName d' room) by done.
    rewrite (messages_join_rooms_Some roomName d room) by done.
    rewrite !take_ge
      by (rewrite order_by_perm, length_fmap, ?Hrows, ?length_app;
          simpl; lia).
    rewrite !order_by_perm, Hrows, !fmap_app, Hid.
    apply getRoomByName_Some in Hroom as [_ <-]. done.
Qed.

(** An append to one room leaves the join of every other name as it was. *)
Lemma messages_join_rooms_saveMessage_ne roomName username text now now' d
    saved d' name :
  db_wf d →
  database.saveMessage roomName username text now now' d = Some (saved, d') →
  name ≠ roomName →
  statements.messages_join_rooms name d'
  = statements.messages_join_rooms name d.
Proof.
  intros Hwf Hsave Hne.
  pose proof (saveMessage_wf _ _ _ _ _ _ _ _ Hwf Hsave) as Hwf'.
  pose proof (saveMessage_rooms _ _ _ _ _ _ _ _ Hsave) as [Hrooms _].
  pose proof (getRoomByName_rooms name d d' Hrooms) as Hsame.
  destruct (statements.getRoomByName name d) as [r|] eqn:Hr.
  - rewrite (messages_join_rooms_Some name d' r),
      (messages_join_rooms_Some name d r) by done.
    f_equal.
    apply saveMessage_inv in Hsave as (room & Hroom & _ & _ & ->).
    assert (r_id r ≠ r_id room) as Hid.
    { intros Heq. apply getRoomByName_Some in Hr as [Hr Hn].
      apply getRoomByName_Some in Hroom as [Hroom Hn'].
      apply Hne. rewrite <- Hn, <- Hn'. f_equal.
      by apply (NoDup_fmap_elem_inj r_id (rooms d)); [apply Hwf|..]. }
    rewrite room_messages_deleteOldMessages_ne by done.
    unfold room_messages. simpl. rewrite filter_app, filter_cons. simpl.
    rewrite decide_False by done. by rewrite filter_nil, app_nil_r.
  - by rewrite !messages_join_rooms_None.
Qed.

(** X4. An append to one room leaves the catalog, and the count and the
    history of every other name, as they were. *)
Theorem saveMessage_other_rooms roomName username text now now' d saved d' :
  db_wf d →
  database.saveMessage roomName username text now now' d = Some (saved, d') →
  rooms d' = rooms d
  ∧ ∀ name, name ≠ roomName →
      database.getMessageCount name d' = database.getMessageCount name d
      ∧ database.getMessagesByRoom name d' = database.getMessagesByRoom name d.
Proof.
  intros Hwf Hsave.
  pose proof (saveMessage_rooms _ _ _ _ _ _ _ _ Hsave) as [Hrooms _].
  split; [done|]. intros name Hne.
  unfold database.getMessageCount, statements.getMessageCount,
    database.getMessagesByRoom, statements.getMessagesByRoom.
  by rewrite (messages_join_rooms_saveMessage_ne _ _ _ _ _ _ _ _ _ Hwf Hsave).
Qed.
End appends_kept.

(** ** Ids and timestamps at the interface *)

Section append_and_history.
Context `{SqlEngine}.

(** The row an append inserted, if it is still in the table afterwards, is
    read back by the history of the room appended to. *)
Lemma saveMessage_row_read roomName username text now now' d saved d' m :
  db_wf d →
  database.saveMessage roomName username text now now' d = Some (saved, d') →
  m ∈ messages d' → m_id m = (messages_seq d + 1)%Z →
  {| msg_id := toString (m_id m); msg_text := text;
     msg_username := username; msg_room := roomName;
     msg_timestamp := CURRENT_TIMESTAMP now |}
  ∈ database.getMessagesByRoom roomName d'.
Proof.
  intros Hwf Hsave Hm Hid.
  pose proof (saveMessage_wf _ _ _ _ _ _ _ _ Hwf Hsave) as Hwf'.
  pose proof (saveMessage_rooms _ _ _ _ _ _ _ _ Hsave) as [Hrooms _].
  destruct (saveMessage_new_row _ _ _ _ _ _ _ _ m Hwf Hsave Hm Hid)
    as (Huser & Htext & Hstamp).
  apply saveMessage_inv in Hsave as (room & Hroom & Hseq & _ & Hd').
  assert (statements.getRoomByName roomName d' = Some room) as Hroom'
    by by rewrite (getRoomByName_rooms roomName d d').
  assert (m_room_id m = r_id room) as Hrid.
  { rewrite Hd' in Hm. apply list_elem_of_filter in Hm as [_ Hm]. simpl in Hm.
    apply elem_of_app in Hm as [Hm|Hm];
      [|by apply list_elem_of_singleton in Hm as ->].
    pose proof (wf_msg_seq d Hwf) as Hle. rewrite Forall_forall in Hle.
    specialize (Hle m Hm). lia. }
  assert (length (room_messages (r_id room) d') ≤ 100) as Hcap.
  { rewrite Hd'. by apply deleteOldMessages_bound, stmt_saveMessage_wf. }
  unfold database.getMessagesByRoom, statements.getMessagesByRoom.
  rewrite (messages_join_rooms_Some roomName d' room) by done.
  rewrite take_ge by (by rewrite order_by_perm, length_fmap).
  apply list_elem_of_fmap. exists (m, room). split.
  - unfold database.row_to_message. simpl.
    apply getRoomByName_Some in Hroom as [_ ->].
    by rewrite Huser, Htext, Hstamp.
  - rewrite order_by_perm. apply list_elem_of_fmap. exists m.
    split; [done|]. by apply list_elem_of_filter.
Qed.

(** Below the cap the row an append inserted is in the table afterwards. *)
Lemma saveMessage_row_kept roomName username text now now' d saved d' :
  db_wf d →
  database.saveMessage roomName username text now now' d = Some (saved, d') →
  database.getMessageCount roomName d < 100 →
  {| m_id := (messages_seq d + 1)%Z;
     m_room_id := sv_room_id saved;
     m_username := username; m_text := text;
     m_timestamp := CURRENT_TIMESTAMP now |} ∈ messages d'.
Proof.
  intros Hwf Hsave Hcount.
  pose proof Hsave as (room & Hroom & Hseq & -> & _)%saveMessage_inv.
  destruct (saveMessage_room_rows roomName username text now now' d room)
    as (saved' & d'' & Hsave' & _ & _ & _ & Hrows); [done..|].
  rewrite Hsave in Hsave'. injection Hsave' as _ <-.
  rewrite (getMessageCount_room roomName d room) in Hcount by done.
  rewrite take_ge, order_by_desc_perm in Hrows
    by (rewrite order_by_desc_perm, length_app; simpl; lia).
  cbn [sv_room_id].
  eapply (proj1 (list_elem_of_filter (λ m, m_room_id m = r_id room) _ _)).
  fold (room_messages (r_id room) d'). rewrite Hrows.
  apply elem_of_app. right. by apply list_elem_of_singleton.
Qed.


(** C10. Ids leave the store as decimal strings.  The message returned by
    an append carries the inserted row's integer id converted to a string,
    and that string is a decimal numeral; every element of a history read
    is built from a row of the table and carries that row's id converted to
    a string, again a decimal numeral; and as long as the inserted row is
    in the table, which it is below the cap, the history of the room has an
    element built from it whose id is the string the append returned. *)
Theorem message_ids_decimal roomName author text now now' d saved d' :
  db_wf d →
  database.saveMessage roomName author text now now' d = Some (saved, d') →
  sv_id saved = toString (messages_seq d + 1)
  ∧ is_decimal (sv_id saved) = true
  ∧ (∀ name h, h ∈ database.getMessagesByRoom name d' →
       is_decimal (msg_id h) = true
       ∧ ∃ m, m ∈ messages d'
              ∧ msg_id h = toString (m_id m)
              ∧ msg_text h = m_text m
              ∧ msg_username h = m_username m
              ∧ msg_timestamp h = m_timestamp m)
  ∧ (∀ m, m ∈ messages d' → m_id m = (messages_seq d + 1)%Z →
       ∃ h, h ∈ database.getMessagesByRoom roomName d'
            ∧ msg_id h = toString (m_id m)
            ∧ msg_id h = sv_id saved
            ∧ msg_text h = m_text m
            ∧ msg_username h = m_username m)
  ∧ (database.getMessageCount roomName d < 100 →
     ∃ m, m ∈ messages d' ∧ m_id m = (messages_seq d + 1)%Z
          ∧ m_text m = text ∧ m_username m = author).
Proof.
  intros Hwf Hsave.
  pose proof (saveMessage_wf _ _ _ _ _ _ _ _ Hwf Hsave) as Hwf'.
  pose proof Hsave as (room & Hroom & Hseq & Hsaved & Hd')%saveMessage_inv.
  assert (sv_id saved = toString (messages_seq d + 1)) as Hid
    by by subst saved.
  assert (messages_seq d' = (messages_seq d + 1)%Z) as Hseq'
    by by subst d'.
  pose proof (wf_msg_seq_nonneg d Hwf) as Hnn.
  split_and!; [done|rewrite Hid; apply toString_decimal; lia| | |].
  - intros name h (row & -> & Hrow)%list_elem_of_fmap.
    apply getMessagesByRoom_rows in Hrow as [Hrow _].
    pose proof (wf_msg_seq d' Hwf') as Hle. rewrite Forall_forall in Hle.
    specialize (Hle _ Hrow).
    split; [apply toString_decimal; lia|]. by exists row.1.
  - intros m Hm Hmid.
    destruct (saveMessage_new_row _ _ _ _ _ _ _ _ m Hwf Hsave Hm Hmid)
      as (Huser & Htext & _).
    exists {| msg_id := toString (m_id m); msg_text := text;
              msg_username := author; msg_room := roomName;
              msg_timestamp := CURRENT_TIMESTAMP now |}.
    split; [by apply (saveMessage_row_read _ _ _ _ now' d saved d')|].
    cbn [msg_id msg_text msg_username]. by rewrite Hid, Hmid, Huser, Htext.
  - intros Hcount.
    exists {| m_id := (messages_seq d + 1)%Z; m_room_id := sv_room_id saved;
              m_username := author; m_text := text;
              m_timestamp := CURRENT_TIMESTAMP now |}.
    split; [|done].
    by apply (saveMessage_row_kept roomName author text now now' d saved d').
Qed.
End append_and_history.


Lemma message_ids_decimal_witness :
  ∃ saved d' m h,
    @database.saveMessage scan_order_engine "General" "Anonymous-7" "hello"
      morning (later 5) fresh_db = Some (saved, d')
    ∧ sv_id saved = "1" ∧ is_decimal (sv_id saved) = true
    ∧ m ∈ messages d' ∧ m_id m = 1%Z
    ∧ h ∈ @database.getMessagesByRoom scan_order_engine "General" d'
    ∧ msg_id h = "1" ∧ msg_text h = "hello".
Proof.
  eexists _, _. 
  edestruct (@message_ids_decimal scan_order_engine "General" "Anonymous-7"
               "hello" morning (later 5) fresh_db)
    as (Hid & Hdecimal & _ & Hread & Hkept);
    [exact fresh_db_wf|reflexivity|].
  destruct Hkept as (m & Hm & Hmid & Htext & _); [vm_compute; lia|].
  destruct (Hread m Hm Hmid) as (h & Hh & _ & Hsame & Hhtext & _).
  exists m, h. split; [reflexivity|].
  split_and!; [exact Hid|exact Hdecimal|exact Hm|exact Hmid|exact Hh| |].
  - by rewrite Hsame, Hid.
  - by rewrite Hhtext, Htext.
Defined.

(** ** The catalog under creation *)

Section catalog_lookup.
Context `{SqlEngine}.

Lemma roomExists_iff name d :
  database.roomExists name d = true ↔ name ∈ r_name <$> rooms d.
Proof.
  unfold database.roomExists. rewrite bool_decide_eq_true.
  rewrite <- not_eq_None_Some, getRoomByName_None.
  split; [apply dec_stable|auto].
Qed.

(** What creation does to the catalog: nothing for a name it holds, one row
    at the end for any other. *)
Lemma createRoom_rooms name now d :
  rooms (database.createRoom name now d).2
  = if decide (max_rowid ≤ rooms_seq d)%Z then rooms d
    else if decide (name ∈ r_name <$> rooms d) then rooms d
    else rooms d ++ [{| r_id := (rooms_seq d + 1)%Z; r_name := name;
                        r_created_at := CURRENT_TIMESTAMP now |}].
Proof.
  unfold database.createRoom, statements.createRoom. by repeat case_decide.
Qed.

(** The rooms counter never goes back, and moves by one at most. *)
Lemma createRoom_rooms_seq name now d :
  (rooms_seq d ≤ rooms_seq (database.createRoom name now d).2 ≤ rooms_seq d + 1)%Z.
Proof.
  unfold database.createRoom, statements.createRoom.
  pose proof (ignored_insert_seq_le (rooms_seq d)).
  pose proof (ignored_insert_seq_step (rooms_seq d)).
  repeat case_decide; simpl; lia.
Qed.

(** X5. While the rooms counter is below the largest rowid, creating a room
    reports success exactly when the name was not in the catalog, and
    afterwards the name is in the catalog.  At any counter, a row that
    already had the name is still the one found, and the lookup of every
    other name answers as before. *)
Theorem createRoom_lookup name now d :
  ((rooms_seq d < max_rowid)%Z →
     (database.createRoom name now d).1 = negb (database.roomExists name d)
     ∧ database.roomExists name (database.createRoom name now d).2 = true)
  ∧ (∀ r, database.getRoomByName name d = Some r →
          database.getRoomByName name (database.createRoom name now d).2
          = Some r)
  ∧ (∀ name', name' ≠ name →
              database.getRoomByName name' (database.createRoom name now d).2
              = database.getRoomByName name' d).
Proof.
  split_and!.
  - intros Hseq. split.
    + destruct (database.roomExists name d) eqn:Hex.
      * apply roomExists_iff in Hex.
        unfold database.createRoom, statements.createRoom.
        by rewrite decide_False, decide_True by (done || lia).
      * assert (name ∉ r_name <$> rooms d) as Hnot
          by (rewrite <- roomExists_iff; congruence).
        unfold database.createRoom, statements.createRoom.
        by rewrite !decide_False by (done || lia).
    + apply roomExists_iff. rewrite createRoom_rooms.
      rewrite decide_False by lia. case_decide; [done|].
      rewrite fmap_app. set_solver.
  - intros r Hr. unfold database.getRoomByName, statements.getRoomByName in *.
    rewrite createRoom_rooms. repeat case_decide; [done..|].
    rewrite filter_app. by destruct (filter _ (rooms d)).
  - intros name' Hne.
    unfold database.getRoomByName, statements.getRoomByName.
    rewrite createRoom_rooms. repeat case_decide; [done..|].
    rewrite filter_app, filter_cons. simpl.
    rewrite decide_False by done. by rewrite filter_nil, app_nil_r.
Qed.

(** Default rooms, creation by creation. *)
Lemma createRoom_prefix name now d :
  rooms d `prefix_of` rooms (database.createRoom name now d).2.
Proof.
  rewrite createRoom_rooms. repeat case_decide; [done..|].
  by apply prefix_app_r.
Qed.

Lemma create_each_prefix (ps : list (nat * string)) tick d :
  rooms d `prefix_of`
    rooms (foldl (λ d' p, (database.createRoom p.2 (tick p.1) d').2) d ps).
Proof.
  revert d. induction ps as [|p ps IH]; intros d; simpl; [done|].
  etrans; [|apply IH]. apply createRoom_prefix.
Qed.

Lemma create_each_messages (ps : list (nat * string)) tick d :
  messages (foldl (λ d' p, (database.createRoom p.2 (tick p.1) d').2) d ps)
  = messages d.
Proof.
  revert d. induction ps as [|p ps IH]; intros d; simpl; [done|].
  by rewrite IH, createRoom_messages.
Qed.

Lemma create_each_rooms_seq (ps : list (nat * string)) tick d :
  (rooms_seq d
   ≤ rooms_seq (foldl (λ d' p, (database.createRoom p.2 (tick p.1) d').2)
                  d ps))%Z.
Proof.
  revert d. induction ps as [|p ps IH]; intros d; simpl; [done|].
  etrans; [|apply IH]. apply createRoom_rooms_seq.
Qed.

(** Each name is created unless the counter has run out by then. *)
Lemma create_each_exists (ps : list (nat * string)) tick d name :
  name ∈ ps.*2 →
  let d' := foldl (λ d' p, (database.createRoom p.2 (tick p.1) d').2) d ps in
  name ∈ r_name <$> rooms d' ∨ (max_rowid ≤ rooms_seq d')%Z.
Proof.
  revert d. induction ps as [|p ps IH]; intros d; simpl.
  - by intros ?%elem_of_nil.
  - intros [->|Hin]%elem_of_cons; [|by apply IH].
    destruct (decide (max_rowid ≤ rooms_seq d)%Z) as [Hfull|Hroom].
    + right. etrans; [|apply create_each_rooms_seq].
      etrans; [done|]. apply createRoom_rooms_seq.
    + left.
      destruct (create_each_prefix ps tick
                  (database.createRoom p.2 (tick p.1) d).2) as [k ->].
      rewrite fmap_app, elem_of_app. left.
      rewrite createRoom_rooms. rewrite decide_False by done.
      case_decide; [done|]. rewrite fmap_app. set_solver.
Qed.

Lemma create_each_bounded (ps : list (nat * string)) tick d :
  (rooms_seq (foldl (λ d' p, (database.createRoom p.2 (tick p.1) d').2) d ps)
   ≤ rooms_seq d + Z.of_nat (length ps))%Z.
Proof.
  revert d. induction ps as [|p ps IH]; intros d; simpl length; [simpl; lia|].
  simpl. etrans; [apply IH|].
  pose proof (createRoom_rooms_seq p.2 (tick p.1) d). lia.
Qed.

Lemma create_each_exists_below (ps : list (nat * string)) tick d name :
  (rooms_seq d + Z.of_nat (length ps) ≤ max_rowid)%Z →
  name ∈ ps.*2 →
  name ∈ r_name <$>
    rooms (foldl (λ d' p, (database.createRoom p.2 (tick p.1) d').2) d ps).
Proof.
  revert d. induction ps as [|p ps IH]; intros d Hseq; simpl.
  - by intros ?%elem_of_nil.
  - simpl length in Hseq.
    pose proof (createRoom_rooms_seq p.2 (tick p.1) d) as Hstep.
    intros [->|Hin]%elem_of_cons; [|apply IH; [lia|done]].
    destruct (create_each_prefix ps tick
                (database.createRoom p.2 (tick p.1) d).2) as [k ->].
    rewrite fmap_app, elem_of_app. left.
    rewrite createRoom_rooms. rewrite decide_False by lia.
    case_decide; [done|]. rewrite fmap_app.
    apply elem_of_app. right. by apply list_elem_of_singleton.
Qed.

(** Creating names that are all there, or at a counter that has run out,
    adds nothing. *)
Lemma create_each_present (ps : list (nat * string)) tick d :
  (∀ name, name ∈ ps.*2 →
     name ∈ r_name <$> rooms d ∨ (max_rowid ≤ rooms_seq d)%Z) →
  rooms (foldl (λ d' p, (database.createRoom p.2 (tick p.1) d').2) d ps)
  = rooms d.
Proof.
  revert d. induction ps as [|p ps IH]; intros d Hall; simpl; [done|].
  assert (rooms (database.createRoom p.2 (tick p.1) d).2 = rooms d) as Hsame.
  { rewrite createRoom_rooms. case_decide; [done|].
    rewrite decide_True; [done|].
    destruct (Hall p.2) as [?|?]; [simpl; left|done|lia]. }
  rewrite IH, Hsame; [done|]. intros name Hin. rewrite Hsame.
  destruct (Hall name) as [?|?]; [simpl; by right|by left|right].
  etrans; [done|]. apply createRoom_rooms_seq.
Qed.

Lemma imap_pair_snd {A} (l : list A) : (imap pair l).*2 = l.
Proof.
  cut (∀ g : nat → nat, (imap (λ i x, (g i, x)) l).*2 = l).
  { intros Hg. apply (Hg id). }
  induction l as [|x l IH]; intros g; [done|].
  simpl. f_equal. apply (IH (g ∘ S)).
Qed.

Lemma length_imap_pair {A} (l : list A) : length (imap pair l) = length l.
Proof. apply length_imap. Qed.

(** X6. After the default rooms are initialised each of their names is in
    the catalog, provided the rooms counter leaves room for them; at any
    counter the rows the catalog had are kept, in place, no message is
    touched, and initialising again adds no row. *)
Theorem initDefaultRooms_catalog names tick d :
  let d' := database.initDefaultRooms names tick d in
  ((rooms_seq d + Z.of_nat (length names) ≤ max_rowid)%Z →
   ∀ name, name ∈ names → database.roomExists name d' = true)
  ∧ rooms d `prefix_of` rooms d'
  ∧ messages d' = messages d
  ∧ ∀ tick', rooms (database.initDefaultRooms names tick' d') = rooms d'.
Proof.
  unfold database.initDefaultRooms. split_and!.
  - intros Hseq name Hin. apply roomExists_iff, create_each_exists_below.
    + by rewrite length_imap_pair.
    + by rewrite imap_pair_snd.
  - apply create_each_prefix.
  - apply create_each_messages.
  - intros tick'. apply create_each_present. intros name Hin.
    by apply create_each_exists.
Qed.
End catalog_lookup.

(** ** References and constraints under every write *)

Section store_kept.
Context `{SqlEngine}.

Lemma empty_db_ok : store_ok empty_db.
Proof. split; [apply empty_db_wf|]. intros m Hm. by apply elem_of_nil in Hm. Qed.

Lemma createRoom_ok name now d :
  store_ok d → store_ok (database.createRoom name now d).2.
Proof.
  intros [Hwf Hrefs]. split; [by apply database_createRoom_wf|].
  intros m Hm. rewrite createRoom_messages in Hm.
  destruct (Hrefs m Hm) as (r & Hr & Hid). exists r. split; [|done].
  by eapply elem_of_prefix; [|apply createRoom_prefix].
Qed.

Lemma saveMessage_ok roomName username text now now' d saved d' :
  store_ok d →
  database.saveMessage roomName username text now now' d = Some (saved, d') →
  store_ok d'.
Proof.
  intros [Hwf Hrefs] Hsave. split; [by eapply saveMessage_wf|].
  apply saveMessage_inv in Hsave as (room & Hroom & _ & _ & ->).
  intros m [_ Hm]%list_elem_of_filter. simpl in *.
  apply elem_of_app in Hm as [Hm| ->%list_elem_of_singleton]; [by apply Hrefs|].
  exists room. by apply getRoomByName_Some in Hroom as [? _].
Qed.

Lemma initDefaultRooms_ok names tick d :
  store_ok d → store_ok (database.initDefaultRooms names tick d).
Proof.
  unfold database.initDefaultRooms. generalize (imap pair names).
  intros ps. revert d. induction ps as [|p ps IH]; intros d Hok; [done|].
  simpl. by apply IH, createRoom_ok.
Qed.

Lemma apply_write_ok d w : store_ok d → store_ok (apply_write d w).
Proof.
  intros Hok. destruct w as [name now|roomName author text now now']; simpl.
  - by apply createRoom_ok.
  - destruct (database.saveMessage _ _ _ _ _ _) as [[saved d']|] eqn:Hsave;
      [|done].
    by eapply saveMessage_ok.
Qed.

(** X7. Starting from an empty store, whatever rooms are created and
    messages appended, in whatever order: room ids, room names and message
    ids stay unique, no rowid exceeds its table's counter, and every message
    refers to a room of the catalog. *)
Theorem writes_keep_constraints writes :
  db_wf (foldl apply_write empty_db writes)
  ∧ db_refs (foldl apply_write empty_db writes).
Proof.
  change (store_ok (foldl apply_write empty_db writes)).
  induction writes as [|w writes IH] using rev_ind.
  - apply empty_db_ok.
  - rewrite foldl_app. simpl. by apply apply_write_ok.
Qed.

(** A room just created has no messages. *)
Lemma getMessageCount_created name now d :
  store_ok d → database.roomExists name d = false →
  database.getMessageCount name (database.createRoom name now d).2 = 0.
Proof.
  intros [Hwf Hrefs] Hex.
  assert (name ∉ r_name <$> rooms d) as Hnot
    by (rewrite <- roomExists_iff; congruence).
  destruct (decide (max_rowid ≤ rooms_seq d)%Z) as [Hfull|Hbelow].
  { unfold database.createRoom, statements.createRoom.
    rewrite decide_True by done. simpl.
    unfold database.getMessageCount, statements.getMessageCount.
    rewrite messages_join_rooms_None; [done|].
    by apply getRoomByName_None. }
  pose proof (database_createRoom_wf name now d Hwf) as Hwf'.
  set (row := {| r_id := (rooms_seq d + 1)%Z; r_name := name;
                 r_created_at := CURRENT_TIMESTAMP now |}).
  assert (statements.getRoomByName name (database.createRoom name now d).2
          = Some row) as Hrow.
  { unfold statements.getRoomByName. rewrite createRoom_rooms.
    rewrite !decide_False by done.
    rewrite filter_app, filter_cons, decide_True by done.
    rewrite (proj2 (filter_nil_iff _ (rooms d))); [done|].
    intros r Hr Hname. apply Hnot. rewrite <- Hname.
    by apply list_elem_of_fmap_2. }
  rewrite (getMessageCount_room name _ row) by done.
  unfold room_messages. rewrite createRoom_messages.
  rewrite (proj2 (filter_nil_iff _ (messages d))); [done|].
  intros m Hm Hid. destruct (Hrefs m Hm) as (r & Hr & Hrid).
  pose proof (wf_room_seq d Hwf) as Hseq. rewrite Forall_forall in Hseq.
  specialize (Hseq r Hr). simpl in Hid. lia.
Qed.
End store_kept.

(** * Further properties of the coordinator *)

(** ** Transport rooms and presence sets move together *)

Section steady_states.
Context `{SqlEngine}.

Lemma members_leave_previous id roomName now data s room :
  members (leave_previous id roomName now data s).1 room
  = if decide (currentRoom data = Some room ∧ room ≠ EmptyString
               ∧ room ≠ roomName)
    then members s room ∖ {[id]} else members s room.
Proof.
  unfold leave_previous. destruct (currentRoom data) as [previous|] eqn:Hprev.
  - simpl. destruct (String.eqb_spec previous EmptyString) as [->|Hne]; simpl.
    { rewrite decide_False; [done|]. intros ([= <-] & ? & _). done. }
    destruct (String.eqb_spec previous roomName) as [->|Hne']; simpl.
    { rewrite decide_False; [done|]. intros ([= <-] & _ & ?). done. }
    autorewrite with server. destruct (decide (room = previous)) as [->|Hroom].
    + by rewrite decide_True.
    + rewrite decide_False; [done|]. intros ([= <-] & _). done.
  - case_decide as Hcase; [by destruct Hcase|done].
Qed.

Lemma join_room_store id roomName now now' data s :
  store (join_room id roomName now now' data s).1 = store s.
Proof.
  unfold join_room.
  pose proof (leave_previous_store id roomName now data s) as Hstore.
  destruct (leave_previous id roomName now data s) as [s1 out1].
  by destruct (database.getRoomByName roomName (store s1)).
Qed.

Lemma disconnect_store id now data s :
  store (disconnect id now data s).1 = store s.
Proof.
  unfold disconnect. destruct (currentRoom data); [|done].
  by destruct (truthy _).
Qed.

Lemma disconnect_sockets id now data s :
  sockets (disconnect id now data s).1 = sockets s.
Proof.
  unfold disconnect. destruct (currentRoom data); [|done].
  by destruct (truthy _).
Qed.

Lemma disconnect_members id now data s room :
  members (disconnect id now data s).1 room = members s room.
Proof.
  unfold disconnect. destruct (currentRoom data); [|done].
  by destruct (truthy _).
Qed.

(** When sessions and presence sets mirror each other, a disconnect takes
    the connection out of every presence set. *)
Lemma disconnect_presence id now data s room :
  sockets s !! id = Some data → join_invariant s →
  presence (disconnect id now data (socket_close id s)).1 room
  = presence s room ∖ {[id]}.
Proof.
  intros Hdata ([Hfwd Hconv] & Hnonempty & Hrooms). unfold disconnect.
  destruct (currentRoom data) as [current|] eqn:Hcurrent; simpl.
  - destruct (String.eqb_spec current EmptyString) as [->|Hne]; simpl.
    { by destruct (Hnonempty id data Hdata). }
    autorewrite with server. case_decide; subst; [done|].
    symmetry. apply difference_disjoint_L, disjoint_singleton_r.
    intros Hin. destruct (Hconv id room Hin) as (data' & ? & ?). congruence.
  - autorewrite with server.
    symmetry. apply difference_disjoint_L, disjoint_singleton_r.
    intros Hin. destruct (Hconv id room Hin) as (data' & ? & ?). congruence.
Qed.

Lemma steady_boot d tick : store_ok d → steady (boot d tick).
Proof.
  intros Hok. split_and!.
  - apply join_invariant_boot.
  - split_and!.
    + intros room. rewrite presence_boot. apply empty_subseteq.
    + intros room id. unfold members. simpl. rewrite lookup_empty.
      by intros ?%elem_of_empty.
    + intros id. simpl. rewrite dom_empty_L. by intros ?%elem_of_empty.
  - by apply initDefaultRooms_ok.
Qed.

Lemma rooms_follow_connection id rnd s :
  rooms_follow s → rooms_follow (connection id rnd (socket_join id id s)).1.
Proof.
  intros (Hsub & Hsup & Hown). unfold connection, rooms_follow. cbn [fst].
  replace (dom (sockets (set_sockets _ _))) with ({[id]} ∪ dom (sockets s))
    by (simpl; by rewrite dom_insert_L).
  assert (∀ k s0 room, members (set_sockets k s0) room = members s0 room)
    as Hm by done.
  assert (∀ k s0 room, presence (set_sockets k s0) room = presence s0 room)
    as Hp by done.
  replace (store (set_sockets _ (socket_join id id s))) with (store s)
    by done.
  split_and!.
  - intros room. rewrite Hm, Hp. autorewrite with server.
    case_decide; subst; [|done]. etrans; [apply Hsub|]. apply union_subseteq_r.
  - intros room id'. rewrite Hm, Hp. autorewrite with server.
    rewrite elem_of_union, elem_of_singleton. intros Hin.
    assert (id' = id ∧ room = id ∨ id' ∈ members s room) as [[-> ->]|Hin'].
    { case_decide; subst; [|by right].
      apply elem_of_union in Hin as [->%elem_of_singleton|Hin]; auto. }
    + auto.
    + destruct (Hsup room id' Hin') as [?|[? ?]]; auto.
  - intros id'. rewrite Hm. autorewrite with server.
    intros [->%elem_of_singleton|Hin]%elem_of_union.
    + left. rewrite decide_True by done.
      apply elem_of_union_l. by apply elem_of_singleton.
    + destruct (Hown id' Hin) as [?|?]; [left|by right].
      case_decide; subst; [by apply elem_of_union_r|done].
Qed.

Lemma rooms_follow_leave_previous id roomName now data s :
  sockets s !! id = Some data → join_invariant s →
  rooms_follow s → rooms_follow (leave_previous id roomName now data s).1.
Proof.
  intros Hdata ([Hfwd _] & _ & Hrooms) (Hsub & Hsup & Hown). split_and!.
  - intros room. rewrite members_leave_previous, presence_leave_previous.
    case_decide; [|done]. intros id' [? ?]%elem_of_difference.
    apply elem_of_difference. split; [by apply Hsub|done].
  - intros room id'.
    rewrite members_leave_previous, presence_leave_previous,
      leave_previous_sockets.
    case_decide; [|apply Hsup]. intros [Hin Hne]%elem_of_difference.
    destruct (Hsup room id' Hin) as [?|?]; [left|by right].
    by apply elem_of_difference.
  - intros id'. rewrite leave_previous_sockets, leave_previous_store,
      members_leave_previous.
    intros Hin. case_decide as Hleft; [|by apply Hown].
    destruct (decide (id' = id)) as [->|Hne].
    + right. destruct Hleft as (Hcurrent & _). eapply Hrooms, Hfwd; done.
    + destruct (Hown id' Hin) as [?|?]; [left|by right].
      apply elem_of_difference. split; [done|]. by intros ?%elem_of_singleton.
Qed.

Lemma rooms_follow_enter id roomName s :
  rooms_follow s →
  rooms_follow (roomUsers_add id roomName
                  (set_currentRoom id (Some roomName)
                     (socket_join id roomName s))).
Proof.
  intros (Hsub & Hsup & Hown). split_and!.
  - intros room. autorewrite with server. case_decide; subst; [|done].
    apply union_mono_l, Hsub.
  - intros room id'. autorewrite with server.
    case_decide; subst; [|apply Hsup].
    intros [Hin|Hin]%elem_of_union; [left; by apply elem_of_union_l|].
    destruct (Hsup roomName id' Hin) as [?|?]; [left|by right].
    by apply elem_of_union_r.
  - intros id'. autorewrite with server. intros Hin.
    destruct (Hown id' Hin) as [?|?]; [left|by right].
    case_decide; subst; [by apply elem_of_union_r|done].
Qed.

Lemma rooms_follow_create_room id roomName now s :
  join_invariant s →
  rooms_follow s → rooms_follow (create_room id roomName now s).1.
Proof.
  intros (_ & _ & Hrooms) (Hsub & Hsup & Hown). unfold create_room.
  destruct (database.roomExists roomName (store s)) eqn:Hexists; [done|].
  pose proof (roomExists_createRoom) as Hkeep.
  destruct (database.createRoom roomName now (store s)) as [created d] eqn:Hd.
  assert (∀ room, database.roomExists room (store s) = true →
                  database.roomExists room d = true) as Hmono.
  { intros room Hroom. specialize (Hkeep room roomName now (store s) Hroom).
    by rewrite Hd in Hkeep. }
  assert (presence s roomName = ∅) as Hnone.
  { apply set_eq. intros id'. split; [|by intros ?%elem_of_empty].
    intros Hin. specialize (Hrooms roomName id' Hin). congruence. }
  destruct created; simpl.
  - split_and!.
    + intros room. autorewrite with server.
      case_decide; subst; [apply empty_subseteq|done].
    + intros room id' Hin. autorewrite with server in *.
      destruct (Hsup room id' Hin) as [Hp|?]; [left|by right].
      case_decide; subst; [|done]. by rewrite Hnone in Hp.
    + intros id' Hin. autorewrite with server in *.
      destruct (Hown id' Hin) as [?|?]; auto.
  - split_and!.
    + intros room. by autorewrite with server.
    + intros room id' Hin. autorewrite with server in *. by apply Hsup.
    + intros id' Hin. autorewrite with server in *.
      destruct (Hown id' Hin) as [?|?]; auto.
Qed.

Lemma rooms_follow_disconnect id now data s :
  sockets s !! id = Some data → join_invariant s →
  rooms_follow s →
  rooms_follow (disconnect id now data (socket_close id s)).1.
Proof.
  intros Hdata Hinv (Hsub & Hsup & Hown). split_and!.
  - intros room. rewrite disconnect_members, disconnect_presence by done.
    autorewrite with server. intros id' [? ?]%elem_of_difference.
    apply elem_of_difference. split; [by apply Hsub|done].
  - intros room id'.
    rewrite disconnect_members, disconnect_presence, disconnect_sockets
      by done.
    autorewrite with server. rewrite dom_delete_L.
    intros [Hin Hne]%elem_of_difference.
    destruct (Hsup room id' Hin) as [?|[? ?]]; [left|right].
    + by apply elem_of_difference.
    + split; [done|]. by apply elem_of_difference.
  - intros id'.
    rewrite disconnect_members, disconnect_sockets, disconnect_store.
    autorewrite with server. rewrite dom_delete_L.
    intros [Hin Hne]%elem_of_difference.
    destruct (Hown id' Hin) as [?|?]; [left|by right].
    by apply elem_of_difference.
Qed.

Lemma steady_handle i s :
  join_exists i s → steady s → steady (handle i s).1.
Proof.
  intros Hjoin (Hinv & Hfollow & Hok).
  split; [by apply join_invariant_handle|].
  unfold handle.
  destruct i as [id rnd|id roomName now now'|id text now now'
                |id isTyping|id roomName now|id now]; simpl;
    destruct (sockets s !! id) as [data|] eqn:Hdata; try done.
  - split; [by apply rooms_follow_connection|done].
  - destruct Hjoin as [Hname Hexists]. split.
    + rewrite join_room_state by done.
      by apply rooms_follow_enter, rooms_follow_leave_previous.
    + by rewrite join_room_store.
  - unfold send_message. destruct (currentRoom data) as [room|]; [|done].
    destruct (truthy _); [|done].
    destruct (database.saveMessage _ _ _ _ _ _) as [[saved d]|] eqn:Hsave;
      [|done].
    simpl. split; [|autorewrite with server; by eapply saveMessage_ok].
    destruct Hfollow as (Hsub & Hsup & Hown). split_and!; [done..|].
    intros id' Hin. autorewrite with server in *.
    rewrite (roomExists_saveMessage _ _ _ _ _ _ _ _ _ Hsave). by apply Hown.
  - by rewrite typing_state.
  - split; [by apply rooms_follow_create_room|].
    unfold create_room.
    destruct (database.roomExists roomName (store s)) eqn:Hexists; [done|].
    pose proof (createRoom_ok roomName now (store s) Hok) as Hok'.
    destruct (database.createRoom roomName now (store s)) as [created d].
    by destruct created.
  - split; [by apply rooms_follow_disconnect|].
    by rewrite disconnect_store.
Qed.

(** The state a run ends in does not depend on what was emitted so far. *)
Lemma run_state_from inputs s emitted :
  (foldl (λ acc i, let '(s', out) := handle i acc.1 in (s', acc.2 ++ out))
     (s, emitted) inputs).1
  = (run inputs s).1.
Proof.
  unfold run. generalize (@nil emission). revert s emitted.
  induction inputs as [|i inputs IH]; intros s emitted nothing; simpl; [done|].
  destruct (handle i s) as [s' out']. apply IH.
Qed.

Lemma run_cons_state i inputs s :
  (run (i :: inputs) s).1 = (run inputs (handle i s).1).1.
Proof.
  unfold run at 1. simpl. destruct (handle i s) as [s' out']. simpl.
  apply run_state_from.
Qed.

Lemma run_steady inputs s :
  steady s → admissible inputs s → steady (run inputs s).1.
Proof.
  revert s. induction inputs as [|i inputs IH]; intros s Hs Hadm; [done|].
  destruct Hadm as [Hjoin Hadm]. rewrite run_cons_state.
  apply IH; [by apply steady_handle|done].
Qed.

Lemma steady_transport_inv s : steady s → transport_inv s.
Proof.
  intros (([Hfwd Hconv] & _ & Hrooms) & (Hsub & Hsup & Hown) & _) room id Hin.
  destruct (Hsup room id Hin) as [Hp|[-> ?]].
  - destruct (Hconv id room Hp) as (data & Hdata & _).
    split; [by apply elem_of_dom|]. right. split; [done|]. by eapply Hrooms.
  - split; [done|by left].
Qed.

(** Where no room of the catalog is named after a connected socket: a
    catalog room's transport room is its presence set, and a connected
    socket is alone in the room named after it. *)
Lemma steady_members_room s room :
  steady s → no_id_rooms s →
  database.roomExists room (store s) = true →
  members s room = presence s room.
Proof.
  intros (_ & (Hsub & Hsup & _) & _) Hnone Hexists.
  apply set_eq. intros id. split; [|apply Hsub].
  intros Hin. destruct (Hsup room id Hin) as [?|[-> Hlive]]; [done|].
  apply elem_of_dom in Hlive as [data Hdata].
  specialize (Hnone room data Hdata). simpl in Hnone. congruence.
Qed.

Lemma steady_members_own s id data :
  steady s → no_id_rooms s → sockets s !! id = Some data →
  members s id = {[id]}.
Proof.
  intros ((_ & _ & Hrooms) & (Hsub & Hsup & Hown) & _) Hnone Hdata.
  pose proof (Hnone id data Hdata) as Hid. simpl in Hid.
  apply set_eq. intros id'. rewrite elem_of_singleton. split.
  - intros Hin. destruct (Hsup id id' Hin) as [Hp|[? _]]; [|done].
    specialize (Hrooms id id' Hp). congruence.
  - intros ->. destruct (Hown id) as [?|?]; [by apply elem_of_dom|done|].
    congruence.
Qed.

(** X8. Started on a store that keeps its constraints, and as long as every
    join names a room of the catalog other than the empty string: sessions
    and presence sets mirror each other; every transport room holds the
    presence set of its room and, besides it, at most the connected socket
    the room is named after; where no room of the catalog is named after a
    connected socket, a catalog room's transport room is exactly its
    presence set and every connected socket is alone in the room named
    after it; only rooms of the catalog have occupants; and the store keeps
    its constraints. *)
Theorem admissible_runs_stay_steady d tick inputs :
  store_ok d → admissible inputs (boot d tick) →
  let s := (run inputs (boot d tick)).1 in
  presence_consistent s
  ∧ (∀ room, presence s room ⊆ members s room
             ∧ members s room
               ⊆ presence s room ∪ ({[room]} ∩ dom (sockets s)))
  ∧ (no_id_rooms s →
     (∀ room, database.roomExists room (store s) = true →
              members s room = presence s room)
     ∧ (∀ id, id ∈ dom (sockets s) → members s id = {[id]}))
  ∧ (∀ room, presence s room ≠ ∅ →
             database.roomExists room (store s) = true)
  ∧ db_wf (store s) ∧ db_refs (store s).
Proof.
  intros Hok Hadm s.
  assert (steady s) as Hsteady
    by (apply run_steady; [by apply steady_boot|done]).
  destruct Hsteady as ((Hcons & Hne & Hrooms) & (Hsub & Hsup & Hown)
                         & Hwf & Hrefs) eqn:Hs.
  split_and!; [done| | | |done|done].
  - intros room. split; [apply Hsub|]. intros id Hin.
    destruct (Hsup room id Hin) as [?|[-> ?]];
      [by apply elem_of_union_l|apply elem_of_union_r].
    apply elem_of_intersection. split; [by apply elem_of_singleton|done].
  - intros Hnone. split.
    + intros room. by apply steady_members_room.
    + intros id [data Hdata]%elem_of_dom. by eapply steady_members_own.
  - intros room [id Hin]%set_choose_L. by eapply Hrooms.
Qed.
End steady_states.

Lemma in_general_steady : steady in_general.
Proof.
  apply (@run_steady scan_order_engine).
  - apply steady_boot, empty_db_ok.
  - simpl. split_and!; done.
Qed.

Lemma in_general_no_id_rooms : no_id_rooms in_general.
Proof. by_evaluation. Qed.

Lemma admissible_runs_stay_steady_witness :
  let s := in_general in
  presence_consistent s
  ∧ (∀ room, presence s room ⊆ members s room
             ∧ members s room
               ⊆ presence s room ∪ ({[room]} ∩ dom (sockets s)))
  ∧ (no_id_rooms s →
     (∀ room, database.roomExists room (store s) = true →
              members s room = presence s room)
     ∧ (∀ id, id ∈ dom (sockets s) → members s id = {[id]}))
  ∧ (∀ room, presence s room ≠ ∅ →
             database.roomExists room (store s) = true)
  ∧ db_wf (store s) ∧ db_refs (store s).
Proof.
  apply (@admissible_runs_stay_steady scan_order_engine empty_db
           (λ _, morning)
           [Connect "a" 7; JoinRoom "a" "General" morning morning]).
  - apply empty_db_ok.
  - simpl. split_and!; done.
Defined.

(** ** Creating a room *)

Section creating.
Context `{SqlEngine}.

Lemma createRoom_created name now d :
  (rooms_seq d < max_rowid)%Z →
  (database.createRoom name now d).1 = negb (database.roomExists name d).
Proof.
  intros Hseq. destruct (database.roomExists name d) eqn:Hex.
  - apply roomExists_iff in Hex.
    unfold database.createRoom, statements.createRoom.
    by rewrite decide_False, decide_True by (done || lia).
  - assert (name ∉ r_name <$> rooms d) as Hnot
      by (rewrite <- roomExists_iff; congruence).
    unfold database.createRoom, statements.createRoom.
    by rewrite !decide_False by (done || lia).
Qed.

Lemma createRoom_full name now d :
  (max_rowid ≤ rooms_seq d)%Z → database.createRoom name now d = (false, d).
Proof.
  intros Hseq. unfold database.createRoom, statements.createRoom.
  by rewrite decide_True.
Qed.

Lemma getRoomByName_createRoom_ne name name' now d :
  name' ≠ name →
  statements.getRoomByName name' (database.createRoom name now d).2
  = statements.getRoomByName name' d.
Proof.
  intros Hne. unfold statements.getRoomByName.
  rewrite createRoom_rooms. repeat case_decide; [done..|].
  rewrite filter_app, filter_cons. simpl.
  rewrite decide_False by done. by rewrite filter_nil, app_nil_r.
Qed.

Lemma getMessageCount_createRoom_ne name name' now d :
  db_wf d → name' ≠ name →
  database.getMessageCount name' (database.createRoom name now d).2
  = database.getMessageCount name' d.
Proof.
  intros Hwf Hne.
  pose proof (database_createRoom_wf name now d Hwf) as Hwf'.
  pose proof (getRoomByName_createRoom_ne name name' now d Hne) as Hsame.
  unfold database.getMessageCount, statements.getMessageCount.
  destruct (statements.getRoomByName name' d) as [r|] eqn:Hr.
  - rewrite (messages_join_rooms_Some name' _ r),
      (messages_join_rooms_Some name' d r) by done.
    unfold room_messages. by rewrite createRoom_messages.
  - by rewrite !messages_join_rooms_None.
Qed.

(** X9. A request to create a room whose name is in the catalog is answered
    by one error to the caller and changes nothing.  For any other name,
    while the rooms counter is below the largest rowid, the room is in the
    catalog afterwards, sessions are untouched, the caller is told of the
    success, and every connected client is told a room with no users and no
    messages was created, which is what the server then holds for that
    room; the counts of the other rooms are as before.  Once the counter
    has reached the largest rowid the request is answered by the error
    'Failed to create room' to the caller and changes nothing. *)
Theorem create_room_outcome id roomName now data s :
  store_ok (store s) → sockets s !! id = Some data →
  (database.roomExists roomName (store s) = true →
   handle (CreateRoom id roomName now) s
   = (s, [socket_emit id (error "Room already exists")]))
  ∧ (database.roomExists roomName (store s) = false →
     (rooms_seq (store s) < max_rowid)%Z →
     ∃ s',
       handle (CreateRoom id roomName now) s
       = (s', [io_emit s' (room_created (room_info s' roomName));
               socket_emit id (room_created_success roomName)])
       ∧ room_info s' roomName
         = {| ri_name := roomName; ri_userCount := 0; ri_messageCount := 0 |}
       ∧ database.roomExists roomName (store s') = true
       ∧ sockets s' = sockets s
       ∧ ∀ name, name ≠ roomName →
           room_info s' name = room_info s name
           ∧ database.roomExists name (store s')
             = database.roomExists name (store s))
  ∧ (database.roomExists roomName (store s) = false →
     (max_rowid ≤ rooms_seq (store s))%Z →
     handle (CreateRoom id roomName now) s
     = (s, [socket_emit id (error "Failed to create room")])).
Proof.
  intros [Hwf Hrefs] Hdata. unfold handle. simpl. rewrite Hdata.
  unfold create_room. split_and!; intros Hex; rewrite Hex; [done| |].
  2:{ intros Hfull. rewrite createRoom_full by done. simpl. by destruct s. }
  intros Hseq.
  pose proof (createRoom_created roomName now (store s) Hseq) as Hcreated.
  rewrite Hex in Hcreated.
  pose proof (getMessageCount_created roomName now (store s)) as Hcount.
  pose proof (λ name, getMessageCount_createRoom_ne roomName name now
                        (store s) Hwf) as Hother.
  pose proof (λ name, getRoomByName_createRoom_ne roomName name now
                        (store s)) as Hlookup.
  assert (database.roomExists roomName
            (database.createRoom roomName now (store s)).2 = true) as Hnow.
  { apply roomExists_iff. rewrite createRoom_rooms.
    rewrite decide_False by lia.
    case_decide; [done|]. rewrite fmap_app. set_solver. }
  destruct (database.createRoom roomName now (store s)) as [created d].
  simpl in *. subst created. simpl.
  assert (room_info (roomUsers_reset roomName (set_store d s)) roomName
          = {| ri_name := roomName; ri_userCount := 0; ri_messageCount := 0 |})
    as Hinfo.
  { unfold room_info, userCount. autorewrite with server.
    rewrite decide_True by done. rewrite Hcount by done. done. }
  eexists. split; [by rewrite Hinfo|]. split_and!; [done..|].
  intros name Hne. split.
  - unfold room_info, userCount. autorewrite with server.
    rewrite decide_False by done. by rewrite Hother.
  - unfold database.roomExists. autorewrite with server.
    by rewrite Hlookup.
Qed.
End creating.

Lemma create_room_outcome_witness :
  let s := in_general in
  (database.roomExists "Launch" (store s) = true →
   @handle scan_order_engine (CreateRoom "a" "Launch" (later 1)) s
   = (s, [socket_emit "a" (error "Room already exists")]))
  ∧ (database.roomExists "Launch" (store s) = false →
     (rooms_seq (store s) < max_rowid)%Z →
     ∃ s',
       @handle scan_order_engine (CreateRoom "a" "Launch" (later 1)) s
       = (s', [io_emit s' (room_created (room_info s' "Launch"));
               socket_emit "a" (room_created_success "Launch")])
       ∧ room_info s' "Launch"
         = {| ri_name := "Launch"; ri_userCount := 0; ri_messageCount := 0 |}
       ∧ database.roomExists "Launch" (store s') = true
       ∧ sockets s' = sockets s
       ∧ ∀ name, name ≠ "Launch" →
           room_info s' name = room_info s name
           ∧ database.roomExists name (store s')
             = database.roomExists name (store s))
  ∧ (database.roomExists "Launch" (store s) = false →
     (max_rowid ≤ rooms_seq (store s))%Z →
     @handle scan_order_engine (CreateRoom "a" "Launch" (later 1)) s
     = (s, [socket_emit "a" (error "Failed to create room")])).
Proof.
  apply (@create_room_outcome scan_order_engine "a" "Launch" (later 1)
           {| username := "Anonymous-7"; currentRoom := Some "General" |}).
  - apply in_general_steady.
  - vm_compute. reflexivity.
Defined.

(** ** When the store's errors are produced *)

Section store_errors.
Context `{SqlEngine}.

Lemma sessions_known_boot d tick : sessions_known (boot d tick).
Proof. intros id data room Hdata. simpl in Hdata. by rewrite lookup_empty in Hdata. Qed.

Lemma sessions_known_handle i s :
  sessions_known s → sessions_known (handle i s).1.
Proof.
  intros Hknown. unfold handle.
  destruct i as [id rnd|id roomName now now'|id text now now'
                |id isTyping|id roomName now|id now]; simpl;
    destruct (sockets s !! id) as [data|] eqn:Hdata; try done.
  - intros id' data' room. simpl.
    destruct (decide (id' = id)) as [->|Hne].
    + rewrite lookup_insert_eq. by intros [= <-].
    + rewrite lookup_insert_ne by done. apply Hknown.
  - unfold join_room.
    pose proof (leave_previous_store id roomName now data s) as Hstore.
    pose proof (leave_previous_sockets id roomName now data s) as Hsockets.
    destruct (leave_previous id roomName now data s) as [s1 out1].
    simpl in Hstore, Hsockets.
    destruct (database.getRoomByName roomName (store s1)) as [r|] eqn:Hr;
      simpl.
    + intros id' data' room. autorewrite with server.
      rewrite sockets_set_currentRoom. autorewrite with server.
      rewrite Hsockets, Hstore.
      destruct (decide (id' = id)) as [->|Hne].
      * rewrite lookup_alter_eq, Hdata. simpl. intros [= <-] [= <-].
        apply bool_decide_eq_true. unfold database.getRoomByName in Hr.
        rewrite <- Hstore. by rewrite Hr.
      * rewrite lookup_alter_ne by done. apply Hknown.
    + intros id' data' room. rewrite Hsockets, Hstore. apply Hknown.
  - unfold send_message. destruct (currentRoom data) as [room|]; [|done].
    destruct (truthy _); [|done].
    destruct (database.saveMessage _ _ _ _ _ _) as [[saved d]|] eqn:Hsave;
      [|done].
    simpl. intros id' data' room'. autorewrite with server.
    rewrite (roomExists_saveMessage _ _ _ _ _ _ _ _ _ Hsave). apply Hknown.
  - by rewrite typing_state.
  - unfold create_room.
    destruct (database.roomExists roomName (store s)) eqn:Hexists; [done|].
    pose proof (roomExists_createRoom) as Hkeep.
    destruct (database.createRoom roomName now (store s)) as [created d] eqn:Hd.
    assert (sessions_known (set_store d s)) as Hknown'.
    { intros id' data' room Hdata' Hroom. autorewrite with server in *.
      specialize (Hkeep room roomName now (store s)).
      rewrite Hd in Hkeep. by eapply Hkeep, Hknown. }
    by destruct created.
  - intros id' data' room.
    rewrite disconnect_sockets, disconnect_store. autorewrite with server.
    intros [_ Hdata']%lookup_delete_Some Hroom. by eapply Hknown.
Qed.

Lemma run_sessions_known inputs s :
  sessions_known s → sessions_known (run inputs s).1.
Proof.
  intros Hknown. induction inputs as [|i inputs IH] using rev_ind; [done|].
  rewrite run_snoc. simpl. by apply sessions_known_handle.
Qed.

Lemma join_room_events id roomName now now' data s msg :
  Forall (λ e, event e ≠ error msg) (join_room id roomName now now' data s).2
  ∨ msg = "Room does not exist".
Proof.
  destruct (decide (msg = "Room does not exist")) as [->|Hne]; [by right|].
  left. unfold join_room, leave_previous.
  destruct (currentRoom data) as [previous|]; simpl;
    [destruct (negb (previous =? EmptyString)%string
               && negb (previous =? roomName)%string)|];
    simpl; destruct (database.getRoomByName _ _); simpl;
    repeat constructor; try done; by intros [=].
Qed.

(** X10. In every state reached, every session's room is in the catalog,
    so no append fails for want of the room.  With the text and the room
    name given as strings: while the message counter is below the largest
    rowid no input is answered with 'Failed to save message', and while the
    rooms counter is below the largest rowid none is answered with 'Failed
    to create room'; once the message counter has reached the largest
    rowid, a message sent from a room is answered with 'Failed to save
    message' alone, and nothing changes. *)
Theorem store_errors_only_when_full d tick inputs i :
  let s := (run inputs (boot d tick)).1 in
  sessions_known s
  ∧ ((messages_seq (store s) < max_rowid)%Z →
     Forall (λ e, event e ≠ error "Failed to save message") (handle i s).2)
  ∧ ((rooms_seq (store s) < max_rowid)%Z →
     Forall (λ e, event e ≠ error "Failed to create room") (handle i s).2)
  ∧ (∀ id text now now' data room,
       sockets s !! id = Some data → currentRoom data = Some room →
       room ≠ EmptyString → (max_rowid ≤ messages_seq (store s))%Z →
       handle (SendMessage id text now now') s
       = (s, [socket_emit id (error "Failed to save message")])).
Proof.
  intros s.
  assert (sessions_known s) as Hknown
    by apply run_sessions_known, sessions_known_boot.
  split; [done|]. clearbody s.
  assert (∀ msg,
            msg = "Failed to save message"
            ∧ (messages_seq (store s) < max_rowid)%Z
            ∨ msg = "Failed to create room"
              ∧ (rooms_seq (store s) < max_rowid)%Z →
            Forall (λ e, event e ≠ error msg) (handle i s).2) as Hnever.
  { intros msg Hmsg. unfold handle.
    destruct i as [id rnd|id roomName now now'|id text now now'
                  |id isTyping|id roomName now|id now]; simpl;
      destruct (sockets s !! id) as [data|] eqn:Hdata;
      try by repeat constructor.
    - destruct (join_room_events id roomName now now' data s msg)
        as [?| ->]; [done|].
      by destruct Hmsg as [[? _]|[? _]].
    - unfold send_message. destruct (currentRoom data) as [room|] eqn:Hroom;
        [|destruct Hmsg as [[-> _]|[-> _]]; by repeat constructor].
      destruct (truthy _);
        [|destruct Hmsg as [[-> _]|[-> _]]; by repeat constructor].
      pose proof (Hknown id data room Hdata Hroom)
        as [r Hr]%bool_decide_eq_true.
      destruct Hmsg as [[-> Hseq]|[-> _]].
      + rewrite (saveMessage_Some _ _ _ _ _ _ r Hr) by lia.
        by repeat constructor.
      + destruct (database.saveMessage _ _ _ _ _ _) as [[saved d']|];
          by repeat constructor.
    - unfold typing. destruct (currentRoom data) as [room|];
        [|by repeat constructor].
      destruct (truthy _); by repeat constructor.
    - unfold create_room.
      destruct (database.roomExists roomName (store s)) eqn:Hex;
        [destruct Hmsg as [[-> _]|[-> _]]; by repeat constructor|].
      destruct Hmsg as [[-> _]|[-> Hseq]].
      + destruct (database.createRoom roomName now (store s))
          as [[] d']; by repeat constructor.
      + pose proof (createRoom_created roomName now (store s) Hseq)
          as Hcreated.
        rewrite Hex in Hcreated.
        destruct (database.createRoom roomName now (store s))
          as [created d'].
        simpl in Hcreated. rewrite Hcreated. by repeat constructor.
    - unfold disconnect. destruct (currentRoom data) as [room|];
        [|by repeat constructor].
      destruct (truthy _); by repeat constructor. }
  split_and!.
  - intros Hseq. apply Hnever. by left.
  - intros Hseq. apply Hnever. by right.
  - intros id text now now' data room Hdata Hroom Hne Hfull.
    unfold handle. simpl. rewrite Hdata. unfold send_message.
    rewrite Hroom. simpl.
    destruct (String.eqb_spec room EmptyString) as [?|_]; [done|]. simpl.
    unfold database.saveMessage, statements.saveMessage.
    destruct (statements.getRoomByName room (store s)); [|done].
    by rewrite decide_True.
Qed.
End store_errors.

(** ** Moving between rooms *)

Lemma size_remove (X : gset string) (id : string) :
  id ∈ X → size X = S (size (X ∖ {[id]})).
Proof.
  intros Hin. rewrite size_difference by (by apply singleton_subseteq_l).
  rewrite size_singleton.
  assert (size X ≠ 0); [|lia]. apply size_non_empty_iff. set_solver.
Qed.

Lemma difference_twice (X : gset string) (id : string) :
  X ∖ {[id]} ∖ {[id]} = X ∖ {[id]}.
Proof. apply set_eq. intros x. rewrite !elem_of_difference. tauto. Qed.

Lemma union_difference_fresh (X : gset string) (id : string) :
  id ∉ X → ({[id]} ∪ X) ∖ {[id]} = X.
Proof.
  intros Hout. apply set_eq. intros x.
  rewrite elem_of_difference, elem_of_union, elem_of_singleton. split.
  - by intros [[->|?] ?].
  - intros Hx. split; [by right|]. by intros ->.
Qed.

Lemma union_present (X : gset string) (id : string) :
  id ∈ X → {[id]} ∪ X = X.
Proof. intros Hin. by apply subseteq_union_1_L, singleton_subseteq_l. Qed.

Section moving.
Context `{SqlEngine}.

(** X11. A client in one room joins another room of the catalog, no room of
    the catalog being named after a connected socket.  Its session names
    the new room; it is taken out of the presence set of the room it left
    and put into that of the room it joined, so one count goes down by one
    and the other up by one, and no other room or the store changes.  Six
    events go out: the notice of leaving to the others in the old room, the
    old room's new counts to everyone, the history and the confirmation to
    the caller, the notice of joining to the others in the new room, and
    the new room's counts to everyone. *)
Theorem join_room_switch id roomName now now' data previous s :
  steady s → no_id_rooms s → sockets s !! id = Some data →
  currentRoom data = Some previous → previous ≠ roomName →
  database.roomExists roomName (store s) = true →
  let r := handle (JoinRoom id roomName now now') s in
  sockets r.1 !! id
  = Some {| username := username data; currentRoom := Some roomName |}
  ∧ presence r.1 previous = presence s previous ∖ {[id]}
  ∧ presence r.1 roomName = {[id]} ∪ presence s roomName
  ∧ (∀ room, room ≠ previous → room ≠ roomName →
             presence r.1 room = presence s room)
  ∧ userCount s previous = S (userCount r.1 previous)
  ∧ userCount r.1 roomName = S (userCount s roomName)
  ∧ store r.1 = store s
  ∧ event <$> r.2
    = [user_left (username data) (username data +:+ " left the room")
         (toISOString now);
       room_updated (room_info r.1 previous);
       message_history (database.getMessagesByRoom roomName (store s));
       joined_room roomName (username data);
       user_joined (username data) (username data +:+ " joined the room")
         (toISOString now');
       room_updated (room_info r.1 roomName)]
  ∧ recipients <$> r.2
    = [presence s previous ∖ {[id]}; dom (sockets s); {[id]}; {[id]};
       presence s roomName; dom (sockets s)].
Proof.
  intros Hsteady Hnone Hdata Hprev Hne Hex r.
  pose proof Hsteady as (Hinv & _ & Hok).
  destruct Hinv as ([Hfwd Hconv] & Hnonempty & Hrooms).
  assert (previous ≠ EmptyString) as Hprevne.
  { intros ->. by apply (Hnonempty id data). }
  assert (id ∈ presence s previous) as Hin by by eapply Hfwd.
  assert (id ∉ presence s roomName) as Hout.
  { intros Hin'. destruct (Hconv id roomName Hin') as (data' & ? & ?).
    congruence. }
  pose proof (Hnone id data Hdata) as Hidroom. simpl in Hidroom.
  assert (id ≠ previous) as Hidprev.
  { intros <-. specialize (Hrooms id id Hin). congruence. }
  assert (id ≠ roomName) as Hidname by (intros <-; congruence).
  pose proof (steady_members_own s id data Hsteady Hnone Hdata) as Hown.
  pose proof (steady_members_room s previous Hsteady Hnone
                (Hrooms previous id Hin)) as Hsame.
  pose proof (steady_members_room s roomName Hsteady Hnone Hex) as Hsame'.
  pose proof Hex as [row Hrow]%bool_decide_eq_true.
  unfold r, handle. simpl. rewrite Hdata.
  unfold join_room, leave_previous. rewrite Hprev. simpl.
  destruct (String.eqb_spec previous EmptyString) as [|_]; [done|].
  destruct (String.eqb_spec previous roomName) as [|_]; [done|]. simpl.
  autorewrite with server. unfold database.getRoomByName. rewrite Hrow.
  cbn [fst snd].
  set (s1 := roomUsers_delete id previous (socket_leave id previous s)).
  set (s2 := roomUsers_add id roomName
               (set_currentRoom id (Some roomName)
                  (socket_join id roomName s1))).
  assert (∀ room,
            presence s2 room
            = if decide (room = roomName) then {[id]} ∪ presence s roomName
              else if decide (room = previous)
                   then presence s previous ∖ {[id]}
                   else presence s room) as Hpresence.
  { intros room. unfold s2, s1. autorewrite with server.
    repeat case_decide; subst; try done. }
  assert (presence s1 previous = presence s2 previous) as Hleft.
  { rewrite Hpresence, decide_False, decide_True by done.
    unfold s1. autorewrite with server. by rewrite decide_True. }
  split_and!.
  - unfold s2, s1. autorewrite with server. rewrite sockets_set_currentRoom.
    autorewrite with server. by rewrite lookup_alter_eq, Hdata.
  - rewrite Hpresence. rewrite decide_False, decide_True; done.
  - rewrite Hpresence. by rewrite decide_True.
  - intros room ? ?. rewrite Hpresence. by rewrite !decide_False.
  - unfold userCount. rewrite Hpresence.
    rewrite decide_False, decide_True by done.
    by apply size_remove.
  - unfold userCount. rewrite Hpresence, decide_True by done.
    rewrite size_union by (by apply disjoint_singleton_l).
    by rewrite size_singleton.
  - done.
  - cbn [fmap list_fmap app]. observe.
    replace (room_info s1 previous) with (room_info s2 previous); [done|].
    unfold room_info, userCount. by rewrite Hleft.
  - cbn [fmap list_fmap app]. observe.
    replace (dom (sockets s1)) with (dom (sockets s)) by done.
    replace (dom (sockets s2)) with (dom (sockets s))
      by (unfold s2; by autorewrite with server).
    replace (members s1 previous ∖ members s1 id)
      with (presence s previous ∖ {[id]}).
    2:{ unfold s1. autorewrite with server.
        rewrite decide_True, decide_False, Hsame, Hown by done.
        by rewrite difference_twice. }
    replace (members s2 roomName ∖ members s2 id)
      with (presence s roomName); [done|].
    unfold s2, s1. autorewrite with server.
    rewrite decide_True, !decide_False, Hsame', Hown by done.
    by rewrite union_difference_fresh.
Qed.

(** X12. A client joins the room it is already in: nothing changes on the
    server, and the four events of a join are sent again, with no notice of
    leaving. *)
Theorem join_room_again id roomName now now' data s :
  steady s → sockets s !! id = Some data →
  currentRoom data = Some roomName →
  handle (JoinRoom id roomName now now') s
  = (s, [socket_emit id
           (message_history (database.getMessagesByRoom roomName (store s)));
         socket_emit id (joined_room roomName (username data));
         socket_to s roomName id
           (user_joined (username data)
              (username data +:+ " joined the room") (toISOString now'));
         io_emit s (room_updated (room_info s roomName))]).
Proof.
  intros (Hinv & (Hsub & _) & Hok) Hdata Hroom.
  destruct Hinv as ([Hfwd Hconv] & Hnonempty & Hrooms).
  assert (id ∈ presence s roomName) as Hin by by eapply Hfwd.
  pose proof (Hrooms roomName id Hin) as [row Hrow]%bool_decide_eq_true.
  pose proof (Hsub roomName id Hin) as Hmem. clear Hsub.
  assert (roomUsers_add id roomName
            (set_currentRoom id (Some roomName) (socket_join id roomName s))
          = s) as Hstate.
  { destruct s as [d users socks transport].
    unfold roomUsers_add, set_currentRoom, socket_join, set_roomUsers,
      set_sockets, set_io_rooms, members, presence in *. simpl in *.
    f_equal.
    - destruct (users !! roomName) as [ids|] eqn:Hids; simpl in *.
      + rewrite union_present by done. by apply insert_id.
      + by apply elem_of_empty in Hin.
    - apply map_eq. intros id'. destruct (decide (id' = id)) as [->|Hne].
      + rewrite lookup_alter_eq, Hdata. simpl. f_equal.
        destruct data. simpl in *. by subst.
      + by rewrite lookup_alter_ne.
    - destruct (transport !! roomName) as [ids|] eqn:Hids; simpl in *.
      + rewrite union_present by done. by apply insert_id.
      + by apply elem_of_empty in Hmem. }
  unfold handle. simpl. rewrite Hdata.
  unfold join_room, leave_previous. rewrite Hroom. simpl.
  rewrite String.eqb_refl, andb_false_r.
  unfold database.getRoomByName. rewrite Hrow. by rewrite Hstate.
Qed.

(** X13. A client that was in a room disconnects, no room of the catalog
    being named after a connected socket: its session is gone, it is taken
    out of every presence set and every transport room, the room's count is
    one less, the store is untouched, and the others in the room get the
    notice of leaving while everyone still connected gets the room's new
    counts.  A client that was in no room leaves without any event. *)
Theorem disconnect_leaves id now data s :
  steady s → no_id_rooms s → sockets s !! id = Some data →
  let r := handle (Disconnect id now) s in
  sockets r.1 = delete id (sockets s)
  ∧ (∀ room, presence r.1 room = presence s room ∖ {[id]}
             ∧ members r.1 room = members s room ∖ {[id]})
  ∧ store r.1 = store s
  ∧ match currentRoom data with
    | Some room =>
        userCount s room = S (userCount r.1 room)
        ∧ event <$> r.2
          = [user_left (username data) (username data +:+ " left the room")
               (toISOString now);
             room_updated (room_info r.1 room)]
        ∧ recipients <$> r.2
          = [presence s room ∖ {[id]}; dom (sockets s) ∖ {[id]}]
    | None => r.2 = []
    end.
Proof.
  intros Hsteady Hnone Hdata r.
  pose proof Hsteady as (Hinv & _ & Hok).
  pose proof (steady_members_own s id data Hsteady Hnone Hdata) as Hown.
  assert (∀ room, presence r.1 room = presence s room ∖ {[id]}) as Hpresence.
  { intros room. unfold r, handle. simpl. rewrite Hdata.
    by apply disconnect_presence. }
  destruct Hinv as ([Hfwd Hconv] & Hnonempty & Hrooms).
  revert Hpresence. unfold r, handle. simpl. rewrite Hdata. intros Hpresence.
  split_and!.
  - by rewrite disconnect_sockets.
  - intros room. split; [done|].
    rewrite disconnect_members. by autorewrite with server.
  - by rewrite disconnect_store.
  - revert Hpresence. unfold disconnect.
    destruct (currentRoom data) as [room|] eqn:Hroom; [|done].
    assert (room ≠ EmptyString) as Hne.
    { intros ->. by apply (Hnonempty id data). }
    simpl. destruct (String.eqb_spec room EmptyString) as [|_]; [done|].
    simpl. intros Hpresence. split_and!.
    + unfold userCount. rewrite Hpresence.
      assert (id ∈ presence s room) as Hin by by eapply Hfwd.
      by apply size_remove.
    + done.
    + assert (id ∈ presence s room) as Hin by by eapply Hfwd.
      observe. autorewrite with server.
      rewrite dom_delete_L, Hown, difference_diag_L, difference_empty_L.
      by rewrite (steady_members_room s room Hsteady Hnone
                    (Hrooms room id Hin)).
Qed.

(** X14. A typing notice changes nothing on the server; no room of the
    catalog being named after a connected socket, it goes to everyone else
    in the sender's room, under the sender's name, and a sender that is in
    no room produces no event. *)
Theorem typing_relays id isTyping data s :
  steady s → no_id_rooms s → sockets s !! id = Some data →
  match currentRoom data with
  | Some room =>
      ∃ e, handle (Typing id isTyping) s = (s, [e])
           ∧ event e = user_typing (username data) isTyping
           ∧ target e = to_room_except room id
           ∧ recipients e = presence s room ∖ {[id]}
  | None => handle (Typing id isTyping) s = (s, [])
  end.
Proof.
  intros Hsteady Hnone Hdata.
  pose proof Hsteady as (([Hfwd _] & Hnonempty & Hrooms) & _ & _).
  unfold handle. simpl. rewrite Hdata. unfold typing.
  destruct (currentRoom data) as [room|] eqn:Hroom; [|done].
  assert (room ≠ EmptyString) as Hne.
  { intros ->. by apply (Hnonempty id data). }
  assert (id ∈ presence s room) as Hin by by eapply Hfwd.
  simpl. destruct (String.eqb_spec room EmptyString) as [|_]; [done|].
  simpl. eexists. split; [done|]. observe.
  rewrite (steady_members_own s id data Hsteady Hnone Hdata).
  by rewrite (steady_members_room s room Hsteady Hnone (Hrooms room id Hin)).
Qed.

(** X15. When sessions and presence sets mirror each other, the user count
    of a room is the number of connections whose session names it. *)
Theorem userCount_counts_sessions s room :
  presence_consistent s →
  userCount s room
  = size (filter (λ kv, currentRoom kv.2 = Some room) (sockets s)).
Proof.
  intros [Hfwd Hconv]. unfold userCount.
  rewrite <- size_dom. f_equal. apply set_eq. intros id.
  rewrite elem_of_dom. unfold is_Some.
  setoid_rewrite map_lookup_filter_Some. simpl. split.
  - intros (data & ? & ?)%Hconv. by exists data.
  - intros (data & ? & ?). by eapply Hfwd.
Qed.
End moving.

Lemma join_room_switch_witness :
  let s := in_general in
  let r :=
    @handle scan_order_engine (JoinRoom "a" "Technology" (later 1) (later 2))
      s in
  sockets r.1 !! "a"
  = Some {| username := "Anonymous-7"; currentRoom := Some "Technology" |}
  ∧ presence r.1 "General" = presence s "General" ∖ {["a"]}
  ∧ presence r.1 "Technology" = {["a"]} ∪ presence s "Technology"
  ∧ (∀ room, room ≠ "General" → room ≠ "Technology" →
             presence r.1 room = presence s room)
  ∧ userCount s "General" = S (userCount r.1 "General")
  ∧ userCount r.1 "Technology" = S (userCount s "Technology")
  ∧ store r.1 = store s
  ∧ event <$> r.2
    = [user_left "Anonymous-7" ("Anonymous-7" +:+ " left the room")
         (toISOString (later 1));
       room_updated (room_info r.1 "General");
       message_history
         (@database.getMessagesByRoom scan_order_engine "Technology"
            (store s));
       joined_room "Technology" "Anonymous-7";
       user_joined "Anonymous-7" ("Anonymous-7" +:+ " joined the room")
         (toISOString (later 2));
       room_updated (room_info r.1 "Technology")]
  ∧ recipients <$> r.2
    = [presence s "General" ∖ {["a"]}; dom (sockets s); {["a"]}; {["a"]};
       presence s "Technology"; dom (sockets s)].
Proof.
  apply (@join_room_switch scan_order_engine "a" "Technology" (later 1)
           (later 2)
           {| username := "Anonymous-7"; currentRoom := Some "General" |}
           "General" in_general).
  - apply in_general_steady.
  - apply in_general_no_id_rooms.
  - vm_compute. reflexivity.
  - reflexivity.
  - discriminate.
  - reflexivity.
Defined.

Lemma join_room_again_witness :
  @handle scan_order_engine (JoinRoom "a" "General" (later 1) (later 2))
    in_general
  = (in_general,
     [socket_emit "a"
        (message_history
           (@database.getMessagesByRoom scan_order_engine "General"
              (store in_general)));
      socket_emit "a" (joined_room "General" "Anonymous-7");
      socket_to in_general "General" "a"
        (user_joined "Anonymous-7" ("Anonymous-7" +:+ " joined the room")
           (toISOString (later 2)));
      io_emit in_general (room_updated (room_info in_general "General"))]).
Proof.
  apply (@join_room_again scan_order_engine "a" "General" (later 1) (later 2)
           {| username := "Anonymous-7"; currentRoom := Some "General" |}
           in_general).
  - apply in_general_steady.
  - vm_compute. reflexivity.
  - reflexivity.
Defined.

Lemma disconnect_leaves_witness :
  let s := in_general in
  let r := @handle scan_order_engine (Disconnect "a" (later 1)) s in
  sockets r.1 = delete "a" (sockets s)
  ∧ (∀ room, presence r.1 room = presence s room ∖ {["a"]}
             ∧ members r.1 room = members s room ∖ {["a"]})
  ∧ store r.1 = store s
  ∧ userCount s "General" = S (userCount r.1 "General")
  ∧ event <$> r.2
    = [user_left "Anonymous-7" ("Anonymous-7" +:+ " left the room")
         (toISOString (later 1));
       room_updated (room_info r.1 "General")]
  ∧ recipients <$> r.2
    = [presence s "General" ∖ {["a"]}; dom (sockets s) ∖ {["a"]}].
Proof.
  apply (@disconnect_leaves scan_order_engine "a" (later 1)
           {| username := "Anonymous-7"; currentRoom := Some "General" |}
           in_general).
  - apply in_general_steady.
  - apply in_general_no_id_rooms.
  - vm_compute. reflexivity.
Defined.

Lemma typing_relays_witness :
  ∃ e, @handle scan_order_engine (Typing "a" true) in_general
       = (in_general, [e])
       ∧ event e = user_typing "Anonymous-7" true
       ∧ target e = to_room_except "General" "a"
       ∧ recipients e = presence in_general "General" ∖ {["a"]}.
Proof.
  apply (@typing_relays scan_order_engine "a" true
           {| username := "Anonymous-7"; currentRoom := Some "General" |}
           in_general).
  - apply in_general_steady.
  - apply in_general_no_id_rooms.
  - vm_compute. reflexivity.
Defined.

Lemma userCount_counts_sessions_witness :
  userCount in_general "General"
  = size (filter (λ kv, currentRoom kv.2 = Some "General")
            (sockets in_general)).
Proof.
  apply (userCount_counts_sessions in_general "General").
  apply in_general_steady.
Defined.

(** ** Sending a message *)

Section sending.
Context `{SqlEngine}.

Lemma saveMessage_count_after roomName username text now now' d room :
  db_wf d → statements.getRoomByName roomName d = Some room →
  (messages_seq d < max_rowid)%Z →
  ∃ d',
    database.saveMessage roomName username text now now' d
    = Some ({| sv_id := toString (messages_seq d + 1);
               sv_room_id := r_id room;
               sv_username := username;
               sv_text := text;
               sv_timestamp := toISOString now' |}, d')
    ∧ rooms d' = rooms d
    ∧ database.getMessageCount roomName d'
      = 100 `min` S (database.getMessageCount roomName d).
Proof.
  intros Hwf Hroom Hseq.
  destruct (saveMessage_room_rows roomName username text now now' d room)
    as (saved & d' & Hsave & Hid & Hwf' & Hroom' & Hrows); [done..|].
  pose proof (saveMessage_rooms _ _ _ _ _ _ _ _ Hsave) as [Hcatalog _].
  exists d'. split_and!; [|done|].
  - rewrite Hsave.
    rewrite (saveMessage_Some _ _ _ _ _ _ room Hroom Hseq) in Hsave.
    by injection Hsave as <- <-.
  - rewrite (getMessageCount_room roomName d' room) by done.
    rewrite (getMessageCount_room roomName d room) by done.
    rewrite Hrows, length_take, order_by_desc_perm, length_app.
    change (length [_]) with 1.
    lia.
Qed.

(** A session in a room, in a steady state: the connection is in the
    room's presence set, and the room has a name and a row. *)
Lemma steady_session_room id data room s :
  steady s → sockets s !! id = Some data → currentRoom data = Some room →
  id ∈ presence s room ∧ room ≠ EmptyString
  ∧ ∃ row, statements.getRoomByName room (store s) = Some row.
Proof.
  intros (([Hfwd Hconv] & Hnonempty & Hrooms) & _) Hdata Hroom.
  assert (id ∈ presence s room) as Hin by by eapply Hfwd.
  split_and!; [done| |].
  - intros ->. by apply (Hnonempty id data).
  - pose proof (Hrooms room id Hin) as [row Hrow]%bool_decide_eq_true.
    by exists row.
Qed.

(** What the handler returns for a sender whose room has a row, while the
    message counter is below the largest rowid. *)
Lemma send_message_result id text now now' data room row s :
  db_wf (store s) → sockets s !! id = Some data →
  currentRoom data = Some room → room ≠ EmptyString →
  statements.getRoomByName room (store s) = Some row →
  (messages_seq (store s) < max_rowid)%Z →
  ∃ d',
    handle (SendMessage id text now now') s
    = (set_store d' s,
       [io_to s room
          (new_message
             {| msg_id := toString (messages_seq (store s) + 1);
                msg_text := text;
                msg_username := username data;
                msg_room := room;
                msg_timestamp := toISOString now' |});
        io_emit s
          (room_updated
             {| ri_name := room;
                ri_userCount := userCount s room;
                ri_messageCount :=
                  100 `min` S (database.getMessageCount room (store s)) |})])
    ∧ rooms d' = rooms (store s)
    ∧ database.getMessageCount room d'
      = 100 `min` S (database.getMessageCount room (store s)).
Proof.
  intros Hwf Hdata Hroom Hne Hrow Hseq.
  destruct (saveMessage_count_after room (username data) text now now'
              (store s) row) as (d' & Hsave & Hcatalog & Hcount); [done..|].
  exists d'. split_and!; [|done..].
  unfold handle. simpl. rewrite Hdata. unfold send_message.
  rewrite Hroom. simpl.
  destruct (String.eqb_spec room EmptyString) as [|_]; [done|]. simpl.
  rewrite Hsave. cbn [sv_id sv_timestamp].
  unfold room_info. autorewrite with server. rewrite Hcount. done.
Qed.

(** X16. A client in a room sends a message, the message counter being
    below the largest rowid and no room of the catalog being named after a
    connected socket: the append succeeds; everyone in the room, the sender
    included, gets the message under the sender's name with the next rowid,
    converted to a string, as its id and the handler's clock as its time;
    everyone connected gets the room's counts, with the user count as it
    was and the message count one more, capped at 100, which is what the
    store then counts; sessions, presence sets and the catalog stay as they
    were. *)
Theorem send_message_delivers id text now now' data room s :
  steady s → no_id_rooms s → (messages_seq (store s) < max_rowid)%Z →
  sockets s !! id = Some data → currentRoom data = Some room →
  ∃ d',
    handle (SendMessage id text now now') s
    = (set_store d' s,
       [io_to s room
          (new_message
             {| msg_id := toString (messages_seq (store s) + 1);
                msg_text := text;
                msg_username := username data;
                msg_room := room;
                msg_timestamp := toISOString now' |});
        io_emit s
          (room_updated
             {| ri_name := room;
                ri_userCount := userCount s room;
                ri_messageCount :=
                  100 `min` S (database.getMessageCount room (store s)) |})])
    ∧ members s room = presence s room
    ∧ id ∈ presence s room
    ∧ rooms d' = rooms (store s)
    ∧ database.getMessageCount room d'
      = 100 `min` S (database.getMessageCount room (store s)).
Proof.
  intros Hsteady Hnone Hseq Hdata Hroom.
  destruct (steady_session_room id data room s) as (Hin & Hne & row & Hrow);
    [done..|].
  assert (members s room = presence s room) as Hsame.
  { apply steady_members_room; [done..|].
    apply bool_decide_eq_true. by exists row. }
  destruct Hsteady as (_ & _ & Hwf & _).
  destruct (send_message_result id text now now' data room row s)
    as (d' & Hhandle & Hcatalog & Hcount); [done..|].
  exists d'. by split_and!.
Qed.

End sending.

Lemma send_message_delivers_witness :
  ∃ d',
    @handle scan_order_engine (SendMessage "a" "hello" (later 1) (later 2))
      in_general
    = (set_store d' in_general,
       [io_to in_general "General"
          (new_message
             {| msg_id :=
                  @toString scan_order_engine
                    (messages_seq (store in_general) + 1);
                msg_text := "hello";
                msg_username := "Anonymous-7";
                msg_room := "General";
                msg_timestamp := toISOString (later 2) |});
        io_emit in_general
          (room_updated
             {| ri_name := "General";
                ri_userCount := userCount in_general "General";
                ri_messageCount :=
                  100 `min` S (database.getMessageCount "General"
                                 (store in_general)) |})])
    ∧ members in_general "General" = presence in_general "General"
    ∧ "a" ∈ presence in_general "General"
    ∧ rooms d' = rooms (store in_general)
    ∧ database.getMessageCount "General" d'
      = 100 `min` S (database.getMessageCount "General" (store in_general)).
Proof.
  apply (@send_message_delivers scan_order_engine "a" "hello" (later 1)
           (later 2)
           {| username := "Anonymous-7"; currentRoom := Some "General" |}
           "General" in_general).
  - apply in_general_steady.
  - apply in_general_no_id_rooms.
  - vm_compute. reflexivity.
  - vm_compute. reflexivity.
  - reflexivity.
Defined.

(** ** Connecting *)

Section connecting.
Context `{SqlEngine}.

(** X17. A new connection gets a session named Anonymous- and the number
    drawn, in no room; the store and the presence sets are untouched, and
    the transport has put the socket into the room named by its id; the one
    event is the catalog to the newcomer alone: every room of the catalog
    once, each with the counts the server holds for it, which is also what
    the rooms route answers. *)
Theorem connection_lists_catalog id rnd s :
  sockets s !! id = None →
  ∃ l,
    handle (Connect id rnd) s
    = (set_sockets
         (<[id := {| username := "Anonymous-" +:+ toString (Z.of_nat rnd);
                     currentRoom := None |}]> (sockets s))
         (socket_join id id s),
       [socket_emit id (rooms_list l)])
    ∧ ri_name <$> l ≡ₚ r_name <$> rooms (store s)
    ∧ Forall (λ info, info = room_info s (ri_name info)) l
    ∧ api_rooms s = json_rooms l.
Proof.
  intros Hfresh. unfold handle. simpl. rewrite Hfresh.
  exists (room_info s ∘ r_name <$> database.getAllRooms (store s)).
  split_and!.
  - done.
  - rewrite <- list_fmap_compose.
    unfold database.getAllRooms, statements.getAllRooms.
    by rewrite order_by_perm.
  - apply Forall_fmap, Forall_forall. by intros r _.
  - done.
Qed.

(** ** Who receives the other events *)

Ltac each_delivery :=
  repeat (apply Forall_cons; split; [unfold delivery_rule; observe|]);
  try apply Forall_nil; try exact I; try done.

Lemma handle_delivery i s :
  transport_inv s → Forall (delivery_rule i s) (handle i s).2.
Proof.
  intros Hinv. unfold handle.
  destruct i as [id rnd|id roomName now now'|id text now now'
                |id isTyping|id roomName now|id now]; simpl;
    destruct (sockets s !! id) as [data|] eqn:Hdata; try by each_delivery.
  - unfold join_room, leave_previous.
    destruct (currentRoom data) as [previous|]; simpl;
      [destruct (negb (previous =? EmptyString)%string
                 && negb (previous =? roomName)%string)|];
      simpl; destruct (database.getRoomByName _ _); simpl;
      by each_delivery.
  - unfold send_message. destruct (currentRoom data) as [room|] eqn:Hroom;
      [|by each_delivery].
    destruct (truthy _); [|by each_delivery].
    destruct (database.saveMessage _ _ _ _ _ _) as [[saved d]|];
      [|by each_delivery].
    each_delivery. exists data, room. split_and!; [done..| |].
    + intros id' Hin. rewrite elem_of_union, elem_of_singleton.
      destruct (Hinv room id' Hin) as (? & [?|[? ?]]); auto.
    + intros id' Hin. by destruct (Hinv room id' Hin) as (? & ?).
  - unfold typing. destruct (currentRoom data) as [room|] eqn:Hroom;
      [|by each_delivery].
    destruct (truthy _); [|by each_delivery].
    each_delivery. exists data, room. split_and!; [done..| |].
    + intros id' [Hin _]%elem_of_difference.
      rewrite elem_of_union, elem_of_singleton.
      destruct (Hinv room id' Hin) as (? & [?|[? ?]]); auto.
    + intros id' [Hin _]%elem_of_difference.
      by destruct (Hinv room id' Hin) as (? & ?).
  - unfold create_room. destruct (database.roomExists _ _);
      [by each_delivery|].
    destruct (database.createRoom _ _ _) as [[] d]; by each_delivery.
  - unfold disconnect. destruct (currentRoom data) as [room|];
      [|by each_delivery].
    destruct (truthy _); by each_delivery.
Qed.

(** X18. In every state reached and for every inbound event: the catalog,
    a history, a join confirmation, a creation confirmation and every error
    go to the caller alone; a message goes out under the sender's name and
    room, addressed to the room, and a typing notice under the sender's
    name, addressed to the room without the sender; either reaches only
    connected sockets that are in that room's presence set or that the room
    is named after. *)
Theorem delivery_reachable d tick inputs i :
  Forall (delivery_rule i (run inputs (boot d tick)).1)
    (handle i (run inputs (boot d tick)).1).2.
Proof. apply handle_delivery, run_transport_inv, boot_transport_inv. Qed.
End connecting.

Lemma connection_lists_catalog_witness :
  ∃ l,
    @handle scan_order_engine (Connect "b" 42) in_general
    = (set_sockets
         (<["b" := {| username :=
                        "Anonymous-"
                        +:+ @toString scan_order_engine (Z.of_nat 42);
                      currentRoom := None |}]> (sockets in_general))
         (socket_join "b" "b" in_general),
       [socket_emit "b" (rooms_list l)])
    ∧ ri_name <$> l ≡ₚ r_name <$> rooms (store in_general)
    ∧ Forall (λ info, info = room_info in_general (ri_name info)) l
    ∧ @api_rooms scan_order_engine in_general = json_rooms l.
Proof.
  apply (@connection_lists_catalog scan_order_engine "b" 42 in_general).
  vm_compute. reflexivity.
Defined.

Lemma join_room_absent_no_room_witness :
  let s := (@run scan_order_engine [Connect "a" 7] fresh_server).1 in
  @handle scan_order_engine (JoinRoom "a" "Nowhere" (later 1) (later 2)) s
  = (s, [socket_emit "a" (error "Room does not exist")]).
Proof.
  apply (@join_room_absent_no_room scan_order_engine "a" "Nowhere" (later 1)
           (later 2) {| username := "Anonymous-7"; currentRoom := None |}).
  - vm_compute. reflexivity.
  - reflexivity.
  - reflexivity.
Defined.

Lemma join_room_absent_in_room_witness :
  let s' := roomUsers_delete "a" "General"
              (socket_leave "a" "General" in_general) in
  @handle scan_order_engine (JoinRoom "a" "Nowhere" (later 1) (later 2))
    in_general
  = (s', [socket_to s' "General" "a"
            (user_left "Anonymous-7" ("Anonymous-7" +:+ " left the room")
               (toISOString (later 1)));
          io_emit s' (room_updated (room_info s' "General"));
          socket_emit "a" (error "Room does not exist")])
  ∧ sockets s' = sockets in_general
  ∧ presence s' "General" = presence in_general "General" ∖ {["a"]}.
Proof.
  apply (@join_room_absent_in_room scan_order_engine "a" "Nowhere" (later 1)
           (later 2)
           {| username := "Anonymous-7"; currentRoom := Some "General" |}
           "General" in_general).
  - vm_compute. reflexivity.
  - reflexivity.
  - discriminate.
  - discriminate.
  - reflexivity.
Defined.

(** ** Worked creations *)

Lemma createRoom_lookup_witness :
  (rooms_seq fresh_db < max_rowid)%Z
  ∧ (@database.createRoom scan_order_engine "Launch" morning fresh_db).1
    = negb (database.roomExists "Launch" fresh_db)
  ∧ database.roomExists "Launch"
      (@database.createRoom scan_order_engine "Launch" morning fresh_db).2
    = true.
Proof.
  split; [reflexivity|].
  apply (proj1 (@createRoom_lookup scan_order_engine "Launch" morning
                  fresh_db)).
  reflexivity.
Defined.

Lemma initDefaultRooms_catalog_witness :
  (rooms_seq empty_db + Z.of_nat (length defaultRooms) ≤ max_rowid)%Z
  ∧ database.roomExists "Support" fresh_db = true.
Proof.
  assert (rooms_seq empty_db + Z.of_nat (length defaultRooms) ≤ max_rowid)%Z
    as Hseq by (vm_compute; discriminate).
  split; [exact Hseq|].
  apply (proj1 (@initDefaultRooms_catalog scan_order_engine defaultRooms
                  (λ _, morning) empty_db) Hseq "Support").
  unfold defaultRooms. repeat constructor.
Defined.

(** ** Worked appends *)

Lemma saveMessage_keeps_newest_witness :
  ∃ saved d',
    @database.saveMessage scan_order_engine "General" "Anonymous-7" "hello"
      morning (later 1) fresh_db = Some (saved, d')
    ∧ sv_id saved = @toString scan_order_engine (messages_seq fresh_db + 1)
    ∧ room_messages (r_id general_row) d'
      ≡ₚ take 100
           (@order_by_desc scan_order_engine _ m_timestamp
              (room_messages (r_id general_row) fresh_db
               ++ [{| m_id := (messages_seq fresh_db + 1)%Z;
                      m_room_id := r_id general_row;
                      m_username := "Anonymous-7"; m_text := "hello";
                      m_timestamp := CURRENT_TIMESTAMP morning |}]))
    ∧ database.getMessageCount "General" d'
      = 100 `min` S (database.getMessageCount "General" fresh_db).
Proof.
  apply (@saveMessage_keeps_newest scan_order_engine "General" "Anonymous-7"
           "hello" morning (later 1) fresh_db general_row).
  - apply fresh_db_wf.
  - reflexivity.
  - vm_compute. reflexivity.
Defined.

Lemma saveMessage_then_history_witness :
  ∃ saved d',
    @database.saveMessage scan_order_engine "General" "Anonymous-7" "hello"
      morning (later 1) fresh_db = Some (saved, d')
    ∧ database.getMessageCount "General" d'
      = S (database.getMessageCount "General" fresh_db)
    ∧ @database.getMessagesByRoom scan_order_engine "General" d'
      ≡ₚ @database.getMessagesByRoom scan_order_engine "General" fresh_db
         ++ [{| msg_id := sv_id saved; msg_text := "hello";
                msg_username := "Anonymous-7"; msg_room := "General";
                msg_timestamp := CURRENT_TIMESTAMP morning |}].
Proof.
  apply (@saveMessage_then_history scan_order_engine "General" "Anonymous-7"
           "hello" morning (later 1) fresh_db).
  - apply fresh_db_wf.
  - reflexivity.
  - vm_compute. lia.
  - vm_compute. reflexivity.
Defined.

Lemma saveMessage_other_rooms_witness :
  match @database.saveMessage scan_order_engine "General" "Anonymous-7"
          "hello" morning (later 1) fresh_db with
  | Some (saved, d') =>
      rooms d' = rooms fresh_db
      ∧ ∀ name, name ≠ "General" →
          database.getMessageCount name d'
          = database.getMessageCount name fresh_db
          ∧ @database.getMessagesByRoom scan_order_engine name d'
            = @database.getMessagesByRoom scan_order_engine name fresh_db
  | None => False
  end.
Proof.
  pose proof (@saveMessage_other_rooms scan_order_engine "General"
                "Anonymous-7" "hello" morning (later 1) fresh_db) as Hkept.
  destruct (@database.saveMessage scan_order_engine "General" "Anonymous-7"
              "hello" morning (later 1) fresh_db) as [[saved d']|] eqn:Hsave.
  - apply (Hkept saved d'); [apply fresh_db_wf|reflexivity].
  - vm_compute in Hsave. discriminate.
Defined.

(** * The client's list of rooms *)

Lemma deliver_nil id c : deliver id [] c = c.
Proof. reflexivity. Qed.

Lemma deliver_cons id e e' out c :
  deliver id (e :: e' :: out) c = deliver id (e' :: out) (deliver id [e] c).
Proof. reflexivity. Qed.

Lemma deliver_app id out out' c :
  deliver id (out ++ out') c = deliver id out' (deliver id out c).
Proof. unfold deliver. by rewrite foldl_app. Qed.

Lemma sidebar_same_info a b view :
  rooms (store b) = rooms (store a) →
  (∀ n, room_info b n = room_info a n) →
  sidebar_in_sync a view → sidebar_in_sync b view.
Proof.
  intros Hrooms Hinfo (names & -> & Hperm). exists names.
  split; [|by rewrite Hrooms]. apply list_fmap_ext. by intros _ n _.
Qed.

Lemma tracks_quiet id a e : quiet (event e) → tracks id a a e.
Proof.
  intros Hquiet c Hsync. unfold deliver. simpl.
  case_decide; [|done]. by destruct (event e).
Qed.

Lemma tracks_missed id a e : id ∉ recipients e → tracks id a a e.
Proof.
  intros Hout c Hsync. unfold deliver. simpl. by rewrite decide_False.
Qed.

Lemma tracks_updated id a b e name :
  id ∈ recipients e → event e = room_updated (room_info b name) →
  rooms (store b) = rooms (store a) →
  (∀ n, n ≠ name → room_info b n = room_info a n) →
  tracks id a b e.
Proof.
  intros Hin He Hrooms Hinfo c (names & Hview & Hperm).
  unfold deliver. simpl. rewrite decide_True, He by done. simpl.
  exists names. split; [|by rewrite Hrooms].
  rewrite Hview, <- list_fmap_compose. apply list_fmap_ext.
  intros _ n _. simpl. case_decide as Hn; [by subst|].
  symmetry. by apply Hinfo.
Qed.

Lemma tracks_created id a b e name :
  id ∈ recipients e → event e = room_created (room_info b name) →
  r_name <$> rooms (store b) = (r_name <$> rooms (store a)) ++ [name] →
  name ∉ r_name <$> rooms (store a) →
  (∀ n, n ≠ name → room_info b n = room_info a n) →
  tracks id a b e.
Proof.
  intros Hin He Hrooms Hfresh Hinfo c (names & Hview & Hperm).
  unfold deliver. simpl. rewrite decide_True, He by done. simpl.
  exists (names ++ [name]). split; [|by rewrite Hrooms, Hperm].
  rewrite Hview, fmap_app. f_equal. apply list_fmap_ext.
  intros _ n Hn%list_elem_of_lookup_2. symmetry. apply Hinfo.
  intros ->. apply Hfresh. by rewrite <- Hperm.
Qed.

Section sidebar.
Context `{SqlEngine}.

Lemma getAllRooms_names d :
  r_name <$> database.getAllRooms d ≡ₚ r_name <$> rooms d.
Proof.
  unfold database.getAllRooms, statements.getAllRooms.
  by rewrite order_by_perm.
Qed.

(** The catalog sent on connection replaces whatever the client showed. *)
Lemma listed_in_sync id a e c :
  id ∈ recipients e →
  event e = rooms_list (room_info a ∘ r_name <$> database.getAllRooms (store a)) →
  rooms (store a) ≠ [] →
  sidebar_in_sync a (c_rooms (deliver id [e] c)).
Proof.
  intros Hin He Hrooms. unfold deliver. simpl.
  rewrite decide_True, He by done. simpl.
  rewrite decide_True.
  - exists (r_name <$> database.getAllRooms (store a)).
    split; [by rewrite <- list_fmap_compose|apply getAllRooms_names].
  - rewrite length_fmap.
    unfold database.getAllRooms, statements.getAllRooms.
    rewrite order_by_perm. destruct (rooms (store a)); [done|simpl; lia].
Qed.

Lemma room_info_left id previous s n :
  n ≠ previous →
  room_info (roomUsers_delete id previous (socket_leave id previous s)) n
  = room_info s n.
Proof.
  intros Hne. unfold room_info, userCount. autorewrite with server.
  by rewrite decide_False.
Qed.

Lemma room_info_joined id roomName s n :
  n ≠ roomName →
  room_info (roomUsers_add id roomName
               (set_currentRoom id (Some roomName)
                  (socket_join id roomName s))) n
  = room_info s n.
Proof.
  intros Hne. unfold room_info, userCount. autorewrite with server.
  by rewrite decide_False.
Qed.

Lemma leave_previous_sidebar id0 roomName now data s id c :
  id ∈ dom (sockets s) → sidebar_in_sync s (c_rooms c) →
  sidebar_in_sync (leave_previous id0 roomName now data s).1
    (c_rooms (deliver id (leave_previous id0 roomName now data s).2 c)).
Proof.
  intros Hid Hsync. unfold leave_previous.
  destruct (currentRoom data) as [previous|]; [|done].
  destruct (truthy _ && negb _); [|done]. cbn [fst snd].
  rewrite deliver_cons.
  apply (tracks_updated id s _ _ previous); [done|done|done| |].
  - intros n Hn. by apply room_info_left.
  - by apply tracks_quiet.
Qed.

Lemma join_room_sidebar id0 roomName now now' data s id c :
  id ∈ dom (sockets s) → sidebar_in_sync s (c_rooms c) →
  sidebar_in_sync (join_room id0 roomName now now' data s).1
    (c_rooms (deliver id (join_room id0 roomName now now' data s).2 c)).
Proof.
  intros Hid Hsync. unfold join_room.
  pose proof (leave_previous_sidebar id0 roomName now data s id c Hid Hsync)
    as Hleft.
  pose proof (leave_previous_sockets id0 roomName now data s) as Hsockets.
  destruct (leave_previous id0 roomName now data s) as [s1 out1].
  cbn [fst snd] in *.
  destruct (database.getRoomByName roomName (store s1)) as [r|];
    cbn [fst snd]; rewrite deliver_app.
  - rewrite 3!deliver_cons.
    apply (tracks_updated id s1 _ _ roomName).
    + observe. autorewrite with server. by rewrite Hsockets.
    + done.
    + done.
    + intros n Hn. by apply room_info_joined.
    + by repeat apply tracks_quiet.
  - by apply tracks_quiet.
Qed.

Lemma send_message_sidebar id0 text now now' data s id c :
  db_wf (store s) → id ∈ dom (sockets s) → sidebar_in_sync s (c_rooms c) →
  sidebar_in_sync (send_message id0 text now now' data s).1
    (c_rooms (deliver id (send_message id0 text now now' data s).2 c)).
Proof.
  intros Hwf Hid Hsync. unfold send_message.
  destruct (currentRoom data) as [room|]; [|by apply tracks_quiet].
  destruct (truthy _); [|by apply tracks_quiet].
  destruct (database.saveMessage _ _ _ _ _ _) as [[saved d]|] eqn:Hsave;
    [|by apply tracks_quiet].
  cbn [fst snd]. rewrite deliver_cons.
  apply (tracks_updated id s _ _ room); [done|done| | |].
  - autorewrite with server. by apply saveMessage_rooms in Hsave as [? _].
  - intros n Hn. unfold room_info, userCount. autorewrite with server.
    unfold database.getMessageCount, statements.getMessageCount.
    by rewrite (messages_join_rooms_saveMessage_ne _ _ _ _ _ _ _ _ _
                  Hwf Hsave).
  - by apply tracks_quiet.
Qed.

Lemma create_room_sidebar id0 roomName now s id c :
  store_ok (store s) → id ∈ dom (sockets s) →
  sidebar_in_sync s (c_rooms c) →
  sidebar_in_sync (create_room id0 roomName now s).1
    (c_rooms (deliver id (create_room id0 roomName now s).2 c)).
Proof.
  intros Hok Hid Hsync. unfold create_room.
  destruct (database.roomExists roomName (store s)) eqn:Hex;
    [by apply tracks_quiet|].
  assert (roomName ∉ r_name <$> rooms (store s)) as Hfresh
    by (rewrite <- roomExists_iff; congruence).
  destruct (decide (max_rowid ≤ rooms_seq (store s))%Z) as [Hfull|Hseq].
  { rewrite createRoom_full by done. cbn [negb fst snd].
    apply (sidebar_same_info s); [done|done|]. by apply tracks_quiet. }
  pose proof (createRoom_created roomName now (store s)) as Hcreated.
  rewrite Hex in Hcreated. specialize (Hcreated ltac:(lia)).
  pose proof (getMessageCount_created roomName now (store s) Hok Hex)
    as Hcount.
  pose proof (λ name, getMessageCount_createRoom_ne roomName name now
                        (store s) (proj1 Hok)) as Hother.
  pose proof (createRoom_rooms roomName now (store s)) as Hrooms.
  rewrite !decide_False in Hrooms by done.
  destruct (database.createRoom roomName now (store s)) as [created d].
  simpl in Hcreated, Hcount, Hother, Hrooms. subst created.
  cbn [negb fst snd]. rewrite deliver_cons.
  apply tracks_quiet; [done|].
  apply (tracks_created id s _ _ roomName); [done| | |done| |done].
  - observe. f_equal. unfold room_info, userCount. autorewrite with server.
    rewrite decide_True by done. by rewrite Hcount.
  - autorewrite with server. by rewrite Hrooms, fmap_app.
  - intros n Hn. unfold room_info, userCount. autorewrite with server.
    rewrite decide_False by done. by rewrite Hother.
Qed.

Lemma disconnect_sidebar id0 now data s id c :
  id ∈ dom (sockets s) → id ≠ id0 → sidebar_in_sync s (c_rooms c) →
  sidebar_in_sync (disconnect id0 now data (socket_close id0 s)).1
    (c_rooms (deliver id (disconnect id0 now data (socket_close id0 s)).2 c)).
Proof.
  intros Hid Hne Hsync. unfold disconnect.
  destruct (currentRoom data) as [room|]; [|done].
  destruct (truthy _); [|done]. cbn [fst snd]. rewrite deliver_cons.
  apply (tracks_updated id s _ _ room).
  - observe. autorewrite with server. rewrite dom_delete_L.
    apply elem_of_difference. split; [done|]. by intros ?%elem_of_singleton.
  - done.
  - done.
  - intros n Hn. unfold room_info, userCount. autorewrite with server.
    by rewrite decide_False.
  - by apply tracks_quiet.
Qed.

Lemma handle_sidebar i s id c :
  store_ok (store s) → rooms (store s) ≠ [] →
  id ∈ dom (sockets (handle i s).1) →
  (id ∈ dom (sockets s) → sidebar_in_sync s (c_rooms c)) →
  sidebar_in_sync (handle i s).1 (c_rooms (deliver id (handle i s).2 c)).
Proof.
  intros Hok Hrooms. unfold handle.
  destruct i as [id0 rnd|id0 roomName now now'|id0 text now now'
                |id0 isTyping|id0 roomName now|id0 now]; cbn [actor];
    destruct (sockets s !! id0) as [data|] eqn:Hdata; cbn [fst snd];
    try (intros Hid Hsync; by apply Hsync).
  - unfold connection. cbn [fst snd].
    replace (sockets (set_sockets _ (socket_join id0 id0 s))) with
      (<[id0 := {| username := "Anonymous-" +:+ toString (Z.of_nat rnd);
                   currentRoom := None |}]> (sockets s)) by done.
    rewrite dom_insert_L. intros Hid Hsync.
    destruct (decide (id = id0)) as [->|Hne].
    + apply (listed_in_sync id0 (set_sockets _ (socket_join id0 id0 s)));
        [|done|done].
      observe. by apply elem_of_singleton.
    + apply (sidebar_same_info s); [done|done|].
      apply tracks_missed.
      * observe. by intros ?%elem_of_singleton.
      * apply Hsync. apply elem_of_union in Hid as [Hid|Hid]; [|done].
        by apply elem_of_singleton in Hid.
  - intros Hid Hsync.
    assert (id ∈ dom (sockets s)) as Hid'.
    { revert Hid. unfold join_room.
      pose proof (leave_previous_sockets id0 roomName now data s) as Hsockets.
      destruct (leave_previous id0 roomName now data s) as [s1 out1].
      simpl in Hsockets.
      destruct (database.getRoomByName roomName (store s1)); cbn [fst snd];
        autorewrite with server; by rewrite Hsockets. }
    by apply join_room_sidebar; auto.
  - intros Hid Hsync.
    assert (id ∈ dom (sockets s)) as Hid'.
    { revert Hid. unfold send_message.
      destruct (currentRoom data); [|done]. destruct (truthy _); [|done].
      by destruct (database.saveMessage _ _ _ _ _ _) as [[? ?]|]. }
    apply send_message_sidebar; [apply Hok|done|auto].
  - rewrite typing_state. intros Hid Hsync.
    unfold typing. destruct (currentRoom data); [|by auto].
    destruct (truthy _); [|by auto]. apply tracks_quiet; [done|auto].
  - intros Hid Hsync.
    assert (id ∈ dom (sockets s)) as Hid'.
    { revert Hid. unfold create_room.
      destruct (database.roomExists _ _); [done|].
      by destruct (database.createRoom _ _ _) as [[] ?]. }
    apply create_room_sidebar; auto.
  - rewrite disconnect_sockets. autorewrite with server.
    rewrite dom_delete_L. intros [Hid Hne]%elem_of_difference Hsync.
    apply disconnect_sidebar; [done| |auto].
    intros ->. by apply Hne, elem_of_singleton.
Qed.

Lemma store_ok_handle i s :
  store_ok (store s) → store_ok (store (handle i s).1).
Proof.
  intros Hok. unfold handle.
  destruct i as [id0 rnd|id0 roomName now now'|id0 text now now'
                |id0 isTyping|id0 roomName now|id0 now]; simpl;
    destruct (sockets s !! id0) as [data|] eqn:Hdata; try done.
  - by rewrite join_room_store.
  - unfold send_message. destruct (currentRoom data); [|done].
    destruct (truthy _); [|done].
    destruct (database.saveMessage _ _ _ _ _ _) as [[saved d]|] eqn:Hsave;
      [|done].
    simpl. by eapply saveMessage_ok.
  - by rewrite typing_state.
  - unfold create_room. destruct (database.roomExists _ _); [done|].
    pose proof (createRoom_ok roomName now (store s) Hok) as Hok'.
    by destruct (database.createRoom _ _ _) as [[] ?].
  - by rewrite disconnect_store.
Qed.

Lemma rooms_handle i s :
  rooms (store s) `prefix_of` rooms (store (handle i s).1).
Proof.
  unfold handle.
  destruct i as [id0 rnd|id0 roomName now now'|id0 text now now'
                |id0 isTyping|id0 roomName now|id0 now]; simpl;
    destruct (sockets s !! id0) as [data|] eqn:Hdata; try done.
  - by rewrite join_room_store.
  - unfold send_message. destruct (currentRoom data); [|done].
    destruct (truthy _); [|done].
    destruct (database.saveMessage _ _ _ _ _ _) as [[saved d]|] eqn:Hsave;
      [|done].
    simpl. by apply saveMessage_rooms in Hsave as [-> _].
  - by rewrite typing_state.
  - unfold create_room. destruct (database.roomExists _ _); [done|].
    pose proof (createRoom_prefix roomName now (store s)) as Hprefix.
    by destruct (database.createRoom _ _ _) as [[] ?].
  - by rewrite disconnect_store.
Qed.

(** The catalog of a booted server is not empty, unless the store came
    with no room and a rooms counter that has run out. *)
Lemma boot_rooms_nonempty d tick :
  rooms d ≠ [] ∨ (rooms_seq d < max_rowid)%Z →
  rooms (database.initDefaultRooms defaultRooms tick d) ≠ [].
Proof.
  intros Hd. unfold database.initDefaultRooms.
  destruct Hd as [Hne|Hseq].
  - destruct (create_each_prefix (imap pair defaultRooms) tick d) as [k ->].
    by intros [? _]%app_eq_nil.
  - set (ps := imap pair defaultRooms).
    destruct (create_each_prefix (tail ps) tick
                (database.createRoom "General" (tick 0) d).2) as [k Hk].
    change (foldl (λ d' p, (database.createRoom p.2 (tick p.1) d').2) d ps)
      with (foldl (λ d' p, (database.createRoom p.2 (tick p.1) d').2)
              (database.createRoom "General" (tick 0) d).2 (tail ps)).
    rewrite Hk, createRoom_rooms, decide_False by lia.
    intros [Hnil _]%app_eq_nil. revert Hnil. case_decide as Hin.
    + intros Hnil. rewrite Hnil in Hin. by apply elem_of_nil in Hin.
    + by intros [_ ?]%app_eq_nil.
Qed.

(** X19. Server and client together.  Started on a store that keeps its
    constraints and that has a room or a rooms counter below the largest
    rowid, after any inputs whatever, and whatever the client showed
    before: the list of rooms of a client that is connected, once it has
    handled the events that reached it, shows every room of the catalog
    exactly once, each with the user count and message count the server
    holds for it. *)
Theorem sidebar_follows_server d tick inputs id c :
  store_ok d → rooms d ≠ [] ∨ (rooms_seq d < max_rowid)%Z →
  let r := run inputs (boot d tick) in
  id ∈ dom (sockets r.1) →
  sidebar_in_sync r.1 (c_rooms (deliver id r.2 c)).
Proof.
  intros Hok Hd r. unfold r. clear r.
  cut (store_ok (store (run inputs (boot d tick)).1)
       ∧ rooms (store (run inputs (boot d tick)).1) ≠ []
       ∧ ∀ id c, id ∈ dom (sockets (run inputs (boot d tick)).1) →
           sidebar_in_sync (run inputs (boot d tick)).1
             (c_rooms (deliver id (run inputs (boot d tick)).2 c))).
  { intros (_ & _ & Hall). apply Hall. }
  clear id c. induction inputs as [|i inputs IH] using rev_ind.
  - split_and!.
    + by apply initDefaultRooms_ok.
    + by apply boot_rooms_nonempty.
    + intros id c. simpl. rewrite dom_empty_L. by intros ?%elem_of_empty.
  - destruct IH as (Hok' & Hrooms & Hall). rewrite run_snoc. cbn [fst snd].
    split_and!.
    + by apply store_ok_handle.
    + destruct (rooms_handle i (run inputs (boot d tick)).1) as [k ->].
      intros [? _]%app_eq_nil. done.
    + intros id c Hid. rewrite deliver_app.
      apply handle_sidebar; [done..|]. intros Hid'. by apply Hall.
Qed.
End sidebar.

Lemma sidebar_follows_server_witness :
  sidebar_in_sync in_general
    (c_rooms
       (deliver "a"
          (@run scan_order_engine
             [Connect "a" 7; JoinRoom "a" "General" morning morning]
             fresh_server).2
          initial_client)).
Proof.
  apply (@sidebar_follows_server scan_order_engine empty_db (λ _, morning)
           [Connect "a" 7; JoinRoom "a" "General" morning morning] "a"
           initial_client).
  - apply empty_db_ok.
  - right. vm_compute. reflexivity.
  - apply (bool_decide_unpack _). vm_compute. exact I.
Defined.

(** * The client's room, name and messages *)

Lemma follows_other id e data c :
  match event e with joined_room _ _ => False | _ => True end →
  follows data c → follows data (deliver id [e] c).
Proof.
  intros He Hc. unfold deliver. simpl. case_decide; [|done].
  destruct (event e); try done. simpl. by case_decide.
Qed.

Lemma follows_missed id e data c :
  id ∉ recipients e → follows data c → follows data (deliver id [e] c).
Proof. intros Hout Hc. unfold deliver. simpl. by rewrite decide_False. Qed.

Lemma follows_joined id e data room c :
  id ∈ recipients e → event e = joined_room room (username data) →
  follows {| username := username data; currentRoom := Some room |}
    (deliver id [e] c).
Proof.
  intros Hin He. unfold deliver. simpl. rewrite decide_True, He by done.
  by split.
Qed.

Lemma deliver_to id e c :
  id ∈ recipients e → deliver id [e] c = on_event (event e) c.
Proof. intros Hin. unfold deliver. simpl. by rewrite decide_True. Qed.

Lemma deliver_not_to id e c : id ∉ recipients e → deliver id [e] c = c.
Proof. intros Hout. unfold deliver. simpl. by rewrite decide_False. Qed.

(** Notices and errors are shown as toasts and write no state. *)
Lemma deliver_toast id e c :
  match event e with
  | user_joined _ _ _ | user_left _ _ _ | error _ => True
  | _ => False
  end →
  deliver id [e] c = c.
Proof.
  intros He. unfold deliver. simpl. case_decide; [|done].
  by destruct (event e).
Qed.

Lemma deliver_room_updated id e c info :
  event e = room_updated info →
  c_currentRoom (deliver id [e] c) = c_currentRoom c
  ∧ c_username (deliver id [e] c) = c_username c
  ∧ c_messages (deliver id [e] c) = c_messages c.
Proof.
  intros He. unfold deliver. simpl. case_decide; [|done]. by rewrite He.
Qed.

Section client_session.
Context `{SqlEngine}.

Lemma leave_previous_follows id0 roomName now data0 s id data c :
  follows data c →
  follows data (deliver id (leave_previous id0 roomName now data0 s).2 c).
Proof.
  intros Hc. unfold leave_previous.
  destruct (currentRoom data0) as [previous|]; [|done].
  destruct (truthy _ && negb _); [|done]. cbn [snd].
  rewrite deliver_cons. by repeat apply follows_other.
Qed.

(** X20. One inbound event, seen from a client that is connected before
    and after it: if the client showed the room its session held, and in a
    room the name its session held, it still does once it has handled the
    events that reached it. *)
Theorem client_follows_session i s id data data' c :
  sockets s !! id = Some data →
  sockets (handle i s).1 !! id = Some data' →
  follows data c →
  follows data' (deliver id (handle i s).2 c).
Proof.
  intros Hdata. unfold handle.
  destruct i as [id0 rnd|id0 roomName now now'|id0 text now now'
                |id0 isTyping|id0 roomName now|id0 now]; cbn [actor];
    destruct (sockets s !! id0) as [data0|] eqn:Hdata0; cbn [fst snd];
    try (rewrite Hdata; by intros [= <-]).
  - unfold connection. cbn [fst snd].
    replace (sockets (set_sockets _ (socket_join id0 id0 s))) with
      (<[id0 := {| username := "Anonymous-" +:+ toString (Z.of_nat rnd);
                   currentRoom := None |}]> (sockets s)) by done.
    assert (id ≠ id0) as Hne by congruence.
    rewrite lookup_insert_ne, Hdata by done. intros [= <-] Hc.
    by apply follows_other.
  - unfold join_room.
    pose proof (leave_previous_follows id0 roomName now data0 s id data c)
      as Hleft.
    pose proof (leave_previous_sockets id0 roomName now data0 s) as Hsockets.
    destruct (leave_previous id0 roomName now data0 s) as [s1 out1].
    cbn [fst snd] in *.
    destruct (database.getRoomByName roomName (store s1)) as [r|];
      cbn [fst snd]; rewrite deliver_app.
    + autorewrite with server. rewrite sockets_set_currentRoom.
      autorewrite with server. rewrite Hsockets.
      destruct (decide (id = id0)) as [->|Hne].
      * rewrite lookup_alter_eq, Hdata. intros [= <-] Hc.
        assert (data0 = data) as -> by congruence.
        rewrite 3!deliver_cons. do 2 (apply follows_other; [done|]).
        apply follows_joined; [|done]. observe. by apply elem_of_singleton.
      * rewrite lookup_alter_ne, Hdata by done. intros [= <-] Hc.
        rewrite 3!deliver_cons. do 2 (apply follows_other; [done|]).
        apply follows_missed.
        { observe. by intros ?%elem_of_singleton. }
        apply follows_other; [done|]. auto.
    + rewrite Hsockets, Hdata. intros [= <-] Hc.
      apply follows_other; [done|]. auto.
  - unfold send_message.
    destruct (currentRoom data0) as [room|];
      [destruct (truthy _);
       [destruct (database.saveMessage _ _ _ _ _ _) as [[saved d]|]|]|];
      cbn [fst snd]; autorewrite with server; rewrite Hdata;
      intros [= <-] Hc; rewrite ?deliver_cons;
      by repeat apply follows_other.
  - rewrite typing_state, Hdata. intros [= <-] Hc. unfold typing.
    destruct (currentRoom data0); [|done].
    destruct (truthy _); [|done]. by apply follows_other.
  - unfold create_room.
    destruct (database.roomExists _ _);
      [|destruct (database.createRoom _ _ _) as [[] d]];
      cbn [negb fst snd]; autorewrite with server; rewrite Hdata;
      intros [= <-] Hc; rewrite ?deliver_cons;
      by repeat apply follows_other.
  - rewrite disconnect_sockets. autorewrite with server.
    intros [Hne Hsame]%lookup_delete_Some Hc.
    assert (data' = data) as -> by congruence.
    unfold disconnect. destruct (currentRoom data0); [|done].
    destruct (truthy _); [|done]. cbn [snd].
    rewrite deliver_cons. by repeat apply follows_other.
Qed.

(** X21. A join that succeeds, seen from the caller's client: once the
    events are handled it shows the room joined, the name of its session,
    and as its messages the history of that room. *)
Theorem join_shows_history id roomName now now' data s c :
  sockets s !! id = Some data →
  database.roomExists roomName (store s) = true →
  let c' := deliver id (handle (JoinRoom id roomName now now') s).2 c in
  c_currentRoom c' = Some roomName
  ∧ c_username c' = username data
  ∧ c_messages c' = database.getMessagesByRoom roomName (store s).
Proof.
  intros Hdata [row Hrow]%bool_decide_eq_true. unfold handle. cbn [actor].
  rewrite Hdata. unfold join_room.
  pose proof (leave_previous_store id roomName now data s) as Hstore.
  destruct (leave_previous id roomName now data s) as [s1 out1].
  cbn [fst snd] in *. unfold database.getRoomByName.
  rewrite Hstore, Hrow. cbn [snd]. rewrite deliver_app.
  rewrite 3!deliver_cons.
  rewrite (deliver_to id (socket_emit id (message_history _)))
    by (observe; by apply elem_of_singleton).
  rewrite (deliver_to id (socket_emit id (joined_room _ _)))
    by (observe; by apply elem_of_singleton).
  rewrite (deliver_toast id (socket_to _ _ _ _)) by done.
  match goal with
  | |- context [deliver id [?e] ?c0] =>
      destruct (deliver_room_updated id e c0 _ eq_refl) as (-> & -> & ->)
  end.
  cbn. split_and!; [done..|].
  autorewrite with server. by rewrite Hstore.
Qed.
End client_session.

Section client_messages.
Context `{SqlEngine}.

(** X22. A message sent from a room, seen from any client, the message
    counter being below the largest rowid and no room of the catalog being
    named after a connected socket: once the events are handled, the
    client's list of messages has the new message at its end if its
    connection is in the room's presence set, and is as it was otherwise. *)
Theorem message_reaches_room id text now now' data room s id' c :
  steady s → no_id_rooms s → (messages_seq (store s) < max_rowid)%Z →
  sockets s !! id = Some data → currentRoom data = Some room →
  c_messages (deliver id' (handle (SendMessage id text now now') s).2 c)
  = if decide (id' ∈ presence s room)
    then c_messages c
         ++ [{| msg_id := toString (messages_seq (store s) + 1);
                msg_text := text;
                msg_username := username data;
                msg_room := room;
                msg_timestamp := toISOString now' |}]
    else c_messages c.
Proof.
  intros Hsteady Hnone Hseq Hdata Hroom.
  destruct (steady_session_room id data room s) as (_ & Hne & row & Hrow);
    [done..|].
  assert (members s room = presence s room) as Hsame.
  { apply steady_members_room; [done..|].
    apply bool_decide_eq_true. by exists row. }
  destruct Hsteady as (_ & _ & Hwf & _).
  destruct (send_message_result id text now now' data room row s)
    as (d' & -> & _); [done..|].
  cbn [snd]. rewrite deliver_cons.
  match goal with
  | |- context [deliver id' [io_emit ?a ?p] ?c0] =>
      destruct (deliver_room_updated id' (io_emit a p) c0 _ eq_refl)
        as (_ & _ & ->)
  end.
  unfold deliver. cbn [foldl]. observe. rewrite Hsame.
  by case_decide.
Qed.
End client_messages.

Lemma client_follows_session_witness :
  follows {| username := "Anonymous-7"; currentRoom := Some "Technology" |}
    (deliver "a"
       (@handle scan_order_engine
          (JoinRoom "a" "Technology" (later 1) (later 2)) in_general).2
       (on_event (joined_room "General" "Anonymous-7") initial_client)).
Proof.
  apply (@client_follows_session scan_order_engine
           (JoinRoom "a" "Technology" (later 1) (later 2)) in_general "a"
           {| username := "Anonymous-7"; currentRoom := Some "General" |}).
  - vm_compute. reflexivity.
  - vm_compute. reflexivity.
  - split; reflexivity.
Defined.

Lemma join_shows_history_witness :
  let c' :=
    deliver "a"
      (@handle scan_order_engine
         (JoinRoom "a" "Technology" (later 1) (later 2)) in_general).2
      initial_client in
  c_currentRoom c' = Some "Technology"
  ∧ c_username c' = "Anonymous-7"
  ∧ c_messages c'
    = @database.getMessagesByRoom scan_order_engine "Technology"
        (store in_general).
Proof.
  apply (@join_shows_history scan_order_engine "a" "Technology" (later 1)
           (later 2)
           {| username := "Anonymous-7"; currentRoom := Some "General" |}
           in_general initial_client).
  - vm_compute. reflexivity.
  - reflexivity.
Defined.

Lemma message_reaches_room_witness :
  c_messages
    (deliver "a"
       (@handle scan_order_engine
          (SendMessage "a" "hello" (later 1) (later 2)) in_general).2
       initial_client)
  = if decide ("a" ∈ presence in_general "General")
    then c_messages initial_client
         ++ [{| msg_id :=
                  @toString scan_order_engine
                    (messages_seq (store in_general) + 1);
                msg_text := "hello";
                msg_username := "Anonymous-7";
                msg_room := "General";
                msg_timestamp := toISOString (later 2) |}]
    else c_messages initial_client.
Proof.
  apply (@message_reaches_room scan_order_engine "a" "hello" (later 1)
           (later 2)
           {| username := "Anonymous-7"; currentRoom := Some "General" |}
           "General" in_general "a" initial_client).
  - apply in_general_steady.
  - apply in_general_no_id_rooms.
  - vm_compute. reflexivity.
  - vm_compute. reflexivity.
  - reflexivity.
Defined.

Section client_typing.
Context `{SqlEngine}.

(** X26. A typing notice from a client in a room, seen from any client, no
    room of the catalog being named after a connected socket: once the
    event is handled, the sender's name is added to (or, when the sender
    stopped typing, removed from) the set of typing users of every other
    client whose connection is in the room's presence set, and that set is
    as it was for the sender and for everyone outside the room. *)
Theorem typing_shown id isTyping data room s id' c :
  steady s → no_id_rooms s →
  sockets s !! id = Some data → currentRoom data = Some room →
  c_typingUsers (deliver id' (handle (Typing id isTyping) s).2 c)
  = if decide (id' ∈ presence s room ∧ id' ≠ id)
    then (if isTyping then Set_add (username data)
          else Set_delete (username data)) (c_typingUsers c)
    else c_typingUsers c.
Proof.
  intros Hsteady Hnone Hdata Hroom.
  destruct (steady_session_room id data room s) as (_ & Hne & row & Hrow);
    [done..|].
  assert (members s room = presence s room) as Hsame.
  { apply steady_members_room; [done..|].
    apply bool_decide_eq_true. by exists row. }
  pose proof (steady_members_own s id data Hsteady Hnone Hdata) as Hown.
  unfold handle. cbn [actor]. rewrite Hdata. unfold typing.
  rewrite Hroom. simpl.
  destruct (String.eqb_spec room EmptyString) as [|_]; [done|]. simpl.
  unfold deliver. cbn [foldl]. observe. rewrite Hsame, Hown.
  destruct (decide (id' ∈ presence s room ∖ {[id]})) as [Hin|Hout].
  - apply elem_of_difference in Hin as [Hin Hid].
    rewrite decide_True; [done|]. split; [done|].
    intros ->. by apply Hid, elem_of_singleton.
  - rewrite decide_False; [done|]. intros [Hin Hid]. apply Hout.
    apply elem_of_difference. split; [done|]. by intros ?%elem_of_singleton.
Qed.
End client_typing.

Lemma two_in_general_steady : steady two_in_general.
Proof.
  apply (@run_steady scan_order_engine).
  - apply steady_boot, empty_db_ok.
  - simpl. split_and!; done.
Qed.

Lemma two_in_general_no_id_rooms : no_id_rooms two_in_general.
Proof. by_evaluation. Qed.

Lemma typing_shown_witness :
  ("b" ∈ presence two_in_general "General" ∧ "b" ≠ "a")
  ∧ c_typingUsers
      (deliver "b"
         (@handle scan_order_engine (Typing "a" true) two_in_general).2
         initial_client)
    = Set_add "Anonymous-7" (c_typingUsers initial_client).
Proof.
  assert ("b" ∈ presence two_in_general "General" ∧ "b" ≠ "a") as Hother.
  { split; [by_evaluation|discriminate]. }
  split; [exact Hother|].
  pose proof (@typing_shown scan_order_engine "a" true
                {| username := "Anonymous-7";
                   currentRoom := Some "General" |}
                "General" two_in_general "b" initial_client
                two_in_general_steady two_in_general_no_id_rooms)
    as Hshown.
  rewrite decide_True in Hshown by exact Hother.
  apply Hshown; vm_compute; reflexivity.
Defined.
